(** * The liveliness-challenge component of [src/App.tsx]

    A shallow embedding of the React component [App] and of the part of
    the browser it talks to (timers, the camera, [alert]), followed by
    the properties of the challenge orchestration.

    Conventions of the embedding.
    - A JavaScript string is the list of its UTF-16 code units.
    - The hook state ([useState]) and the refs ([useRef]) are fields of
      one record; every handler and every timer callback runs to
      completion on the committed state, and React commits the result
      before the next event is delivered.  An updater function passed
      to a setter runs once.
    - [Math.random()] and the outcome of [getUserMedia] are inputs of
      the transition that consumes them.  A number is the rational it
      denotes ([Q]; the counters and times are integers, [Z]); the
      arithmetic of [moveDot] rounds every result to binary64, to
      nearest with ties to even, as IEEE 754 has it ([Binary64]).
    - The browser's timer table is a finite map from timer ids to the
      scheduled callback; the variable [elapsed] captured by [moveDot]
      travels with the pending timeout of its chain, the only closure
      that can reach it.  A live timer may run at any moment (input
      [Fire]), never before its time on the virtual clock; [advance]
      is the ideal clock, which runs the timer that is due first.
    - What the component does to the outside ([alert], [console.error],
      [getUserMedia], [track.stop()]) and the calls the properties
      count (a countdown tick, [endChallenge], a dot move) are appended
      to a trace, each with the virtual time at which it happened. *)

From Stdlib Require Import ZArith QArith Qround Qabs Lia Lqa Ascii String.
From Stdlib Require Import SpecFloat.
From stdpp Require Import base gmap list.

Local Open Scope Z_scope.

(** ** JavaScript strings *)

Module JsString.

Definition jsstring := list N.

(** A source literal (ASCII only). *)
Definition lit (s : string) : jsstring :=
  map N_of_ascii (list_ascii_of_string s).

(** ECMAScript [WhiteSpace] and [LineTerminator] code points, the
    ones [String.prototype.trim] strips. *)
Definition isWhiteSpace (c : N) : bool :=
  ((9 <=? c) && (c <=? 13)        (* TAB LF VT FF CR *)
   || (c =? 32)                   (* SP *)
   || (c =? 160)                  (* NBSP *)
   || (c =? 5760)                 (* U+1680 *)
   || ((8192 <=? c) && (c <=? 8202))  (* U+2000 .. U+200A *)
   || (c =? 8232) || (c =? 8233)  (* LS PS *)
   || (c =? 8239) || (c =? 8287)  (* U+202F U+205F *)
   || (c =? 12288)                (* U+3000 *)
   || (c =? 65279))%N.            (* U+FEFF *)

Fixpoint trimStart (s : jsstring) : jsstring :=
  match s with
  | [] => []
  | c :: r => if isWhiteSpace c then trimStart r else s
  end.

Definition trimEnd (s : jsstring) : jsstring :=
  rev (trimStart (rev s)).

Definition trim (s : jsstring) : jsstring := trimEnd (trimStart s).

Fixpoint startsWith (s p : jsstring) : bool :=
  match p, s with
  | [], _ => true
  | _ :: _, [] => false
  | a :: p', b :: s' => (a =? b)%N && startsWith s' p'
  end.

(** [s.includes(p)] *)
Fixpoint includes (s p : jsstring) : bool :=
  startsWith s p ||
  match s with
  | [] => false
  | _ :: r => includes r p
  end.

(** [ToBoolean] of a string *)
Definition truthy (s : jsstring) : bool :=
  match s with [] => false | _ :: _ => true end.

Definition at_sign : jsstring := lit "@".

End JsString.
Import JsString.

(** ** Numbers

    A JavaScript number is a binary64 value; a finite one is modelled
    by the rational it denotes.  The result of an operation is the
    exact result rounded to the nearest binary64 value, ties to the
    even significand.  The numbers of the component stay below 2^7, so
    overflow to [Infinity] is out of reach and not modelled. *)

Module Binary64.

(** Two to the power [e], for any integer [e]. *)
Definition pow2 (e : Z) : Q :=
  if 0 <=? e then inject_Z (2 ^ e) else 1 # Z.to_pos (2 ^ (- e)).

(** The binary exponent of a positive rational: the [k] with
    [2^k <= q < 2^(k+1)]. *)
Definition Qlog2 (q : Q) : Z :=
  if Qle_bool 1 q then Z.log2 (Qfloor q)
  else - Z.log2_up (Qceiling (/ q)).

(** The exponent of the unit in the last place of the binary64 values
    around [q]: 53 bits of significand, subnormal below 2^-1022. *)
Definition ulp_exponent (q : Q) : Z :=
  Z.max (Qlog2 (Qabs q) - 52) (-1074).

(** The nearest integer, ties to even. *)
Definition round_half_even (q : Q) : Z :=
  let f := Qfloor q in
  match (q - inject_Z f ?= 1 # 2)%Q with
  | Lt => f
  | Gt => f + 1
  | Eq => if Z.even f then f else f + 1
  end.

(** The nearest multiple of [2^e]. *)
Definition round_to (e : Z) (q : Q) : Q :=
  (inject_Z (round_half_even (q / pow2 e)) * pow2 e)%Q.

Definition round64 (q : Q) : Q := Qred (round_to (ulp_exponent q) q).

Definition mul (a b : Q) : Q := round64 (a * b).
Definition add (a b : Q) : Q := round64 (a + b).

(** The rational a finite value of the Standard Library's IEEE 754
    specification denotes. *)
Definition value (f : spec_float) : option Q :=
  match f with
  | S754_zero _ => Some 0%Q
  | S754_finite s m e =>
      Some (Qred ((if s then -1 else 1) * inject_Z (Z.pos m) * pow2 e))%Q
  | _ => None
  end.

(** The literals [80] and [10]. *)
Definition eighty : spec_float := S754_finite false 5 4.
Definition ten : spec_float := S754_finite false 5 1.

(** Some doubles of the unit interval: the nearest to one tenth and to
    three tenths, one half, the largest, and the smallest positive
    one. *)
Definition sample_doubles : list spec_float :=
  [ S754_finite false 7205759403792794 (-56);
    S754_finite false 5404319552844595 (-54);
    S754_finite false 1 (-1);
    S754_finite false 9007199254740991 (-53);
    S754_finite false 1 (-1074);
    S754_zero false ].

End Binary64.

(** ** Data model *)

Record User := { name : jsstring; email : jsstring }.

Inductive Status := PASS | FAIL.

Record ChallengeResult := {
  status : Status;
  duration : Z;
  timestamp : Z          (* [new Date()], in virtual milliseconds *)
}.

Record Position := { pos_x : Q; pos_y : Q }.

Record MediaStream := { tracks : list nat }.

Record VideoElement := { srcObject : option MediaStream }.

(** What a timer runs: the arrow function given to [setInterval] in
    [startChallenge], or [moveDot] together with the current value of
    the [elapsed] variable of its [moveDotRandomly] call. *)
Inductive Callback :=
| CountdownTick
| MoveDot (elapsed : Z).

#[global] Instance Callback_eq_dec : EqDecision Callback.
Proof. solve_decision. Defined.

Record Timer := { callback : Callback; due : Z }.

Inductive JsError :=
| DOMException (error_name : jsstring)
| OtherError.

Inductive Obs :=
| Alert (msg : jsstring)
| ConsoleError (e : JsError)
| GetUserMedia (width height : Z)
| TrackStop (track : nat)
| Tick (remaining : Z)       (* value returned by the [setTimeLeft] updater *)
| Complete                   (* a call of [endChallenge] *)
| Move (p : Position).       (* a call of [setDotPosition] by [moveDot] *)

(** [useState] cells. *)
Record Hooks := {
  user : User;
  isRegistered : bool;
  isCameraActive : bool;
  isChallengeActive : bool;
  challengeResult : option ChallengeResult;
  timeLeft : Z;
  dotPosition : Position
}.

(** [useRef] cells; [videoRef] is attached by React to the [<video>]
    element while that element is mounted. *)
Record Refs := {
  videoRef : option VideoElement;
  streamRef : option MediaStream;
  challengeTimerRef : option nat;
  dotTimerRef : option nat
}.

(** The browser around the component. *)
Record Platform := {
  timers : gmap nat Timer;
  nextTimerId : nat;
  now : Z;
  liveTracks : gset nat;      (* camera tracks that are capturing *)
  pendingCamera : nat;        (* [getUserMedia] promises not yet settled *)
  mounted : bool;
  trace : list (Z * Obs)
}.

Record World := { hooks : Hooks; refs : Refs; env : Platform }.

(** ** State access *)

Definition with_hooks (f : Hooks -> Hooks) (w : World) : World :=
  {| hooks := f (hooks w); refs := refs w; env := env w |}.

Definition with_refs (f : Refs -> Refs) (w : World) : World :=
  {| hooks := hooks w; refs := f (refs w); env := env w |}.

Definition with_env (f : Platform -> Platform) (w : World) : World :=
  {| hooks := hooks w; refs := refs w; env := f (env w) |}.

Definition setUser (u : User) : World -> World :=
  with_hooks (fun h =>
    {| user := u; isRegistered := isRegistered h;
       isCameraActive := isCameraActive h;
       isChallengeActive := isChallengeActive h;
       challengeResult := challengeResult h; timeLeft := timeLeft h;
       dotPosition := dotPosition h |}).

Definition setIsRegistered (b : bool) : World -> World :=
  with_hooks (fun h =>
    {| user := user h; isRegistered := b;
       isCameraActive := isCameraActive h;
       isChallengeActive := isChallengeActive h;
       challengeResult := challengeResult h; timeLeft := timeLeft h;
       dotPosition := dotPosition h |}).

Definition setIsCameraActive (b : bool) : World -> World :=
  with_hooks (fun h =>
    {| user := user h; isRegistered := isRegistered h;
       isCameraActive := b;
       isChallengeActive := isChallengeActive h;
       challengeResult := challengeResult h; timeLeft := timeLeft h;
       dotPosition := dotPosition h |}).

Definition setIsChallengeActive (b : bool) : World -> World :=
  with_hooks (fun h =>
    {| user := user h; isRegistered := isRegistered h;
       isCameraActive := isCameraActive h;
       isChallengeActive := b;
       challengeResult := challengeResult h; timeLeft := timeLeft h;
       dotPosition := dotPosition h |}).

Definition setChallengeResult (r : option ChallengeResult) : World -> World :=
  with_hooks (fun h =>
    {| user := user h; isRegistered := isRegistered h;
       isCameraActive := isCameraActive h;
       isChallengeActive := isChallengeActive h;
       challengeResult := r; timeLeft := timeLeft h;
       dotPosition := dotPosition h |}).

Definition setTimeLeft (n : Z) : World -> World :=
  with_hooks (fun h =>
    {| user := user h; isRegistered := isRegistered h;
       isCameraActive := isCameraActive h;
       isChallengeActive := isChallengeActive h;
       challengeResult := challengeResult h; timeLeft := n;
       dotPosition := dotPosition h |}).

Definition setDotPosition (p : Position) : World -> World :=
  with_hooks (fun h =>
    {| user := user h; isRegistered := isRegistered h;
       isCameraActive := isCameraActive h;
       isChallengeActive := isChallengeActive h;
       challengeResult := challengeResult h; timeLeft := timeLeft h;
       dotPosition := p |}).

Definition set_videoRef (v : option VideoElement) : World -> World :=
  with_refs (fun r =>
    {| videoRef := v; streamRef := streamRef r;
       challengeTimerRef := challengeTimerRef r;
       dotTimerRef := dotTimerRef r |}).

Definition set_streamRef (s : option MediaStream) : World -> World :=
  with_refs (fun r =>
    {| videoRef := videoRef r; streamRef := s;
       challengeTimerRef := challengeTimerRef r;
       dotTimerRef := dotTimerRef r |}).

Definition set_challengeTimerRef (t : option nat) : World -> World :=
  with_refs (fun r =>
    {| videoRef := videoRef r; streamRef := streamRef r;
       challengeTimerRef := t; dotTimerRef := dotTimerRef r |}).

Definition set_dotTimerRef (t : option nat) : World -> World :=
  with_refs (fun r =>
    {| videoRef := videoRef r; streamRef := streamRef r;
       challengeTimerRef := challengeTimerRef r; dotTimerRef := t |}).

Definition set_timers (m : gmap nat Timer) : World -> World :=
  with_env (fun e =>
    {| timers := m; nextTimerId := nextTimerId e; now := now e;
       liveTracks := liveTracks e; pendingCamera := pendingCamera e;
       mounted := mounted e; trace := trace e |}).

Definition set_nextTimerId (n : nat) : World -> World :=
  with_env (fun e =>
    {| timers := timers e; nextTimerId := n; now := now e;
       liveTracks := liveTracks e; pendingCamera := pendingCamera e;
       mounted := mounted e; trace := trace e |}).

Definition set_now (t : Z) : World -> World :=
  with_env (fun e =>
    {| timers := timers e; nextTimerId := nextTimerId e; now := t;
       liveTracks := liveTracks e; pendingCamera := pendingCamera e;
       mounted := mounted e; trace := trace e |}).

Definition set_liveTracks (s : gset nat) : World -> World :=
  with_env (fun e =>
    {| timers := timers e; nextTimerId := nextTimerId e; now := now e;
       liveTracks := s; pendingCamera := pendingCamera e;
       mounted := mounted e; trace := trace e |}).

Definition set_pendingCamera (n : nat) : World -> World :=
  with_env (fun e =>
    {| timers := timers e; nextTimerId := nextTimerId e; now := now e;
       liveTracks := liveTracks e; pendingCamera := n;
       mounted := mounted e; trace := trace e |}).

Definition set_mounted (b : bool) : World -> World :=
  with_env (fun e =>
    {| timers := timers e; nextTimerId := nextTimerId e; now := now e;
       liveTracks := liveTracks e; pendingCamera := pendingCamera e;
       mounted := b; trace := trace e |}).

Definition emit (o : Obs) : World -> World :=
  with_env (fun e =>
    {| timers := timers e; nextTimerId := nextTimerId e; now := now e;
       liveTracks := liveTracks e; pendingCamera := pendingCamera e;
       mounted := mounted e; trace := trace e ++ [(now e, o)] |}).

(** ** Browser primitives *)

(** [setInterval] and [setTimeout] draw their ids from one counter and
    share one table; the id returned is a positive integer. *)
Definition schedule (cb : Callback) (ms : Z) (w : World) : nat * World :=
  let id := nextTimerId (env w) in
  let t := {| callback := cb; due := now (env w) + ms |} in
  (id, set_nextTimerId (S id) (set_timers (<[id := t]> (timers (env w))) w)).

Definition setInterval := schedule.
Definition setTimeout := schedule.

Definition clearTimer (id : nat) (w : World) : World :=
  set_timers (delete id (timers (env w))) w.

Definition clearInterval := clearTimer.
Definition clearTimeout := clearTimer.

(** [ToBoolean] of a timer id held in a ref ([null] is [None]). *)
Definition truthyId (r : option nat) : option nat :=
  match r with
  | Some (S n) => Some (S n)
  | _ => None
  end.

Definition alert (msg : jsstring) : World -> World := emit (Alert msg).

(** [track.stop()] *)
Definition stopTrack (w : World) (t : nat) : World :=
  emit (TrackStop t) (set_liveTracks (liveTracks (env w) ∖ {[t]}) w).

(** ** The component *)

Definition msg_invalid : jsstring :=
  lit "Please enter valid name and email.".
Definition msg_denied : jsstring :=
  lit "Camera access was denied. Please enable camera permissions in your browser settings and try again.".
Definition msg_required : jsstring :=
  lit "Camera access is required for the liveliness check.".

Definition status_string (s : Status) : jsstring :=
  match s with PASS => lit "PASS" | FAIL => lit "FAIL" end.

(** The template literal of [submitResult]. *)
Definition msg_submitted (s : Status) (u : User) : jsstring :=
  lit "Result submitted: " ++ status_string s ++ [10%N] ++
  lit "User: " ++ name u ++ [10%N] ++ lit "Email: " ++ email u.

Definition initial : World :=
  {| hooks := {| user := {| name := []; email := [] |};
                 isRegistered := false; isCameraActive := false;
                 isChallengeActive := false; challengeResult := None;
                 timeLeft := 0;
                 dotPosition := {| pos_x := 50; pos_y := 50 |} |};
     refs := {| videoRef := None; streamRef := None;
                challengeTimerRef := None; dotTimerRef := None |};
     env := {| timers := ∅; nextTimerId := 1; now := 0;
               liveTracks := ∅; pendingCamera := 0; mounted := true;
               trace := [] |} |}.

(** [startCamera] up to its [await]: the request is issued. *)
Definition startCamera (w : World) : World :=
  set_pendingCamera (S (pendingCamera (env w)))
    (emit (GetUserMedia 1280 720) w).

(** [startCamera] after the [await], the promise fulfilled with
    [stream]. *)
Definition startCamera_resolved (stream : MediaStream) (w : World) : World :=
  match videoRef (refs w) with
  | Some _ =>
      let w := set_videoRef (Some {| srcObject := Some stream |}) w in
      let w := set_streamRef (Some stream) w in
      setIsCameraActive true w
  | None => w
  end.

(** [startCamera], the [catch] branch. *)
Definition startCamera_rejected (error : JsError) (w : World) : World :=
  let w := emit (ConsoleError error) w in
  match error with
  | DOMException n =>
      if bool_decide (n = lit "NotAllowedError")
      then alert msg_denied w else alert msg_required w
  | OtherError => alert msg_required w
  end.

Definition stopCamera (w : World) : World :=
  match streamRef (refs w) with
  | Some stream =>
      let w := foldl stopTrack w (tracks stream) in
      let w := set_streamRef None w in
      setIsCameraActive false w
  | None => w
  end.

Definition handleRegister (w : World) : World :=
  let u := user (hooks w) in
  if truthy (trim (name u)) && truthy (trim (email u))
     && includes (email u) at_sign
  then startCamera (setIsRegistered true w)
  else alert msg_invalid w.

Definition move_interval : Z := 800.
Definition total_duration : Z := 6000.

(** [Math.random() * 80 + 10] on the draw [r]: the product is
    rounded, then the sum. *)
Definition coordinate (r : Q) : Q :=
  Binary64.add (Binary64.mul r 80) 10.

Arguments coordinate : simpl never.

(** The same computation in the Standard Library's specification of
    IEEE 754 arithmetic ([prec = 53], [emax = 1024]), to compare
    with. *)
Definition coordinate_ieee (r : spec_float) : spec_float :=
  SFadd 53 1024 (SFmul 53 1024 r Binary64.eighty) Binary64.ten.

(** [moveDot]; [elapsed] is the captured variable before the call,
    [rx] and [ry] the two [Math.random()] draws. *)
Definition moveDot (elapsed : Z) (rx ry : Q) (w : World) : World :=
  let p := {| pos_x := coordinate rx; pos_y := coordinate ry |} in
  let w := emit (Move p) (setDotPosition p w) in
  let elapsed := elapsed + move_interval in
  if elapsed <? total_duration then
    let '(id, w) := setTimeout (MoveDot elapsed) move_interval w in
    set_dotTimerRef (Some id) w
  else w.

Definition moveDotRandomly (rx ry : Q) (w : World) : World :=
  moveDot 0 rx ry w.

Definition pass_threshold : Q := 3 # 10.

(** [endChallenge]; [r] is the [Math.random()] draw. *)
Definition endChallenge (r : Q) (w : World) : World :=
  let w := emit Complete w in
  let w := setIsChallengeActive false w in
  let w := match truthyId (challengeTimerRef (refs w)) with
           | Some id => set_challengeTimerRef None (clearInterval id w)
           | None => w
           end in
  let w := match truthyId (dotTimerRef (refs w)) with
           | Some id => set_dotTimerRef None (clearTimeout id w)
           | None => w
           end in
  let success := negb (Qle_bool r pass_threshold) in
  setChallengeResult
    (Some {| status := if success then PASS else FAIL;
             duration := 6;
             timestamp := now (env w) |}) w.

(** The arrow function given to [setInterval]: one call of
    [setTimeLeft] with the updater applied to the current value. *)
Definition countdownTick (r : Q) (w : World) : World :=
  let prev := timeLeft (hooks w) in
  if prev <=? 1 then
    let w := endChallenge r w in
    setTimeLeft 0 (emit (Tick 0) w)
  else setTimeLeft (prev - 1) (emit (Tick (prev - 1)) w).

Definition startChallenge (rx ry : Q) (w : World) : World :=
  if negb (isCameraActive (hooks w)) then w else
  let w := setIsChallengeActive true w in
  let w := setChallengeResult None w in
  let w := setTimeLeft 6 w in
  let '(id, w) := setInterval CountdownTick 1000 w in
  let w := set_challengeTimerRef (Some id) w in
  moveDotRandomly rx ry w.

Definition submitResult (w : World) : World :=
  match challengeResult (hooks w) with
  | Some res =>
      let w := alert (msg_submitted (status res) (user (hooks w))) w in
      let w := setChallengeResult None w in
      setTimeLeft 0 w
  | None => w
  end.

(** The cleanup returned by the effect. *)
Definition cleanup (w : World) : World :=
  let w := stopCamera w in
  let w := match truthyId (challengeTimerRef (refs w)) with
           | Some id => clearInterval id w
           | None => w
           end in
  match truthyId (dotTimerRef (refs w)) with
  | Some id => clearTimeout id w
  | None => w
  end.

(** ** Rendering and events *)

(** The [<video ref={videoRef}>] element exists exactly while the
    committed [isCameraActive] is true; React fills the ref when the
    element is mounted and empties it when the element goes away. *)
Definition render (w : World) : World :=
  if mounted (env w) && isCameraActive (hooks w) then
    match videoRef (refs w) with
    | Some _ => w
    | None => set_videoRef (Some {| srcObject := None |}) w
    end
  else set_videoRef None w.

(** [disabled={!isCameraActive || isChallengeActive}] *)
Definition start_disabled (w : World) : bool :=
  negb (isCameraActive (hooks w)) || isChallengeActive (hooks w).

Inductive Input :=
| TypeName (s : jsstring)
| TypeEmail (s : jsstring)
| ClickRegister
| ClickStart (rx ry : Q)
| ClickSubmit
| CameraGranted (stream : MediaStream)
| CameraFailed (error : JsError)
| Fire (id : nat) (r1 r2 : Q)
| Unmount.

(** A timer of the table runs.  An interval stays scheduled, a timeout
    leaves the table before its callback starts. *)
Definition fire (id : nat) (r1 r2 : Q) (w : World) : World :=
  match timers (env w) !! id with
  | None => w
  | Some t =>
      let w := set_now (Z.max (now (env w)) (due t)) w in
      match callback t with
      | CountdownTick =>
          let t' := {| callback := CountdownTick; due := due t + 1000 |} in
          countdownTick r1 (set_timers (<[id := t']> (timers (env w))) w)
      | MoveDot elapsed =>
          moveDot elapsed r1 r2 (clearTimer id w)
      end
  end.

(** The browser settles the [getUserMedia] promise: with a stream whose
    tracks are now capturing, or with an error. *)
Definition cameraGranted (stream : MediaStream) (w : World) : World :=
  let w := set_pendingCamera (pred (pendingCamera (env w))) w in
  let w := set_liveTracks
             (liveTracks (env w) ∪ list_to_set (tracks stream)) w in
  startCamera_resolved stream w.

Definition cameraFailed (error : JsError) (w : World) : World :=
  startCamera_rejected error
    (set_pendingCamera (pred (pendingCamera (env w))) w).

(** React unmounts the component: the effect's cleanup runs and the
    component is gone. *)
Definition unmount (w : World) : World := set_mounted false (cleanup w).

(** The [onChange] handlers of the two inputs:
    [setUser(prev => ({ ...prev, name: e.target.value }))] and the same
    for the email. *)
Definition onNameChange (s : jsstring) (w : World) : World :=
  setUser {| name := s; email := email (user (hooks w)) |} w.

Definition onEmailChange (s : jsstring) (w : World) : World :=
  setUser {| name := name (user (hooks w)); email := s |} w.

(** The handler an input reaches, if the element that carries it is
    rendered and enabled: the form while not registered, the challenge
    controls once registered, the submit button while a result is
    shown. *)
Definition handler (i : Input) (w : World) : option (World -> World) :=
  let h := hooks w in
  match i with
  | TypeName s =>
      if mounted (env w) && negb (isRegistered h)
      then Some (onNameChange s) else None
  | TypeEmail s =>
      if mounted (env w) && negb (isRegistered h)
      then Some (onEmailChange s) else None
  | ClickRegister =>
      if mounted (env w) && negb (isRegistered h)
      then Some handleRegister else None
  | ClickStart rx ry =>
      if mounted (env w) && isRegistered h && negb (start_disabled w)
      then Some (startChallenge rx ry) else None
  | ClickSubmit =>
      if mounted (env w) && isRegistered h
         && bool_decide (is_Some (challengeResult h))
      then Some submitResult else None
  | CameraGranted stream =>
      match pendingCamera (env w) with
      | S _ => Some (cameraGranted stream)
      | O => None
      end
  | CameraFailed error =>
      match pendingCamera (env w) with
      | S _ => Some (cameraFailed error)
      | O => None
      end
  | Fire id r1 r2 =>
      match timers (env w) !! id with
      | Some _ => Some (fire id r1 r2)
      | None => None
      end
  | Unmount =>
      if mounted (env w) then Some unmount else None
  end.

Definition step (i : Input) (w : World) : World :=
  match handler i w with
  | Some f => render (f w)
  | None => w
  end.

Definition run (l : list Input) (w : World) : World :=
  foldl (fun w i => step i w) w l.

(** One challenge: the inputs are fed for as long as the challenge is
    active. *)
Fixpoint play (l : list Input) (w : World) : World :=
  match l with
  | [] => w
  | i :: l' =>
      if isChallengeActive (hooks w) then play l' (step i w) else w
  end.

(** ** An ideal clock

    With exact timers the next callback to run is the one that is due
    first, the older timer first among those due together. *)

Definition earlier (a b : nat * Timer) : bool :=
  (due a.2 <? due b.2) || ((due a.2 =? due b.2) && (a.1 <=? b.1)%nat).

Definition nextTimer (m : gmap nat Timer) : option nat :=
  fst <$> foldr (fun a acc =>
                   match acc with
                   | None => Some a
                   | Some b => if earlier a b then Some a else Some b
                   end) None (map_to_list m).

(** Let the clock run until a timer is due. *)
Definition advance (r1 r2 : Q) (w : World) : World :=
  match nextTimer (timers (env w)) with
  | Some id => step (Fire id r1 r2) w
  | None => w
  end.

(** [n] timers in a row; [draw k] is the [k]-th pair of random
    numbers. *)
Fixpoint advance_n (n : nat) (draw : nat -> Q * Q) (w : World) : World :=
  match n with
  | O => w
  | S n' => advance_n n' (fun k => draw (S k))
              (advance (draw O).1 (draw O).2 w)
  end.

(** ** Vocabulary of the properties *)

(** A registration as the data model wants it: the trimmed name is not
    empty and the email contains an at sign. *)
Definition valid_registration (u : User) : Prop :=
  trim (name u) <> [] /\ includes (email u) at_sign = true.

(** [handleRegister] took the registration: the flag is set and the
    camera was requested; nothing else moved. *)
Definition accepted (w w' : World) : Prop :=
  hooks w' = hooks (setIsRegistered true w) /\
  refs w' = refs w /\
  env w' = env (set_pendingCamera (S (pendingCamera (env w)))
                  (emit (GetUserMedia 1280 720) w)).

(** [handleRegister] refused it: one alert, and no state change. *)
Definition rejected (w w' : World) : Prop :=
  hooks w' = hooks w /\
  refs w' = refs w /\
  env w' = env (emit (Alert msg_invalid) w).

(** The states of the orchestrator, read off the hook cells. *)
Definition device_idle (w : World) : Prop :=
  mounted (env w) = true /\
  isRegistered (hooks w) = true /\
  isCameraActive (hooks w) = true /\
  isChallengeActive (hooks w) = false.

Definition challenge_running (w : World) : Prop :=
  mounted (env w) = true /\
  isRegistered (hooks w) = true /\
  isCameraActive (hooks w) = true /\
  isChallengeActive (hooks w) = true.

Definition result_ready (w : World) (res : ChallengeResult) : Prop :=
  isCameraActive (hooks w) = true /\
  isChallengeActive (hooks w) = false /\
  challengeResult (hooks w) = Some res.

(** The live timers that run the countdown callback. *)
Definition countdown_timers (w : World) : gmap nat Timer :=
  filter (fun kt => callback kt.2 = CountdownTick) (timers (env w)).

(** What happened between [w0] and a later world [w]. *)
Definition since (w0 w : World) : list (Z * Obs) :=
  drop (length (trace (env w0))) (trace (env w)).

Definition ticks (l : list (Z * Obs)) : list Z :=
  omap (fun e => match e.2 with Tick n => Some n | _ => None end) l.

Definition completions (l : list (Z * Obs)) : list Z :=
  omap (fun e => match e.2 with Complete => Some e.1 | _ => None end) l.

Definition moves (l : list (Z * Obs)) : list (Z * Position) :=
  omap (fun e => match e.2 with Move p => Some (e.1, p) | _ => None end) l.

(** The countdown's own events, in order. *)
Definition countdown_obs (l : list (Z * Obs)) : list Obs :=
  omap (fun e => match e.2 with
                 | Tick n => Some (Tick n)
                 | Complete => Some Complete
                 | _ => None
                 end) l.

(** [n] values counting down from [from]. *)
Fixpoint descending (n : nat) (from : Z) : list Z :=
  match n with
  | O => []
  | S n' => from :: descending n' (from - 1)
  end.

(** A draw of [Math.random()]. *)
Definition unit_draw (r : Q) : Prop := (0 <= r /\ r < 1)%Q.

(** The coordinates are percentages ([left: x%], [top: y%]). *)
Definition viewport_fraction (percent : Q) : Q := (percent / 100)%Q.

(** A position between 0.10 and 0.90 of the viewport in both
    directions. *)
Definition in_viewport_band (p : Position) : Prop :=
  (1 # 10 <= viewport_fraction (pos_x p) /\
   viewport_fraction (pos_x p) <= 9 # 10 /\
   1 # 10 <= viewport_fraction (pos_y p) /\
   viewport_fraction (pos_y p) <= 9 # 10)%Q.

(** The binary64 number the literal [0.3] denotes, and a draw on the
    2^-53 grid of the usual [Math.random()] generators. *)
Definition binary64_0_3 : Q := 5404319552844595 # 18014398509481984.
Definition grid_draw (k : Z) : Q := k # 9007199254740992.

Definition is_fire (i : Input) : Prop :=
  match i with Fire _ _ _ => True | _ => False end.

(** Nothing in the list tears the component down. *)
Definition uncancelled (l : list Input) : Prop :=
  Forall (fun i => i <> Unmount) l.

(** The random numbers an input carries are draws of [Math.random()]. *)
Definition draws_ok (i : Input) : Prop :=
  match i with
  | ClickStart rx ry => unit_draw rx /\ unit_draw ry
  | Fire _ r1 r2 => unit_draw r1 /\ unit_draw r2
  | _ => True
  end.

(** Every live timer is the one a timer ref points to, and carries the
    callback that ref stands for; ids come from the counter. *)
Definition tracked (w : World) : Prop :=
  forall j t, timers (env w) !! j = Some t ->
    (j < nextTimerId (env w))%nat /\ j <> O /\
    ((challengeTimerRef (refs w) = Some j /\ callback t = CountdownTick) \/
     (dotTimerRef (refs w) = Some j /\ exists e, callback t = MoveDot e)).

(** The invariant of the component. *)
Record Inv (w : World) : Prop := {
  inv_next : (0 < nextTimerId (env w))%nat;
  inv_tracked : tracked w;
  inv_quiet :
    isChallengeActive (hooks w) = false \/ mounted (env w) = false ->
    timers (env w) = ∅;
  inv_running :
    isChallengeActive (hooks w) = true -> mounted (env w) = true ->
    challengeResult (hooks w) = None /\
    exists i t, challengeTimerRef (refs w) = Some i /\
                timers (env w) !! i = Some t /\
                callback t = CountdownTick
}.

(** The trace only grows. *)
Definition trace_extends (w w' : World) : Prop :=
  exists l, trace (env w') = trace (env w) ++ l.

(** Times at least one move interval apart. *)
Fixpoint spaced (l : list Z) : Prop :=
  match l with
  | a :: (b :: _) as r => a + move_interval <= b /\ spaced r
  | _ => True
  end.

(** The dot chain of the challenge started in [w0]: a pending [moveDot]
    carries in [elapsed] the number of moves made so far, and is due
    one move interval after the last of them. *)
Definition chain_ok (w0 w : World) : Prop :=
  forall j t e, timers (env w) !! j = Some t -> callback t = MoveDot e ->
    e = move_interval * Z.of_nat (length (moves (since w0 w))) /\
    e < total_duration /\
    exists T p, last (moves (since w0 w)) = Some (T, p) /\
                due t = T + move_interval.

(** The countdown of the challenge started in [w0], as seen in [w]:
    still running with the clock at some [k], the ticks above [k]
    delivered; or over, with all its events delivered. *)
Definition countdown_phase (w0 w : World) : Prop :=
  (isChallengeActive (hooks w) = true /\
   1 <= timeLeft (hooks w) <= 6 /\
   countdown_obs (since w0 w) =
     map Tick (descending (Z.to_nat (6 - timeLeft (hooks w))) 5))
  \/
  (isChallengeActive (hooks w) = false /\
   countdown_obs (since w0 w) =
     [Tick 5; Tick 4; Tick 3; Tick 2; Tick 1; Complete; Tick 0]).

(** Where a challenge started in [w0] stands in [w]. *)
Record challenge_progress (w0 w : World) : Prop := {
  cp_extends : trace_extends w0 w;
  cp_inv : Inv w;
  cp_mounted : mounted (env w) = true;
  cp_countdown : countdown_phase w0 w;
  cp_first : exists p rest,
      moves (since w0 w) = (now (env w0), p) :: rest;
  cp_count : (length (moves (since w0 w)) <= 8)%nat;
  cp_spaced : spaced (map fst (moves (since w0 w)));
  cp_chain : chain_ok w0 w
}.

(** While nothing has activated the camera there is no [<video>]
    element, no stream and no challenge. *)
Definition Dark (w : World) : Prop :=
  isCameraActive (hooks w) = false /\
  isChallengeActive (hooks w) = false /\
  videoRef (refs w) = None /\
  streamRef (refs w) = None /\
  timers (env w) = ∅.

(** The countdown callback fired either a zero tick or the completion,
    not both. *)
Definition tick_xor_complete (w : World) (r : Q) : Prop :=
  let l := countdown_obs (since w (countdownTick r w)) in
  (In (Tick 0) l /\ ~ In Complete l) \/ (In Complete l /\ ~ In (Tick 0) l).

(** The component is gone: unmounted, no timer, no video element. *)
Definition torn_down (w : World) : Prop :=
  mounted (env w) = false /\
  timers (env w) = ∅ /\
  videoRef (refs w) = None.

(** Nothing in the list starts a challenge. *)
Definition no_restart (l : list Input) : Prop :=
  Forall (fun i => forall rx ry, i <> ClickStart rx ry) l.

(** The teardown as the specification wants it: once the cleanup has
    run no timer is left, and no track of a stream the browser handed
    to the component is capturing any more. *)
Definition teardown_releases (w : World) : Prop :=
  timers (env (step Unmount w)) = ∅ /\
  liveTracks (env (step Unmount w)) = ∅.

(** *** Chance

    A finite sample space, given as the list of its equally likely
    outcomes, and the probability of an event in it. *)
Definition prob {A : Type} (event : A -> bool) (space : list A) : Q :=
  (inject_Z (Z.of_nat (length (List.filter event space))) /
   inject_Z (Z.of_nat (length space)))%Q.

(** A source of draws from the unit interval that is uniform up to
    [delta]: the probability of a draw of at most [u] differs from [u]
    by at most [delta]. *)
Definition near_uniform (delta : Q) (draws : list Q) : Prop :=
  draws <> [] /\
  Forall unit_draw draws /\
  forall u, (0 <= u <= 1)%Q ->
    (Qabs (prob (fun r => Qle_bool r u) draws - u) <= delta)%Q.

(** What the two roundings of [coordinate] can add up to: 2^-46. *)
Definition rounding_error : Q := 1 # 70368744177664.

(** ** Sample worlds *)

(** The form filled in, nothing else done. *)
Definition typed (n e : string) : World :=
  setUser {| name := lit n; email := lit e |} initial.

Definition camera : MediaStream := {| tracks := [7%nat; 8%nat] |}.

(** A registered user in front of a working camera: the [<video>]
    element is mounted and shows the stream. *)
Definition idle_world : World :=
  set_liveTracks {[7%nat; 8%nat]}
    (set_streamRef (Some camera)
       (set_videoRef (Some {| srcObject := Some camera |})
          (setIsCameraActive true
             (setIsRegistered true (typed "Alice" "a@b.com"))))).

Definition half : Q := 1 # 2.

(** A challenge in its first instant. *)
Definition started_world : World := step (ClickStart half half) idle_world.

(** The same challenge just before its last tick: on the ideal clock
    all eight moves and five ticks have run. *)
Definition last_second : World :=
  advance_n 12 (fun _ => (half, half)) started_world.

(** The timers of that challenge in the order of the ideal clock: the
    interval has id 1, the pending moves the ids 2 to 8. *)
Definition ideal_schedule : list Input :=
  map (fun id => Fire id half half)
      [2; 1; 3; 1; 4; 1; 5; 1; 6; 7; 1; 8; 1]%nat.

(** The challenge played to the end on the ideal clock. *)
Definition finished_world : World :=
  advance_n 13 (fun _ => (half, half)) started_world.

(** The registered user whose camera request is granted, as in the
    specification's first scenario up to the grant. *)
Definition leak_run : list Input :=
  [TypeName (lit "Alice"); TypeEmail (lit "a@b.com"); ClickRegister;
   CameraGranted camera].

(** A challenge on the ideal clock and what one may try after its end:
    the cleared timers once more, a submit, the timers again. *)
Definition long_watch : list Input :=
  ideal_schedule ++
  [Fire 1 half half; Fire 8 half half; ClickSubmit; Fire 1 half half].

(** ** What is rendered

    The element tree [App] returns, reduced to what depends on the
    state: which blocks exist and the values and texts they show. *)

(** The challenge overlay: the dot at [left: x%], [top: y%] and the
    timer. *)
Record Overlay := { dot_left : Q; dot_top : Q; timer_text : Z }.

(** The result display: [CheckCircle] or [XCircle], the headline, the
    duration line and the status badge. *)
Record ResultCard := {
  check_icon : bool;
  headline : jsstring;
  duration_text : Z;
  badge : jsstring
}.

(** The registration panel: the form with the values of its two inputs,
    or the banner with the registered name and email. *)
Inductive Panel :=
| Form (name_value email_value : jsstring)
| Banner (name_text email_text : jsstring).

(** The challenge controls: the Start button, the Submit button and the
    two status indicators. *)
Record Controls := {
  start_is_disabled : bool;
  submit_shown : bool;
  camera_status : jsstring;
  challenge_status : jsstring
}.

Record View := {
  video_shown : bool;
  overlay : option Overlay;
  result_card : option ResultCard;
  panel : Panel;
  controls : option Controls
}.

Definition view (w : World) : View :=
  let h := hooks w in
  {| video_shown := isCameraActive h;
     overlay :=
       if isChallengeActive h
       then Some {| dot_left := pos_x (dotPosition h);
                    dot_top := pos_y (dotPosition h);
                    timer_text := timeLeft h |}
       else None;
     result_card :=
       match challengeResult h with
       | Some res =>
           let pass := match status res with PASS => true | FAIL => false end in
           Some {| check_icon := pass;
                   headline := if pass then lit "Authentication Successful"
                               else lit "Authentication Failed";
                   duration_text := duration res;
                   badge := status_string (status res) |}
       | None => None
       end;
     panel :=
       if negb (isRegistered h)
       then Form (name (user h)) (email (user h))
       else Banner (name (user h)) (email (user h));
     controls :=
       if isRegistered h
       then Some {| start_is_disabled := start_disabled w;
                    submit_shown :=
                      match challengeResult h with
                      | Some _ => true
                      | None => false
                      end;
                    camera_status :=
                      if isCameraActive h then lit "Active"
                      else lit "Inactive";
                    challenge_status :=
                      if isChallengeActive h then lit "In Progress"
                      else match challengeResult h with
                           | Some res => status_string (status res)
                           | None => lit "Ready"
                           end |}
       else None |}.

(** ** Vocabulary of the further properties *)

(** The alert of the [catch] branch of [startCamera]. *)
Definition camera_error_message (error : JsError) : jsstring :=
  match error with
  | DOMException n =>
      if bool_decide (n = lit "NotAllowedError")
      then msg_denied else msg_required
  | OtherError => msg_required
  end.

(** What one input adds to the trace. *)
Definition emitted (i : Input) (w : World) : list (Z * Obs) :=
  let t0 := now (env w) in
  match handler i w with
  | None => []
  | Some _ =>
      match i with
      | TypeName _ | TypeEmail _ | CameraGranted _ => []
      | ClickRegister =>
          let u := user (hooks w) in
          if truthy (trim (name u)) && truthy (trim (email u))
             && includes (email u) at_sign
          then [(t0, GetUserMedia 1280 720)]
          else [(t0, Alert msg_invalid)]
      | ClickStart rx ry =>
          [(t0, Move {| pos_x := coordinate rx; pos_y := coordinate ry |}%Q)]
      | ClickSubmit =>
          match challengeResult (hooks w) with
          | Some res =>
              [(t0, Alert (msg_submitted (status res) (user (hooks w))))]
          | None => []
          end
      | CameraFailed e =>
          [(t0, ConsoleError e); (t0, Alert (camera_error_message e))]
      | Fire id r1 r2 =>
          match timers (env w) !! id with
          | None => []
          | Some t =>
              let T := Z.max t0 (due t) in
              match callback t with
              | CountdownTick =>
                  if timeLeft (hooks w) <=? 1
                  then [(T, Complete); (T, Tick 0)]
                  else [(T, Tick (timeLeft (hooks w) - 1))]
              | MoveDot _ =>
                  [(T, Move {| pos_x := coordinate r1;
                               pos_y := coordinate r2 |}%Q)]
              end
          end
      | Unmount =>
          match streamRef (refs w) with
          | Some s => map (fun t => (t0, TrackStop t)) (tracks s)
          | None => []
          end
      end
  end.

(** The camera requests and the stopped tracks in a trace. *)
Definition camera_requests (l : list (Z * Obs)) : list (Z * Z) :=
  omap (fun e => match e.2 with
                 | GetUserMedia a b => Some (a, b)
                 | _ => None
                 end) l.

Definition track_stops (l : list (Z * Obs)) : list nat :=
  omap (fun e => match e.2 with TrackStop t => Some t | _ => None end) l.

(** Nothing has happened yet and nothing can: no camera, no challenge,
    no result, and no event of a challenge in the trace. *)
Definition dormant (w : World) : Prop :=
  Dark w /\
  challengeResult (hooks w) = None /\
  countdown_obs (trace (env w)) = [] /\
  moves (trace (env w)) = [].

(** The registration flag, the camera requests made and the requests
    still open belong together. *)
Definition requests_match (w : World) : Prop :=
  camera_requests (trace (env w)) =
    (if isRegistered (hooks w) then [(1280, 720)] else []) /\
  (pendingCamera (env w) <= length (camera_requests (trace (env w))))%nat.

(** An event of a countdown started at [t0] that does not come early:
    the tick to [n] no earlier than [6 - n] seconds after the start,
    the completion no earlier than six seconds after it. *)
Definition on_time (t0 : Z) (e : Z * Obs) : Prop :=
  match e.2 with
  | Tick n => t0 + 1000 * (6 - n) <= e.1
  | Complete => t0 + 6000 <= e.1
  | _ => True
  end.

(** The clock of the challenge started in [w0], as seen in [w]: no
    event of the countdown has come early; while the challenge runs
    the interval is due at the second its next tick stands for and
    nothing has completed; once it is over a verdict is stored, stamped
    with the time of the one completion. *)
Record verdict_progress (w0 w : World) : Prop := {
  vp_registered : isRegistered (hooks w) = true;
  vp_camera : isCameraActive (hooks w) = true;
  vp_paced : Forall (on_time (now (env w0))) (since w0 w);
  vp_clock :
    isChallengeActive (hooks w) = true ->
    completions (since w0 w) = [] /\
    forall i t, timers (env w) !! i = Some t -> callback t = CountdownTick ->
      due t = now (env w0) + 1000 * (7 - timeLeft (hooks w));
  vp_verdict :
    isChallengeActive (hooks w) = false ->
    exists res, challengeResult (hooks w) = Some res /\
                duration res = 6 /\
                completions (since w0 w) = [timestamp res]
}.

(** ** Registration *)

Section Trim.

Let visible (c : N) : bool := negb (isWhiteSpace c).

Lemma truthy_trimStart (s : jsstring) :
  truthy (trimStart s) = existsb visible s.
Proof.
  induction s as [|c r IH]; [reflexivity|].
  simpl. unfold visible at 1. destruct (isWhiteSpace c); [exact IH | reflexivity].
Qed.

Lemma existsb_trimStart (s : jsstring) :
  existsb visible (trimStart s) = existsb visible s.
Proof.
  induction s as [|c r IH]; [reflexivity|].
  simpl. unfold visible at 2. destruct (isWhiteSpace c) eqn:E; simpl.
  - exact IH.
  - unfold visible at 1. rewrite E. reflexivity.
Qed.

Lemma existsb_visible_rev (s : jsstring) :
  existsb visible (rev s) = existsb visible s.
Proof.
  induction s as [|c r IH]; [reflexivity|].
  simpl. rewrite existsb_app, IH. simpl.
  rewrite orb_false_r. apply orb_comm.
Qed.

Lemma truthy_rev (s : jsstring) : truthy (rev s) = truthy s.
Proof.
  destruct s as [|c r]; [reflexivity|]. simpl.
  destruct (rev r); reflexivity.
Qed.

(** A string survives [trim] exactly when it has a character that is
    not white space. *)
Lemma truthy_trim (s : jsstring) : truthy (trim s) = existsb visible s.
Proof.
  unfold trim, trimEnd.
  rewrite truthy_rev, truthy_trimStart, existsb_visible_rev.
  apply existsb_trimStart.
Qed.

Lemma includes_at_sign_visible (s : jsstring) :
  includes s at_sign = true -> existsb visible s = true.
Proof.
  induction s as [|c r IH]; [discriminate|].
  cbn [includes existsb]. intros H.
  apply orb_true_iff in H. destruct H as [H|H].
  - apply andb_true_iff in H. destruct H as [H _].
    apply N.eqb_eq in H. subst c. reflexivity.
  - rewrite (IH H). apply orb_true_r.
Qed.

End Trim.

Lemma truthy_nonempty (s : jsstring) : truthy s = true <-> s <> [].
Proof. destruct s; simpl; split; congruence. Qed.

(** The test of [handleRegister] is the validity of the registration:
    an email with an at sign is not blank. *)
Lemma register_test_valid (u : User) :
  truthy (trim (name u)) && truthy (trim (email u))
    && includes (email u) at_sign = true
  <-> valid_registration u.
Proof.
  unfold valid_registration. rewrite !andb_true_iff, truthy_nonempty.
  split.
  - intros [[Hn _] He]. auto.
  - intros [Hn He]. repeat split; auto.
    rewrite truthy_trim. now apply includes_at_sign_visible.
Qed.

Lemma accepted_not_rejected (w w' : World) : accepted w w' -> rejected w w' -> False.
Proof.
  intros (_ & _ & Ha) (_ & _ & Hr). rewrite Ha in Hr.
  apply (f_equal trace) in Hr. simpl in Hr.
  apply app_inv_head in Hr. discriminate.
Qed.

(** C4.  [handleRegister] accepts the pair typed into the form exactly
    when the trimmed name is not empty and the email contains an at
    sign; every other pair is refused with the validation alert, and
    neither the hook state nor the refs nor the browser change. *)
Theorem handleRegister_validates (w : World) :
  (valid_registration (user (hooks w)) <-> accepted w (handleRegister w)) /\
  (~ valid_registration (user (hooks w)) <-> rejected w (handleRegister w)).
Proof.
  assert (Hcase : (valid_registration (user (hooks w)) /\ accepted w (handleRegister w))
                  \/ (~ valid_registration (user (hooks w)) /\ rejected w (handleRegister w))).
  { unfold handleRegister.
    destruct (truthy (trim (name (user (hooks w)))) && truthy (trim (email (user (hooks w))))
              && includes (email (user (hooks w))) at_sign) eqn:E.
    - left. split; [now apply register_test_valid|]. repeat split.
    - right. split; [|repeat split].
      intros Hv. apply register_test_valid in Hv. congruence. }
  destruct Hcase as [[Hv Ha]|[Hv Hr]]; split; split; try tauto.
  - intros Hr. destruct (accepted_not_rejected _ _ Ha Hr).
  - intros Ha. destruct (accepted_not_rejected _ _ Ha Hr).
Qed.

Lemma handleRegister_validates_witness :
  accepted (typed "Alice" "a@b.com") (handleRegister (typed "Alice" "a@b.com")) /\
  rejected (typed "" "") (handleRegister (typed "" "")) /\
  rejected (typed "   " "a@b.com") (handleRegister (typed "   " "a@b.com")) /\
  rejected (typed "Bob" "bob.example.com") (handleRegister (typed "Bob" "bob.example.com")).
Proof.
  split; [|split; [|split]].
  - apply (proj1 (handleRegister_validates (typed "Alice" "a@b.com"))).
    split; [discriminate | reflexivity].
  - apply (proj2 (handleRegister_validates (typed "" ""))).
    intros [H _]. apply H. reflexivity.
  - apply (proj2 (handleRegister_validates (typed "   " "a@b.com"))).
    intros [H _]. apply H. reflexivity.
  - apply (proj2 (handleRegister_validates (typed "Bob" "bob.example.com"))).
    intros [_ H]. discriminate H.
Defined.

(** ** Traces *)

Lemma since_refl (w : World) : since w w = [].
Proof. unfold since. apply drop_all. Qed.

Lemma since_app (w0 w : World) (l : list (Z * Obs)) :
  trace (env w) = trace (env w0) ++ l -> since w0 w = l.
Proof. unfold since. intros ->. apply drop_app_length. Qed.

Lemma since_same_trace (w w' : World) :
  trace (env w') = trace (env w) -> since w w' = [].
Proof. intros H. apply since_app. now rewrite app_nil_r. Qed.

(** ** Camera acquisition *)

(** C10.  When the camera promise is fulfilled, the stream is bound to
    the video element, stored in [streamRef] and the camera flag set
    only if the video element is mounted at that moment.  Without the
    element neither the hook state nor the refs change, nothing is
    stopped, and the tracks of the new stream stay live. *)
Theorem startCamera_needs_video_element (stream : MediaStream) (w : World) :
  let w' := cameraGranted stream w in
  (videoRef (refs w) = None ->
     hooks w' = hooks w /\ refs w' = refs w /\
     trace (env w') = trace (env w) /\
     forall t, t ∈ tracks stream -> t ∈ liveTracks (env w')) /\
  (is_Some (videoRef (refs w)) ->
     isCameraActive (hooks w') = true /\
     streamRef (refs w') = Some stream /\
     videoRef (refs w') = Some {| srcObject := Some stream |}) /\
  (isCameraActive (hooks w') = true ->
     isCameraActive (hooks w) = true \/ is_Some (videoRef (refs w))) /\
  (streamRef (refs w') <> streamRef (refs w) ->
     is_Some (videoRef (refs w))).
Proof.
  unfold cameraGranted, startCamera_resolved. cbn.
  destruct (videoRef (refs w)) as [v|] eqn:Hv; cbn.
  - split; [|split; [|split]].
    + intros H. discriminate H.
    + intros _. repeat split.
    + intros _. right. eauto.
    + intros _. eauto.
  - split; [|split; [|split]].
    + intros _. repeat split. intros t Ht.
      apply elem_of_union_r. now apply elem_of_list_to_set.
    + intros [? H]. discriminate H.
    + auto.
    + intros H. now destruct H.
Qed.

Lemma startCamera_needs_video_element_witness :
  hooks (cameraGranted camera (handleRegister (typed "Alice" "a@b.com")))
    = hooks (handleRegister (typed "Alice" "a@b.com")) /\
  isCameraActive (hooks (cameraGranted camera idle_world)) = true.
Proof.
  split.
  - apply (startCamera_needs_video_element camera
             (handleRegister (typed "Alice" "a@b.com"))).
    reflexivity.
  - apply (startCamera_needs_video_element camera idle_world).
    eexists. reflexivity.
Defined.

(** ** Result submission *)

Lemma msg_submitted_status (s s' : Status) (u u' : User) :
  msg_submitted s u = msg_submitted s' u' -> s = s'.
Proof.
  unfold msg_submitted. intros H. apply app_inv_head in H.
  destruct s, s'; try reflexivity; discriminate H.
Qed.

(** C8.  With a result stored, [submitResult] publishes it in one alert
    (its status, with the user's name and email), clears it and resets
    the clock; after that, and whenever no result is stored, a further
    call or click changes nothing and publishes nothing.  A challenge
    that starts drops whatever result was still stored. *)
Theorem submitResult_lifecycle (w : World) :
  (forall res, challengeResult (hooks w) = Some res ->
     let w' := submitResult w in
     since w w' = [(now (env w),
                    Alert (msg_submitted (status res) (user (hooks w))))] /\
     challengeResult (hooks w') = None /\
     timeLeft (hooks w') = 0 /\
     isCameraActive (hooks w') = isCameraActive (hooks w) /\
     isChallengeActive (hooks w') = isChallengeActive (hooks w) /\
     submitResult w' = w' /\
     step ClickSubmit w' = w') /\
  (challengeResult (hooks w) = None ->
     submitResult w = w /\ step ClickSubmit w = w) /\
  (forall rx ry, isCameraActive (hooks w) = true ->
     challengeResult (hooks (startChallenge rx ry w)) = None).
Proof.
  split; [|split].
  - intros res Hres. unfold submitResult. rewrite Hres. cbn.
    repeat split.
    + apply since_app. reflexivity.
    + unfold step. cbn. now rewrite !andb_false_r.
  - intros Hnone. unfold step, submitResult. cbn. rewrite Hnone. cbn.
    now rewrite !andb_false_r.
  - intros rx ry Hcam. unfold startChallenge. rewrite Hcam. cbn.
    unfold moveDotRandomly, moveDot. cbn. reflexivity.
Qed.

Lemma submitResult_lifecycle_witness :
  challengeResult (hooks (submitResult finished_world)) = None /\
  step ClickSubmit initial = initial /\
  challengeResult (hooks (startChallenge half half finished_world)) = None.
Proof.
  split; [|split].
  - apply (proj1 (submitResult_lifecycle finished_world)
             {| status := PASS; duration := 6; timestamp := 6000 |}).
    vm_compute. reflexivity.
  - apply (proj1 (proj2 (submitResult_lifecycle initial))). reflexivity.
  - apply (proj2 (proj2 (submitResult_lifecycle finished_world))).
    vm_compute. reflexivity.
Defined.

(** ** The invariant *)

Arguments endChallenge : simpl never.
Arguments moveDot : simpl never.
Arguments countdownTick : simpl never.
Arguments startChallenge : simpl never.
Arguments stopCamera : simpl never.
Arguments cleanup : simpl never.
Arguments render : simpl never.

Lemma truthyId_Some (r : option nat) (j : nat) :
  truthyId r = Some j <-> r = Some j /\ j <> O.
Proof.
  destruct r as [[|n]|]; simpl; split; try discriminate.
  - intros [H Hj]. inversion H. subst j. congruence.
  - intros H. inversion H. auto.
  - intros [H _]. exact H.
  - intros [H _]. discriminate H.
Qed.

Lemma Inv_initial : Inv initial.
Proof.
  split.
  - cbn. lia.
  - intros j t H. change (timers (env initial)) with (∅ : gmap nat Timer) in H.
    rewrite lookup_empty in H. discriminate H.
  - reflexivity.
  - discriminate.
Qed.

(** A step that leaves the timers, the timer refs and the challenge
    flag alone keeps the invariant. *)
Lemma Inv_frame (w w' : World) :
  timers (env w') = timers (env w) ->
  nextTimerId (env w') = nextTimerId (env w) ->
  mounted (env w') = mounted (env w) ->
  challengeTimerRef (refs w') = challengeTimerRef (refs w) ->
  dotTimerRef (refs w') = dotTimerRef (refs w) ->
  isChallengeActive (hooks w') = isChallengeActive (hooks w) ->
  (challengeResult (hooks w') = challengeResult (hooks w)
   \/ challengeResult (hooks w') = None) ->
  Inv w -> Inv w'.
Proof.
  intros Ht Hn Hm Hc Hd Ha Hr [I1 I2 I3 I4].
  split; unfold tracked in *; rewrite ?Ht, ?Hn, ?Hm, ?Hc, ?Hd, ?Ha; auto.
  intros H1 H2. destruct (I4 H1 H2) as [Hres Hex]. split; [|exact Hex].
  destruct Hr as [Hr|Hr]; congruence.
Qed.

Lemma Inv_render (w : World) : Inv w -> Inv (render w).
Proof.
  apply Inv_frame; unfold render;
    destruct (mounted (env w) && isCameraActive (hooks w));
    try destruct (videoRef (refs w)); auto.
Qed.

Lemma foldl_stopTrack_frame (l : list nat) (w : World) :
  hooks (foldl stopTrack w l) = hooks w /\
  refs (foldl stopTrack w l) = refs w /\
  timers (env (foldl stopTrack w l)) = timers (env w) /\
  nextTimerId (env (foldl stopTrack w l)) = nextTimerId (env w) /\
  mounted (env (foldl stopTrack w l)) = mounted (env w) /\
  now (env (foldl stopTrack w l)) = now (env w) /\
  liveTracks (env (foldl stopTrack w l)) = liveTracks (env w) ∖ list_to_set l.
Proof.
  revert w. induction l as [|a l IH]; intros w; cbn [foldl].
  - repeat split. cbn. symmetry. apply difference_empty_L.
  - destruct (IH (stopTrack w a)) as (H1 & H2 & H3 & H4 & H5 & H6 & H7).
    rewrite H1, H2, H3, H4, H5, H6, H7. repeat split. cbn.
    apply difference_difference_l_L.
Qed.

(** [stopCamera] touches neither the timers nor the timer refs. *)
Lemma stopCamera_frame (w : World) :
  timers (env (stopCamera w)) = timers (env w) /\
  nextTimerId (env (stopCamera w)) = nextTimerId (env w) /\
  mounted (env (stopCamera w)) = mounted (env w) /\
  challengeTimerRef (refs (stopCamera w)) = challengeTimerRef (refs w) /\
  dotTimerRef (refs (stopCamera w)) = dotTimerRef (refs w) /\
  isChallengeActive (hooks (stopCamera w)) = isChallengeActive (hooks w) /\
  challengeResult (hooks (stopCamera w)) = challengeResult (hooks w).
Proof.
  unfold stopCamera. destruct (streamRef (refs w)) as [s|]; [|repeat split].
  destruct (foldl_stopTrack_frame (tracks s) w) as (H1 & H2 & H3 & H4 & H5 & _).
  cbn. rewrite H1, H2, H3, H4, H5. repeat split.
Qed.

(** Once both timer refs have been cleared no tracked timer is left. *)
Lemma tracked_cleared (w : World) (m : gmap nat Timer) :
  tracked w ->
  (forall j t, m !! j = Some t ->
     timers (env w) !! j = Some t /\
     truthyId (challengeTimerRef (refs w)) <> Some j /\
     truthyId (dotTimerRef (refs w)) <> Some j) ->
  m = ∅.
Proof.
  intros Ht Hm. apply map_empty. intros j.
  destruct (m !! j) as [t|] eqn:E; [|reflexivity].
  destruct (Hm j t E) as (Hj & Hc & Hd).
  destruct (Ht j t Hj) as (_ & Hne & [[Hr _]|[Hr _]]).
  - destruct Hc. apply truthyId_Some. auto.
  - destruct Hd. apply truthyId_Some. auto.
Qed.

Lemma Inv_cleanup (w : World) : Inv w -> timers (env (cleanup w)) = ∅.
Proof.
  intros [I1 I2 I3 I4]. unfold cleanup.
  destruct (stopCamera_frame w) as (H1 & H2 & H3 & H4 & H5 & H6 & H7).
  set (w1 := stopCamera w) in *.
  assert (Ht : tracked w1).
  { unfold tracked. rewrite H1, H2, H4, H5. exact I2. }
  apply (tracked_cleared w1); [exact Ht|].
  intros j t.
  destruct (truthyId (challengeTimerRef (refs w1))) as [c|] eqn:Ec;
    destruct (truthyId (dotTimerRef (refs w1))) as [d|] eqn:Ed; cbn;
    rewrite ?Ec, ?Ed; cbn; rewrite ?Ec, ?Ed; cbn;
    rewrite ?lookup_delete_Some; intros H; repeat split;
    try tauto; try congruence; intuition congruence.
Qed.

Lemma Inv_unmount (w : World) : Inv w -> Inv (unmount w).
Proof.
  intros HI. pose proof (Inv_cleanup w HI) as He.
  destruct HI as [I1 I2 I3 I4].
  destruct (stopCamera_frame w) as (H1 & H2 & H3 & H4 & H5 & H6 & H7).
  assert (Hn : nextTimerId (env (cleanup w)) = nextTimerId (env w)).
  { unfold cleanup.
    destruct (truthyId (challengeTimerRef (refs (stopCamera w))));
      cbn; destruct (truthyId (dotTimerRef (refs (stopCamera w))));
      cbn; exact H2. }
  split.
  - unfold unmount. cbn. rewrite Hn. exact I1.
  - unfold tracked, unmount. cbn. rewrite He. intros j t H.
    rewrite lookup_empty in H. discriminate H.
  - intros _. unfold unmount. cbn. exact He.
  - unfold unmount. cbn. discriminate.
Qed.

Lemma Inv_handleRegister (w : World) : Inv w -> Inv (handleRegister w).
Proof.
  apply Inv_frame; unfold handleRegister;
    destruct (truthy (trim (name (user (hooks w)))) &&
              truthy (trim (email (user (hooks w)))) &&
              includes (email (user (hooks w))) at_sign); auto.
Qed.

Lemma Inv_submitResult (w : World) : Inv w -> Inv (submitResult w).
Proof.
  apply Inv_frame; unfold submitResult;
    destruct (challengeResult (hooks w)) eqn:E; cbn; auto.
Qed.

Lemma Inv_cameraGranted (s : MediaStream) (w : World) :
  Inv w -> Inv (cameraGranted s w).
Proof.
  apply Inv_frame; unfold cameraGranted, startCamera_resolved; cbn;
    destruct (videoRef (refs w)); auto.
Qed.

Lemma Inv_cameraFailed (e : JsError) (w : World) :
  Inv w -> Inv (cameraFailed e w).
Proof.
  apply Inv_frame; unfold cameraFailed, startCamera_rejected;
    destruct e as [n|]; try case_bool_decide; cbn; auto.
Qed.

(** [render] only attaches or detaches the video element. *)
Lemma render_fields (w : World) :
  hooks (render w) = hooks w /\
  env (render w) = env w /\
  streamRef (refs (render w)) = streamRef (refs w) /\
  challengeTimerRef (refs (render w)) = challengeTimerRef (refs w) /\
  dotTimerRef (refs (render w)) = dotTimerRef (refs w).
Proof.
  unfold render.
  destruct (mounted (env w) && isCameraActive (hooks w));
    try destruct (videoRef (refs w)); repeat split.
Qed.

(** What [startChallenge] does once past its guard: the interval gets
    the next timer id and the first pending move the one after. *)
Lemma startChallenge_fields (rx ry : Q) (w : World) :
  isCameraActive (hooks w) = true ->
  let n := nextTimerId (env w) in
  let w' := startChallenge rx ry w in
  timers (env w') =
    <[S n := {| callback := MoveDot move_interval;
                due := now (env w) + move_interval |}]>
      (<[n := {| callback := CountdownTick; due := now (env w) + 1000 |}]>
         (timers (env w))) /\
  nextTimerId (env w') = S (S n) /\
  challengeTimerRef (refs w') = Some n /\
  dotTimerRef (refs w') = Some (S n) /\
  isChallengeActive (hooks w') = true /\
  challengeResult (hooks w') = None /\
  timeLeft (hooks w') = 6 /\
  mounted (env w') = mounted (env w) /\
  now (env w') = now (env w) /\
  isCameraActive (hooks w') = true /\
  isRegistered (hooks w') = isRegistered (hooks w) /\
  trace (env w') = trace (env w) ++
    [(now (env w), Move {| pos_x := coordinate rx; pos_y := coordinate ry |})].
Proof.
  intros Hcam. unfold startChallenge. rewrite Hcam. cbn.
  unfold moveDotRandomly, moveDot. cbn. repeat split. exact Hcam.
Qed.

Lemma Inv_startChallenge (rx ry : Q) (w : World) :
  mounted (env w) = true ->
  isCameraActive (hooks w) = true ->
  isChallengeActive (hooks w) = false ->
  Inv w -> Inv (startChallenge rx ry w).
Proof.
  intros Hmt Hcam Hact [I1 I2 I3 I4].
  destruct (startChallenge_fields rx ry w Hcam)
    as (Ht & Hn & Hc & Hd & Ha & Hr & _ & Hm & _).
  rewrite (I3 (or_introl Hact)) in Ht.
  split.
  - rewrite Hn. lia.
  - unfold tracked. rewrite Ht, Hn, Hc, Hd. intros j t H.
    apply lookup_insert_Some in H. destruct H as [[<- <-]|[Hne H]].
    + split; [lia|]. split; [lia|]. right. eauto.
    + apply lookup_insert_Some in H. destruct H as [[<- <-]|[_ H]].
      * split; [lia|]. split; [lia|]. left. auto.
      * rewrite lookup_empty in H. discriminate H.
  - rewrite Ha, Hm, Hmt. intros [H|H]; discriminate H.
  - intros _ _. split; [exact Hr|].
    exists (nextTimerId (env w)),
      {| callback := CountdownTick; due := now (env w) + 1000 |}.
    rewrite Hc, Ht. split; [reflexivity|]. split; [|reflexivity].
    rewrite lookup_insert_ne by lia. apply lookup_insert_eq.
Qed.

(** [endChallenge] outside the timer table. *)
Lemma endChallenge_fields (r : Q) (w : World) :
  let w' := endChallenge r w in
  isChallengeActive (hooks w') = false /\
  challengeResult (hooks w') =
    Some {| status := if negb (Qle_bool r pass_threshold) then PASS else FAIL;
            duration := 6; timestamp := now (env w) |} /\
  isCameraActive (hooks w') = isCameraActive (hooks w) /\
  isRegistered (hooks w') = isRegistered (hooks w) /\
  timeLeft (hooks w') = timeLeft (hooks w) /\
  dotPosition (hooks w') = dotPosition (hooks w) /\
  nextTimerId (env w') = nextTimerId (env w) /\
  mounted (env w') = mounted (env w) /\
  now (env w') = now (env w) /\
  trace (env w') = trace (env w) ++ [(now (env w), Complete)].
Proof.
  unfold endChallenge. cbn.
  destruct (truthyId (challengeTimerRef (refs w))); cbn;
    destruct (truthyId (dotTimerRef (refs w))); cbn; repeat split.
Qed.

(** What the countdown callback does to the timers. *)
Lemma Inv_countdownTick (r : Q) (i : nat) (t' : Timer) (w : World) :
  Inv w ->
  is_Some (timers (env w) !! i) ->
  challengeTimerRef (refs w) = Some i ->
  callback t' = CountdownTick ->
  isChallengeActive (hooks w) = true ->
  mounted (env w) = true ->
  Inv (countdownTick r (set_timers (<[i := t']> (timers (env w))) w)).
Proof.
  intros [I1 I2 I3 I4] [t Hi] Hc Ht' Hact Hmt.
  destruct (I2 i t Hi) as (Hlt & Hne & _).
  unfold countdownTick. cbn [hooks set_timers with_env].
  destruct (timeLeft (hooks w) <=? 1).
  - (* the last tick *)
    assert (He : timers (env (endChallenge r
                (set_timers (<[i := t']> (timers (env w))) w))) = ∅).
    { apply (tracked_cleared w); [exact I2|].
      intros j tj. unfold endChallenge. cbn.
      rewrite Hc. destruct i as [|i']; [congruence|]. cbn.
      destruct (truthyId (dotTimerRef (refs w))) as [d|] eqn:Ed; cbn;
        rewrite ?lookup_delete_Some, ?lookup_insert_Some;
        intuition congruence. }
    destruct (endChallenge_fields r
                (set_timers (<[i := t']> (timers (env w))) w))
      as (Ea & _ & _ & _ & _ & _ & En & _).
    split; unfold tracked; cbn.
    + rewrite En. exact I1.
    + rewrite He. intros j tj H. rewrite lookup_empty in H. discriminate H.
    + intros _. exact He.
    + rewrite Ea. discriminate.
  - (* an ordinary tick *)
    split; unfold tracked; cbn.
    + exact I1.
    + intros j tj H. apply lookup_insert_Some in H.
      destruct H as [[<- <-]|[Hne' H]]; [auto|]. exact (I2 j tj H).
    + rewrite Hact, Hmt. intros [H|H]; discriminate H.
    + intros _ _. destruct (I4 Hact Hmt) as [Hres _]. split; [exact Hres|].
      exists i, t'. rewrite lookup_insert_eq. auto.
Qed.

(** What a pending [moveDot] does to the timers when it runs. *)
Lemma Inv_moveDot (e0 e : Z) (rx ry : Q) (j : nat) (tj : Timer) (w : World) :
  Inv w ->
  timers (env w) !! j = Some tj ->
  callback tj = MoveDot e0 ->
  isChallengeActive (hooks w) = true ->
  mounted (env w) = true ->
  Inv (moveDot e rx ry (clearTimer j w)).
Proof.
  intros [I1 I2 I3 I4] Hj Hcb Hact Hmt.
  destruct (I2 j tj Hj) as (Hlt & Hne & [[_ Hx]|[Hd _]]); [congruence|].
  destruct (I4 Hact Hmt) as (Hres & i & ti & Hc & Hi & Hti).
  assert (Hij : i <> j) by (intros ->; congruence).
  destruct (I2 i ti Hi) as (Hilt & _ & _).
  unfold moveDot. cbn.
  destruct (e + move_interval <? total_duration); split; unfold tracked; cbn.
  - lia.
  - intros k tk H. apply lookup_insert_Some in H.
    destruct H as [[<- <-]|[Hk H]].
    + split; [lia|]. split; [lia|]. right. eauto.
    + apply lookup_delete_Some in H. destruct H as [Hkj H].
      destruct (I2 k tk H) as (? & ? & [[? ?]|[? ?]]).
      * split; [lia|]. split; [assumption|]. left. auto.
      * congruence.
  - rewrite Hact, Hmt. intros [H|H]; discriminate H.
  - intros _ _. split; [exact Hres|]. exists i, ti.
    split; [exact Hc|]. split; [|exact Hti].
    rewrite lookup_insert_ne by lia. rewrite lookup_delete_ne by congruence.
    exact Hi.
  - exact I1.
  - intros k tk H. apply lookup_delete_Some in H. destruct H as [Hkj H].
    destruct (I2 k tk H) as (? & ? & [[? ?]|[? ?]]).
    + split; [lia|]. split; [assumption|]. left. auto.
    + congruence.
  - rewrite Hact, Hmt. intros [H|H]; discriminate H.
  - intros _ _. split; [exact Hres|]. exists i, ti.
    split; [exact Hc|]. split; [|exact Hti].
    rewrite lookup_delete_ne by congruence. exact Hi.
Qed.

(** A live timer belongs to a running challenge of a mounted
    component. *)
Lemma Inv_live (w : World) (j : nat) :
  Inv w -> is_Some (timers (env w) !! j) ->
  isChallengeActive (hooks w) = true /\ mounted (env w) = true.
Proof.
  intros [_ _ I3 _] [t Ht].
  destruct (isChallengeActive (hooks w)) eqn:Ea;
    destruct (mounted (env w)) eqn:Em; auto;
    rewrite I3 in Ht by auto; rewrite lookup_empty in Ht; discriminate Ht.
Qed.

Lemma Inv_fire (id : nat) (r1 r2 : Q) (w : World) :
  Inv w -> Inv (fire id r1 r2 w).
Proof.
  intros HI. unfold fire.
  destruct (timers (env w) !! id) as [t|] eqn:Ht; [|exact HI].
  destruct (Inv_live w id HI) as [Hact Hmt]; [eauto|].
  assert (HI' : Inv (set_now (Z.max (now (env w)) (due t)) w))
    by (revert HI; apply Inv_frame; auto).
  destruct (callback t) as [|e] eqn:Hcb.
  - destruct (inv_tracked _ HI id t Ht) as (_ & _ & [[Hc _]|[_ [e He]]]);
      [|congruence].
    apply (Inv_countdownTick r1 id _ (set_now _ w)); cbn; eauto.
  - apply (Inv_moveDot e e r1 r2 id t (set_now _ w)); auto.
Qed.

(** The invariant holds in every world the component can get to. *)
Theorem Inv_step (i : Input) (w : World) : Inv w -> Inv (step i w).
Proof.
  intros HI. unfold step.
  destruct (handler i w) as [f|] eqn:Hh; [|exact HI].
  apply Inv_render.
  destruct i as [s|s| |rx ry| |st|err|id r1 r2| ]; cbn in Hh.
  - destruct (mounted (env w) && negb (isRegistered (hooks w)));
      inversion Hh; subst f. revert HI. apply Inv_frame; auto.
  - destruct (mounted (env w) && negb (isRegistered (hooks w)));
      inversion Hh; subst f. revert HI. apply Inv_frame; auto.
  - destruct (mounted (env w) && negb (isRegistered (hooks w)));
      inversion Hh; subst f. now apply Inv_handleRegister.
  - destruct (mounted (env w)) eqn:Em; [|discriminate Hh].
    destruct (isRegistered (hooks w)); [|discriminate Hh].
    unfold start_disabled in Hh.
    destruct (isCameraActive (hooks w)) eqn:Ec; [|discriminate Hh].
    destruct (isChallengeActive (hooks w)) eqn:Ea; [discriminate Hh|].
    inversion Hh; subst f. now apply Inv_startChallenge.
  - destruct (mounted (env w) && isRegistered (hooks w) &&
              bool_decide (is_Some (challengeResult (hooks w))));
      inversion Hh; subst f. now apply Inv_submitResult.
  - destruct (pendingCamera (env w)); inversion Hh; subst f.
    now apply Inv_cameraGranted.
  - destruct (pendingCamera (env w)); inversion Hh; subst f.
    now apply Inv_cameraFailed.
  - destruct (timers (env w) !! id); inversion Hh; subst f.
    now apply Inv_fire.
  - destruct (mounted (env w)); inversion Hh; subst f.
    now apply Inv_unmount.
Qed.

Corollary Inv_run (l : list Input) (w : World) : Inv w -> Inv (run l w).
Proof.
  revert w. induction l as [|i l IH]; intros w HI; [exact HI|].
  apply IH. now apply Inv_step.
Qed.

Corollary Inv_reachable (l : list Input) : Inv (run l initial).
Proof. apply Inv_run, Inv_initial. Qed.

(** ** Starting a challenge *)

Lemma step_disabled (i : Input) (w : World) :
  handler i w = None -> step i w = w.
Proof. unfold step. now intros ->. Qed.

Lemma fire_none (id : nat) (r1 r2 : Q) (w : World) :
  timers (env w) !! id = None -> step (Fire id r1 r2) w = w.
Proof. intros H. apply step_disabled. cbn. now rewrite H. Qed.

Lemma clickStart_disabled (rx ry : Q) (w : World) :
  ~ device_idle w -> handler (ClickStart rx ry) w = None.
Proof.
  unfold device_idle, start_disabled. cbn. unfold start_disabled.
  destruct (mounted (env w)), (isRegistered (hooks w)),
    (isCameraActive (hooks w)), (isChallengeActive (hooks w));
    cbn; tauto.
Qed.

Lemma clickStart_enabled (rx ry : Q) (w : World) :
  device_idle w ->
  step (ClickStart rx ry) w = render (startChallenge rx ry w).
Proof.
  intros (Hm & Hr & Hc & Ha). unfold step. cbn. unfold start_disabled.
  now rewrite Hm, Hr, Hc, Ha.
Qed.

Lemma device_idle_dec (w : World) : device_idle w \/ ~ device_idle w.
Proof.
  unfold device_idle.
  destruct (mounted (env w)), (isRegistered (hooks w)),
    (isCameraActive (hooks w)), (isChallengeActive (hooks w));
    intuition congruence.
Qed.

(** Under the invariant at most one countdown interval is live. *)
Lemma Inv_one_countdown (w : World) :
  Inv w -> (size (countdown_timers w) <= 1)%nat.
Proof.
  intros [_ I2 _ _]. unfold countdown_timers.
  set (m := filter _ _).
  assert (Hkey : forall j t, m !! j = Some t ->
                             challengeTimerRef (refs w) = Some j).
  { intros j t H. apply map_lookup_filter_Some in H. destruct H as [H Hcb].
    cbn in Hcb. destruct (I2 j t H) as (_ & _ & [[Hc _]|[_ [e He]]]);
      [exact Hc | congruence]. }
  destruct (map_to_list m) as [|[j t] l] eqn:El.
  - apply map_to_list_empty_iff in El. rewrite El, map_size_empty. lia.
  - assert (Hj : m !! j = Some t).
    { apply elem_of_map_to_list. rewrite El. left. }
    assert (Hm : m = {[ j := t ]}).
    { apply map_eq. intros k. destruct (decide (k = j)) as [->|Hne].
      - now rewrite lookup_singleton_eq.
      - rewrite lookup_singleton_ne by congruence.
        destruct (m !! k) as [tk|] eqn:Ek; [|reflexivity].
        apply Hkey in Ek. apply Hkey in Hj. congruence. }
    rewrite Hm, map_size_singleton. lia.
Qed.

(** C1.  A click on Start Challenge changes nothing unless the device
    is active and no challenge is running (the function itself returns
    at once while the camera is inactive, and the button is disabled
    while a challenge runs).  Two clicks in a row start one challenge:
    the second changes nothing and at most one countdown interval is
    ever live. *)
Theorem startChallenge_only_when_idle (rx ry rx' ry' : Q) (w : World) :
  (~ device_idle w -> step (ClickStart rx ry) w = w) /\
  (isCameraActive (hooks w) = false -> startChallenge rx ry w = w) /\
  (device_idle w -> challenge_running (step (ClickStart rx ry) w)) /\
  step (ClickStart rx' ry') (step (ClickStart rx ry) w)
    = step (ClickStart rx ry) w /\
  (Inv w ->
     (size (countdown_timers (step (ClickStart rx ry) w)) <= 1)%nat /\
     (size (countdown_timers
              (step (ClickStart rx' ry') (step (ClickStart rx ry) w)))
        <= 1)%nat).
Proof.
  assert (Hno : ~ device_idle w -> step (ClickStart rx ry) w = w).
  { intros H. apply step_disabled. now apply clickStart_disabled. }
  assert (Hrun : device_idle w -> challenge_running (step (ClickStart rx ry) w)).
  { intros Hidle. rewrite clickStart_enabled by exact Hidle.
    destruct Hidle as (Hm & Hr & Hc & Ha).
    destruct (render_fields (startChallenge rx ry w)) as (Eh & Ee & _).
    destruct (startChallenge_fields rx ry w Hc)
      as (_ & _ & _ & _ & Ha' & _ & _ & Hm' & _ & Hc' & Hr' & _).
    unfold challenge_running. rewrite Eh, Ee. repeat split; congruence. }
  assert (Hsecond : step (ClickStart rx' ry') (step (ClickStart rx ry) w)
                    = step (ClickStart rx ry) w).
  { apply step_disabled, clickStart_disabled.
    destruct (device_idle_dec w) as [Hidle|Hidle].
    - intros (_ & _ & _ & Ha). destruct (Hrun Hidle) as (_ & _ & _ & Ha').
      congruence.
    - now rewrite Hno. }
  split; [exact Hno|]. split; [|split; [exact Hrun|split; [exact Hsecond|]]].
  - intros Hc. unfold startChallenge. now rewrite Hc.
  - intros HI. rewrite Hsecond.
    split; apply Inv_one_countdown, Inv_step, HI.
Qed.

(** ** How the trace grows *)

Lemma trace_extends_refl (w : World) : trace_extends w w.
Proof. exists []. now rewrite app_nil_r. Qed.

Lemma trace_extends_trans (w0 w1 w2 : World) :
  trace_extends w0 w1 -> trace_extends w1 w2 -> trace_extends w0 w2.
Proof.
  intros [l1 H1] [l2 H2]. exists (l1 ++ l2). now rewrite H2, H1, app_assoc.
Qed.

Lemma since_trans (w0 w1 w2 : World) :
  trace_extends w0 w1 -> trace_extends w1 w2 ->
  since w0 w2 = since w0 w1 ++ since w1 w2.
Proof.
  intros [l1 H1] [l2 H2].
  rewrite (since_app w0 w1 l1 H1), (since_app w1 w2 l2 H2).
  apply since_app. now rewrite H2, H1, app_assoc.
Qed.

Lemma countdown_obs_app (l1 l2 : list (Z * Obs)) :
  countdown_obs (l1 ++ l2) = countdown_obs l1 ++ countdown_obs l2.
Proof. apply omap_app. Qed.

Lemma moves_app (l1 l2 : list (Z * Obs)) :
  moves (l1 ++ l2) = moves l1 ++ moves l2.
Proof. apply omap_app. Qed.

Lemma trace_render (w : World) : trace (env (render w)) = trace (env w).
Proof. now destruct (render_fields w) as (_ & -> & _). Qed.

Lemma trace_moveDot (e : Z) (rx ry : Q) (w : World) :
  trace (env (moveDot e rx ry w)) =
  trace (env w) ++
    [(now (env w), Move {| pos_x := coordinate rx; pos_y := coordinate ry |})].
Proof.
  unfold moveDot. cbn. destruct (e + move_interval <? total_duration); reflexivity.
Qed.

Lemma trace_countdownTick (r : Q) (w : World) :
  trace (env (countdownTick r w)) =
  trace (env w) ++
    (if timeLeft (hooks w) <=? 1
     then [(now (env w), Complete); (now (env w), Tick 0)]
     else [(now (env w), Tick (timeLeft (hooks w) - 1))]).
Proof.
  unfold countdownTick.
  destruct (timeLeft (hooks w) <=? 1); [|reflexivity].
  destruct (endChallenge_fields r w) as (_ & _ & _ & _ & _ & _ & _ & _ & Hn & Ht).
  cbn. rewrite Ht, Hn, <- app_assoc. reflexivity.
Qed.

(** What a timer that runs adds to the trace. *)
Lemma trace_fire (id : nat) (r1 r2 : Q) (t : Timer) (w : World) :
  timers (env w) !! id = Some t ->
  let T := Z.max (now (env w)) (due t) in
  trace (env (fire id r1 r2 w)) =
  trace (env w) ++
    match callback t with
    | CountdownTick =>
        if timeLeft (hooks w) <=? 1
        then [(T, Complete); (T, Tick 0)]
        else [(T, Tick (timeLeft (hooks w) - 1))]
    | MoveDot _ =>
        [(T, Move {| pos_x := coordinate r1; pos_y := coordinate r2 |})]
    end.
Proof.
  intros Ht. unfold fire. rewrite Ht.
  destruct (callback t).
  - rewrite trace_countdownTick. reflexivity.
  - rewrite trace_moveDot. reflexivity.
Qed.

Lemma trace_stopTracks (l : list nat) (w : World) :
  trace_extends w (foldl stopTrack w l).
Proof.
  revert w. induction l as [|a l IH]; intros w; [apply trace_extends_refl|].
  cbn [foldl]. eapply trace_extends_trans; [|apply IH].
  eexists. reflexivity.
Qed.

Lemma trace_stopCamera (w : World) : trace_extends w (stopCamera w).
Proof.
  unfold stopCamera. destruct (streamRef (refs w)) as [s|];
    [|apply trace_extends_refl].
  destruct (trace_stopTracks (tracks s) w) as [l Hl].
  exists l. exact Hl.
Qed.

Lemma trace_cleanup (w : World) : trace_extends w (cleanup w).
Proof.
  unfold cleanup.
  destruct (truthyId (challengeTimerRef (refs (stopCamera w))));
    cbn; destruct (truthyId (dotTimerRef (refs (stopCamera w))));
    cbn; apply trace_stopCamera.
Qed.

Theorem step_extends (i : Input) (w : World) : trace_extends w (step i w).
Proof.
  unfold step. destruct (handler i w) as [f|] eqn:Hh;
    [|apply trace_extends_refl].
  unfold trace_extends. rewrite trace_render.
  destruct i as [s|s| |rx ry| |st|err|id r1 r2| ]; cbn in Hh.
  - destruct (mounted (env w) && negb (isRegistered (hooks w)));
      inversion Hh; subst f. exists []. now rewrite app_nil_r.
  - destruct (mounted (env w) && negb (isRegistered (hooks w)));
      inversion Hh; subst f. exists []. now rewrite app_nil_r.
  - destruct (mounted (env w) && negb (isRegistered (hooks w)));
      inversion Hh; subst f. unfold handleRegister.
    destruct (truthy (trim (name (user (hooks w)))) &&
              truthy (trim (email (user (hooks w)))) &&
              includes (email (user (hooks w))) at_sign);
      eexists; reflexivity.
  - destruct (mounted (env w) && isRegistered (hooks w) && negb (start_disabled w));
      inversion Hh; subst f.
    destruct (isCameraActive (hooks w)) eqn:Ec.
    + destruct (startChallenge_fields rx ry w Ec)
        as (_ & _ & _ & _ & _ & _ & _ & _ & _ & _ & _ & ->).
      eexists; reflexivity.
    + unfold startChallenge. rewrite Ec. exists []. now rewrite app_nil_r.
  - destruct (mounted (env w) && isRegistered (hooks w) &&
              bool_decide (is_Some (challengeResult (hooks w))));
      inversion Hh; subst f. unfold submitResult.
    destruct (challengeResult (hooks w)); [eexists; reflexivity|].
    exists []. now rewrite app_nil_r.
  - destruct (pendingCamera (env w)); inversion Hh; subst f.
    unfold cameraGranted, startCamera_resolved. cbn.
    destruct (videoRef (refs w)); exists []; now rewrite app_nil_r.
  - destruct (pendingCamera (env w)); inversion Hh; subst f.
    unfold cameraFailed, startCamera_rejected.
    destruct err as [en|]; try case_bool_decide; cbn;
      rewrite <- app_assoc; eexists; reflexivity.
  - destruct (timers (env w) !! id) as [t|] eqn:Ht; inversion Hh; subst f.
    rewrite (trace_fire id r1 r2 t w Ht). eexists; reflexivity.
  - destruct (mounted (env w)); inversion Hh; subst f.
    apply (trace_cleanup w).
Qed.

Corollary run_extends (l : list Input) (w : World) : trace_extends w (run l w).
Proof.
  revert w. induction l as [|i l IH]; intros w; [apply trace_extends_refl|].
  eapply trace_extends_trans; [apply step_extends | apply IH].
Qed.


(** ** Teardown *)

Lemma stopCamera_absent (w : World) :
  streamRef (refs w) = None -> stopCamera w = w.
Proof. unfold stopCamera. now intros ->. Qed.

Lemma stopCamera_released (w : World) : streamRef (refs (stopCamera w)) = None.
Proof.
  unfold stopCamera. destruct (streamRef (refs w)) eqn:E; [reflexivity|exact E].
Qed.

Lemma stopCamera_idem (w : World) : stopCamera (stopCamera w) = stopCamera w.
Proof. apply stopCamera_absent, stopCamera_released. Qed.

(** Every track of the stream that was held is stopped. *)
Lemma stopCamera_tracks (w : World) (s : MediaStream) (t : nat) :
  streamRef (refs w) = Some s -> t ∈ tracks s ->
  t ∉ liveTracks (env (stopCamera w)).
Proof.
  intros Hs Ht. unfold stopCamera. rewrite Hs. cbn.
  destruct (foldl_stopTrack_frame (tracks s) w) as (_ & _ & _ & _ & _ & _ & ->).
  rewrite elem_of_difference, elem_of_list_to_set. tauto.
Qed.

(** Running the cleanup a second time changes nothing. *)
Lemma cleanup_idem (w : World) : cleanup (cleanup w) = cleanup w.
Proof.
  unfold cleanup at 1.
  assert (Hs : stopCamera (cleanup w) = cleanup w).
  { apply stopCamera_absent. unfold cleanup.
    destruct (truthyId (challengeTimerRef (refs (stopCamera w))));
      cbn; destruct (truthyId (dotTimerRef (refs (stopCamera w))));
      cbn; apply stopCamera_released. }
  rewrite Hs. unfold cleanup.
  destruct (stopCamera w) as [h [v s c d] [tm nx nw lt pc mt tr]].
  unfold clearInterval, clearTimeout, clearTimer. cbn.
  destruct (truthyId c) as [ci|] eqn:Ec, (truthyId d) as [di|] eqn:Ed;
    cbn; repeat (progress (rewrite ?Ec, ?Ed; cbn));
    unfold set_timers, with_env; cbn;
    try reflexivity; do 2 f_equal;
    apply map_eq; intros k; rewrite !lookup_delete;
    repeat case_decide; reflexivity.
Qed.

Lemma torn_down_step (i : Input) (w : World) :
  torn_down w ->
  torn_down (step i w) /\
  countdown_obs (since w (step i w)) = [] /\
  moves (since w (step i w)) = [].
Proof.
  intros (Hm & Ht & Hv). unfold step.
  destruct (handler i w) as [f|] eqn:Hh;
    [|rewrite since_refl; repeat split; assumption].
  destruct i as [s|s| |rx ry| |st|err|id r1 r2| ]; cbn in Hh;
    rewrite ?Hm, ?Ht, ?lookup_empty in Hh; try discriminate Hh.
  - (* the camera promise is fulfilled: nobody listens *)
    destruct (pendingCamera (env w)) as [|n]; inversion Hh; subst f.
    unfold cameraGranted, startCamera_resolved. cbn. rewrite Hv.
    unfold render. cbn. rewrite Hm. cbn.
    repeat split; try assumption;
      rewrite (since_app _ _ []); try reflexivity; cbn; now rewrite app_nil_r.
  - (* the promise is rejected: the alerts still show *)
    destruct (pendingCamera (env w)) as [|n]; inversion Hh; subst f.
    unfold cameraFailed, startCamera_rejected, render.
    destruct err as [en|]; try case_bool_decide; cbn; rewrite Hm; cbn;
      (repeat split; try assumption;
       erewrite since_app by (cbn; rewrite <- app_assoc; reflexivity);
       reflexivity).
Qed.

Lemma torn_down_run (l : list Input) (w : World) :
  torn_down w ->
  countdown_obs (since w (run l w)) = [] /\ moves (since w (run l w)) = [].
Proof.
  revert w. induction l as [|i l IH]; intros w Hw.
  - cbn. rewrite since_refl. split; reflexivity.
  - cbn [run foldl]. change (foldl _ (step i w) l) with (run l (step i w)).
    destruct (torn_down_step i w Hw) as (Hw' & Hc & Hmv).
    destruct (IH _ Hw') as [Hc' Hmv'].
    rewrite (since_trans w (step i w)) by (apply step_extends || apply run_extends).
    rewrite countdown_obs_app, moves_app, Hc, Hmv, Hc', Hmv'.
    split; reflexivity.
Qed.

Lemma unmount_step (w : World) :
  mounted (env w) = true ->
  step Unmount w = set_videoRef None (unmount w).
Proof.
  intros Hm. unfold step. cbn. rewrite Hm. unfold render, unmount. reflexivity.
Qed.

(** What the teardown does achieve.  Once the unmount cleanup has run,
    no timer is left, so no tick, move or completion is ever observed
    again, whatever happens next; a stream stored in [streamRef] has
    all its tracks stopped and the ref is empty.  [stopCamera] without
    a stream changes nothing, and running it, or the whole cleanup, a
    second time changes nothing more.  (No state reached from the
    initial one has a stream stored, see below.) *)
Theorem unmount_cancels_timers (w : World) (l : list Input) :
  (Inv w -> mounted (env w) = true ->
   let w' := step Unmount w in
   timers (env w') = ∅ /\
   countdown_obs (since w' (run l w')) = [] /\
   moves (since w' (run l w')) = [] /\
   streamRef (refs w') = None /\
   (forall s t, streamRef (refs w) = Some s -> t ∈ tracks s ->
                t ∉ liveTracks (env w')) /\
   step Unmount w' = w') /\
  (streamRef (refs w) = None -> stopCamera w = w) /\
  stopCamera (stopCamera w) = stopCamera w /\
  cleanup (cleanup w) = cleanup w.
Proof.
  split; [|split; [apply stopCamera_absent
                  |split; [apply stopCamera_idem | apply cleanup_idem]]].
  intros HI Hm w'. subst w'. rewrite (unmount_step w Hm).
  pose proof (Inv_cleanup w HI) as He.
  assert (Hdead : torn_down (set_videoRef None (unmount w))).
  { repeat split. exact He. }
  destruct (torn_down_run l _ Hdead) as [Hc Hmv].
  split; [exact He|]. split; [exact Hc|]. split; [exact Hmv|].
  split; [|split].
  - unfold unmount, cleanup. cbn.
    destruct (truthyId (challengeTimerRef (refs (stopCamera w))));
      cbn; destruct (truthyId (dotTimerRef (refs (stopCamera w))));
      cbn; apply stopCamera_released.
  - intros s t Hs Ht.
    pose proof (stopCamera_tracks w s t Hs Ht) as Hn.
    unfold unmount, cleanup. cbn.
    destruct (truthyId (challengeTimerRef (refs (stopCamera w))));
      cbn; destruct (truthyId (dotTimerRef (refs (stopCamera w))));
      cbn; exact Hn.
  - apply step_disabled. reflexivity.
Qed.

(** ** A challenge from start to verdict *)

Lemma descending_snoc (n : nat) (from : Z) :
  descending (S n) from = descending n from ++ [from - Z.of_nat n].
Proof.
  revert from. induction n as [|n IH]; intros from.
  - cbn. f_equal. lia.
  - change (descending (S (S n)) from) with (from :: descending (S n) (from - 1)).
    rewrite IH. cbn [descending app]. do 3 f_equal. lia.
Qed.

Lemma spaced_snoc (l : list Z) (a b : Z) :
  spaced l -> last l = Some a -> a + move_interval <= b -> spaced (l ++ [b]).
Proof.
  induction l as [|x l IH]; intros Hs Hl Hab; [discriminate Hl|].
  destruct l as [|y l].
  - cbn in Hl. inversion Hl; subst x. cbn. auto.
  - cbn [app spaced] in *. destruct Hs as [Hxy Hs]. split; [exact Hxy|].
    apply IH; auto.
Qed.

(** The fields a running countdown callback leaves behind. *)
Lemma fire_tick_fields (id : nat) (r1 r2 : Q) (t : Timer) (w : World) :
  timers (env w) !! id = Some t -> callback t = CountdownTick ->
  let w' := fire id r1 r2 w in
  mounted (env w') = mounted (env w) /\
  isCameraActive (hooks w') = isCameraActive (hooks w) /\
  if timeLeft (hooks w) <=? 1
  then isChallengeActive (hooks w') = false /\
       timeLeft (hooks w') = 0 /\
       challengeResult (hooks w') =
         Some {| status := if negb (Qle_bool r1 pass_threshold)
                           then PASS else FAIL;
                 duration := 6;
                 timestamp := Z.max (now (env w)) (due t) |}
  else isChallengeActive (hooks w') = isChallengeActive (hooks w) /\
       timeLeft (hooks w') = timeLeft (hooks w) - 1 /\
       timers (env w') =
         <[id := {| callback := CountdownTick; due := due t + 1000 |}]>
           (timers (env w)).
Proof.
  intros Ht Hcb. unfold fire. rewrite Ht, Hcb. unfold countdownTick. cbn.
  destruct (timeLeft (hooks w) <=? 1); [|repeat split].
  match goal with |- context [endChallenge r1 ?x] =>
    destruct (endChallenge_fields r1 x)
      as (Ha & Hres & Hc & _ & _ & _ & _ & Hm & _) end.
  cbn. rewrite Ha, Hres, Hc, Hm. repeat split.
Qed.

(** The fields a running [moveDot] leaves behind. *)
Lemma fire_dot_fields (id : nat) (r1 r2 : Q) (t : Timer) (e : Z) (w : World) :
  timers (env w) !! id = Some t -> callback t = MoveDot e ->
  let w' := fire id r1 r2 w in
  let T := Z.max (now (env w)) (due t) in
  mounted (env w') = mounted (env w) /\
  isCameraActive (hooks w') = isCameraActive (hooks w) /\
  isChallengeActive (hooks w') = isChallengeActive (hooks w) /\
  timeLeft (hooks w') = timeLeft (hooks w) /\
  challengeResult (hooks w') = challengeResult (hooks w) /\
  dotPosition (hooks w') =
    {| pos_x := coordinate r1; pos_y := coordinate r2 |} /\
  timers (env w') =
    if e + move_interval <? total_duration
    then <[nextTimerId (env w) :=
             {| callback := MoveDot (e + move_interval);
                due := T + move_interval |}]> (delete id (timers (env w)))
    else delete id (timers (env w)).
Proof.
  intros Ht Hcb. unfold fire. rewrite Ht, Hcb. unfold moveDot. cbn.
  destruct (e + move_interval <? total_duration); repeat split.
Qed.

(** Starting a challenge puts it at the top of the clock with one move
    made. *)
Lemma progress_start (rx ry : Q) (w : World) :
  Inv w -> device_idle w ->
  challenge_progress w (step (ClickStart rx ry) w).
Proof.
  intros HI Hidle.
  pose proof (Inv_step (ClickStart rx ry) w HI) as HI'.
  pose proof (step_extends (ClickStart rx ry) w) as Hext.
  rewrite clickStart_enabled in * by exact Hidle.
  destruct Hidle as (Hm & Hr & Hc & Ha).
  destruct (render_fields (startChallenge rx ry w)) as (Eh & Ee & _).
  destruct (startChallenge_fields rx ry w Hc)
    as (Ht & Hn & _ & _ & Ha' & _ & Htl & Hm' & _ & _ & _ & Htr).
  assert (Hs : since w (render (startChallenge rx ry w)) =
               [(now (env w),
                 Move {| pos_x := coordinate rx; pos_y := coordinate ry |})]).
  { apply since_app. rewrite Ee. exact Htr. }
  split; try assumption.
  - rewrite Ee. congruence.
  - left. rewrite Eh, Ha', Htl, Hs. repeat split; lia.
  - rewrite Hs. cbn. eauto.
  - rewrite Hs. cbn. lia.
  - rewrite Hs. cbn. exact I.
  - unfold chain_ok. rewrite Hs, Ee, Ht.
    rewrite (inv_quiet _ HI (or_introl Ha)).
    intros j t e Hj Hcb. apply lookup_insert_Some in Hj.
    destruct Hj as [[<- <-]|[_ Hj]].
    + cbn in Hcb. inversion Hcb; subst e. cbn.
      split; [reflexivity|]. split; [reflexivity|]. eauto.
    + apply lookup_insert_Some in Hj. destruct Hj as [[<- <-]|[_ Hj]].
      * discriminate Hcb.
      * rewrite lookup_empty in Hj. discriminate Hj.
Qed.

(** A timer that runs moves the challenge one event further. *)
Lemma progress_fire (id : nat) (r1 r2 : Q) (w0 w : World) :
  challenge_progress w0 w ->
  challenge_progress w0 (step (Fire id r1 r2) w).
Proof.
  intros [Hext HI Hm Hcd Hfirst Hcount Hsp Hch].
  destruct (timers (env w) !! id) as [t|] eqn:Ht;
    [|rewrite fire_none by exact Ht; split; assumption].
  pose proof (Inv_step (Fire id r1 r2) w HI) as HI'.
  pose proof (step_extends (Fire id r1 r2) w) as Hext'.
  assert (Hstep : step (Fire id r1 r2) w = render (fire id r1 r2 w)).
  { unfold step. cbn. now rewrite Ht. }
  rewrite Hstep in *.
  assert (Hext0 : trace_extends w0 (render (fire id r1 r2 w)))
    by (eapply trace_extends_trans; eassumption).
  destruct (render_fields (fire id r1 r2 w)) as (Eh & Ee & _).
  destruct (Inv_live w id HI) as [Hact _]; [eauto|].
  pose proof (trace_fire id r1 r2 t w Ht) as Htr. cbn zeta in Htr.
  set (T := Z.max (now (env w)) (due t)) in *.
  assert (Hsince : forall X, trace (env (fire id r1 r2 w)) = trace (env w) ++ X ->
                             since w0 (render (fire id r1 r2 w)) = since w0 w ++ X).
  { intros X HX. rewrite (since_trans w0 w) by assumption.
    f_equal. apply since_app. rewrite Ee. exact HX. }
  destruct (callback t) as [|e] eqn:Hcb.
  - (* the countdown callback *)
    pose proof (fire_tick_fields id r1 r2 t w Ht Hcb) as Hf. cbn zeta in Hf.
    destruct Hf as (Hm' & _ & Hf).
    destruct Hcd as [(_ & Hk & Hobs)|(Hx & _)]; [|congruence].
    destruct (timeLeft (hooks w) <=? 1) eqn:Hle.
    + (* the last one *)
      apply Z.leb_le in Hle. destruct Hf as (Ha' & _ & _).
      specialize (Hsince _ Htr).
      assert (He : timers (env (render (fire id r1 r2 w))) = ∅).
      { apply (inv_quiet _ HI'). left. now rewrite Eh. }
      split; try assumption.
      * rewrite Ee. congruence.
      * right. rewrite Eh. split; [exact Ha'|].
        rewrite Hsince, countdown_obs_app, Hobs.
        replace (timeLeft (hooks w)) with 1 by lia. reflexivity.
      * rewrite Hsince, moves_app, app_nil_r. exact Hfirst.
      * rewrite Hsince, moves_app, app_nil_r. exact Hcount.
      * rewrite Hsince, moves_app, app_nil_r. exact Hsp.
      * intros j tj ej Hj. rewrite He, lookup_empty in Hj. discriminate Hj.
    + (* an earlier one *)
      apply Z.leb_gt in Hle. destruct Hf as (Ha' & Htl' & Htm').
      specialize (Hsince _ Htr).
      split; try assumption.
      * rewrite Ee. congruence.
      * left. rewrite Eh, Ha', Htl'. split; [exact Hact|]. split; [lia|].
        rewrite Hsince, countdown_obs_app, Hobs. cbn.
        replace (Z.to_nat (6 - (timeLeft (hooks w) - 1)))
          with (S (Z.to_nat (6 - timeLeft (hooks w)))) by lia.
        rewrite descending_snoc, map_app. cbn. do 3 f_equal. lia.
      * rewrite Hsince, moves_app, app_nil_r. exact Hfirst.
      * rewrite Hsince, moves_app, app_nil_r. exact Hcount.
      * rewrite Hsince, moves_app, app_nil_r. exact Hsp.
      * unfold chain_ok. rewrite Hsince, moves_app, app_nil_r, Ee, Htm'.
        intros j tj ej Hj Hcbj. apply lookup_insert_Some in Hj.
        destruct Hj as [[<- <-]|[_ Hj]]; [discriminate Hcbj|].
        exact (Hch j tj ej Hj Hcbj).
  - (* a pending move *)
    pose proof (fire_dot_fields id r1 r2 t e w Ht Hcb) as Hf. cbn zeta in Hf.
    destruct Hf as (Hm' & _ & Ha' & Htl' & _ & _ & Htm').
    fold T in Htm'. specialize (Hsince _ Htr).
    destruct (Hch id t e Ht Hcb) as (He & Hlt & T0 & p0 & Hlast & Hdue).
    set (p := {| pos_x := coordinate r1; pos_y := coordinate r2 |}) in *.
    assert (Hms : moves (since w0 (render (fire id r1 r2 w)))
                  = moves (since w0 w) ++ [(T, p)]).
    { rewrite Hsince, moves_app. reflexivity. }
    unfold move_interval, total_duration in *.
    split; try assumption.
    + rewrite Ee. congruence.
    + unfold countdown_phase.
      rewrite Hsince, countdown_obs_app, app_nil_r.
      destruct Hcd as [(Hx & Hk & Hobs)|(Hx & Hobs)]; [left|right];
        rewrite Eh, ?Ha', ?Htl'; auto.
    + rewrite Hms. destruct Hfirst as (pf & rest & ->). cbn. eauto.
    + rewrite Hms, length_app. cbn. lia.
    + rewrite Hms, map_app. cbn.
      apply (spaced_snoc _ T0); [exact Hsp| |unfold move_interval; lia].
      change (map fst (moves (since w0 w)))
        with (fst <$> moves (since w0 w)).
      rewrite fmap_last, Hlast. reflexivity.
    + unfold chain_ok. rewrite Hms, Ee, Htm', length_app, last_snoc.
      intros j tj ej Hj Hcbj.
      assert (Hold : forall j tj ej, delete id (timers (env w)) !! j = Some tj ->
                                     callback tj = MoveDot ej -> False).
      { clear - HI Ht Hcb. intros j tj ej Hj Hcbj.
        apply lookup_delete_Some in Hj. destruct Hj as [Hne Hj].
        destruct (inv_tracked _ HI j tj Hj) as (_ & _ & [[_ ?]|[? _]]);
          [congruence|].
        destruct (inv_tracked _ HI id t Ht) as (_ & _ & [[_ ?]|[? _]]);
          congruence. }
      destruct (e + 800 <? 6000) eqn:Hnext.
      * apply Z.ltb_lt in Hnext. apply lookup_insert_Some in Hj.
        destruct Hj as [[<- <-]|[_ Hj]]; [|destruct (Hold _ _ _ Hj Hcbj)].
        cbn in Hcbj. inversion Hcbj; subst ej. cbn.
        unfold move_interval, total_duration.
        split; [lia|]. split; [lia|]. eauto.
      * destruct (Hold _ _ _ Hj Hcbj).
Qed.

(** While a challenge runs, an input that is neither a timer nor the
    unmount leaves the timers, the clock and the challenge flag alone
    and adds no countdown event and no move to the trace. *)
Lemma quiet_step (i : Input) (w : World) :
  Inv w -> mounted (env w) = true -> isChallengeActive (hooks w) = true ->
  ~ is_fire i -> i <> Unmount ->
  let w' := step i w in
  timers (env w') = timers (env w) /\
  mounted (env w') = mounted (env w) /\
  isChallengeActive (hooks w') = isChallengeActive (hooks w) /\
  timeLeft (hooks w') = timeLeft (hooks w) /\
  countdown_obs (since w w') = [] /\
  moves (since w w') = [].
Proof.
  intros HI Hm Ha Hnf Hnu w'. subst w'. unfold step.
  destruct (handler i w) as [f|] eqn:Hh;
    [|rewrite since_refl; repeat split].
  destruct (render_fields (f w)) as (Eh & Ee & _).
  assert (Hr : since w (render (f w)) = since w (f w))
    by (unfold since; now rewrite trace_render).
  rewrite Eh, Ee, Hr.
  destruct i as [s|s| |rx ry| |st|err|id r1 r2| ]; cbn in Hh;
    try (destruct Hnf; exact I); try congruence.
  - destruct (mounted (env w) && negb (isRegistered (hooks w)));
      inversion Hh; subst f.
    rewrite since_same_trace by reflexivity. repeat split.
  - destruct (mounted (env w) && negb (isRegistered (hooks w)));
      inversion Hh; subst f.
    rewrite since_same_trace by reflexivity. repeat split.
  - destruct (mounted (env w) && negb (isRegistered (hooks w)));
      inversion Hh; subst f. unfold handleRegister.
    destruct (truthy (trim (name (user (hooks w)))) &&
              truthy (trim (email (user (hooks w)))) &&
              includes (email (user (hooks w))) at_sign);
      erewrite since_app by reflexivity; repeat split.
  - unfold start_disabled in Hh. rewrite Ha, orb_true_r in Hh. cbn in Hh.
    rewrite andb_false_r in Hh. discriminate Hh.
  - destruct (inv_running _ HI Ha Hm) as [Hres _]. rewrite Hres in Hh.
    cbn in Hh. rewrite andb_false_r in Hh. discriminate Hh.
  - destruct (pendingCamera (env w)); inversion Hh; subst f.
    unfold cameraGranted, startCamera_resolved. cbn.
    destruct (videoRef (refs w));
      rewrite since_same_trace by reflexivity; repeat split.
  - destruct (pendingCamera (env w)); inversion Hh; subst f.
    unfold cameraFailed, startCamera_rejected.
    destruct err as [en|]; try case_bool_decide;
      erewrite since_app by (cbn; rewrite <- app_assoc; reflexivity);
      repeat split.
Qed.

(** Such an input does not move the challenge. *)
Lemma progress_quiet (i : Input) (w0 w : World) :
  challenge_progress w0 w -> isChallengeActive (hooks w) = true ->
  ~ is_fire i -> i <> Unmount ->
  challenge_progress w0 (step i w).
Proof.
  intros [Hext HI Hm Hcd Hfirst Hcount Hsp Hch] Ha Hnf Hnu.
  destruct (quiet_step i w HI Hm Ha Hnf Hnu)
    as (Et & Em & Eact & Etl & Eobs & Emv).
  pose proof (step_extends i w) as Hext'.
  assert (Hobs : countdown_obs (since w0 (step i w)) = countdown_obs (since w0 w)).
  { rewrite (since_trans w0 w) by assumption.
    now rewrite countdown_obs_app, Eobs, app_nil_r. }
  assert (Hmv : moves (since w0 (step i w)) = moves (since w0 w)).
  { rewrite (since_trans w0 w) by assumption.
    now rewrite moves_app, Emv, app_nil_r. }
  split.
  - eapply trace_extends_trans; eassumption.
  - now apply Inv_step.
  - congruence.
  - unfold countdown_phase. rewrite Hobs, Eact, Etl. exact Hcd.
  - rewrite Hmv. exact Hfirst.
  - rewrite Hmv. exact Hcount.
  - rewrite Hmv. exact Hsp.
  - unfold chain_ok. rewrite Hmv, Et. exact Hch.
Qed.

Lemma is_fire_dec (i : Input) : is_fire i \/ ~ is_fire i.
Proof. destruct i; cbn; tauto. Qed.

(** The challenge keeps its course under every input but the unmount. *)
Lemma progress_step (i : Input) (w0 w : World) :
  challenge_progress w0 w -> isChallengeActive (hooks w) = true ->
  i <> Unmount ->
  challenge_progress w0 (step i w).
Proof.
  intros Hp Ha Hnu. destruct (is_fire_dec i) as [Hf|Hf].
  - destruct i; try destruct Hf. now apply progress_fire.
  - now apply progress_quiet.
Qed.

Lemma progress_play (l : list Input) (w0 w : World) :
  uncancelled l ->
  challenge_progress w0 w -> challenge_progress w0 (play l w).
Proof.
  intros Hl. revert w. induction Hl as [|i l Hi Hl IH]; intros w Hw;
    [exact Hw|].
  cbn [play]. destruct (isChallengeActive (hooks w)) eqn:Ha; [|exact Hw].
  apply IH. now apply progress_step.
Qed.

(** ** The countdown *)

Lemma ticks_of_obs (l : list (Z * Obs)) :
  ticks l = omap (fun o => match o with Tick n => Some n | _ => None end)
              (countdown_obs l).
Proof.
  induction l as [|[T o] l IH]; [reflexivity|].
  unfold ticks, countdown_obs in *. destruct o; cbn; rewrite ?IH; reflexivity.
Qed.

Lemma completions_of_obs (l : list (Z * Obs)) :
  length (completions l) =
  length (omap (fun o => match o with Complete => Some tt | _ => None end)
            (countdown_obs l)).
Proof.
  induction l as [|[T o] l IH]; [reflexivity|].
  unfold completions, countdown_obs in *.
  destruct o; cbn; rewrite ?IH; reflexivity.
Qed.

(** A non-final tick leaves the refs alone. *)
Lemma fire_tick_refs (id : nat) (r1 r2 : Q) (t : Timer) (w : World) :
  timers (env w) !! id = Some t -> callback t = CountdownTick ->
  1 < timeLeft (hooks w) ->
  challengeTimerRef (refs (fire id r1 r2 w)) = challengeTimerRef (refs w).
Proof.
  intros Ht Hcb Hk. unfold fire. rewrite Ht, Hcb. unfold countdownTick. cbn.
  apply Z.leb_gt in Hk. rewrite Hk. reflexivity.
Qed.

(** Left alone, the interval brings the countdown to its end: with [k]
    seconds on the clock, [k] runs of the callback finish the
    challenge. *)
Lemma countdown_plays_out (k : nat) (n : nat) (r1 r2 : Q) (w : World) :
  Inv w -> mounted (env w) = true ->
  isChallengeActive (hooks w) = true ->
  challengeTimerRef (refs w) = Some n ->
  timeLeft (hooks w) = Z.of_nat (S k) ->
  isChallengeActive (hooks (play (replicate (S k) (Fire n r1 r2)) w)) = false.
Proof.
  revert w. induction k as [|k IH]; intros w HI Hm Ha Hc Hk;
    destruct (inv_running _ HI Ha Hm) as (_ & i & t & Hi & Ht & Hcb);
    assert (i = n) by congruence; subst i;
    assert (Hstep : step (Fire n r1 r2) w = render (fire n r1 r2 w))
      by (unfold step; cbn; now rewrite Ht);
    destruct (render_fields (fire n r1 r2 w)) as (Eh & Ee & _ & Ec & _);
    pose proof (fire_tick_fields n r1 r2 t w Ht Hcb) as Hf; cbn zeta in Hf;
    destruct Hf as (Hm' & _ & Hf).
  - cbn [replicate play]. rewrite Ha, Hstep, Eh.
    replace (timeLeft (hooks w) <=? 1) with true in Hf
      by (symmetry; apply Z.leb_le; lia).
    tauto.
  - change (replicate (S (S k)) (Fire n r1 r2))
      with (Fire n r1 r2 :: replicate (S k) (Fire n r1 r2)).
    cbn [play]. rewrite Ha.
    replace (timeLeft (hooks w) <=? 1) with false in Hf
      by (symmetry; apply Z.leb_gt; lia).
    destruct Hf as (Ha' & Htl' & _).
    apply IH.
    + now apply Inv_step.
    + rewrite Hstep, Ee. congruence.
    + rewrite Hstep, Eh. congruence.
    + rewrite Hstep, Ec. rewrite (fire_tick_refs n r1 r2 t w Ht Hcb) by lia.
      exact Hc.
    + rewrite Hstep, Eh, Htl'. lia.
Qed.

(** ** The moving dot *)



(** ** The verdict *)

Lemma verdict_pass (r : Q) :
  negb (Qle_bool r pass_threshold) = true <-> (3 # 10 < r)%Q.
Proof.
  unfold pass_threshold. rewrite negb_true_iff.
  destruct (Qle_bool r (3 # 10)) eqn:E.
  - apply Qle_bool_iff in E. split; [discriminate|].
    intros H. exfalso. apply (Qlt_not_le _ _ H E).
  - split; [|reflexivity]. intros _. apply Qnot_le_lt.
    intros H. apply Qle_bool_iff in H. congruence.
Qed.

(** C5.  When the countdown callback runs with one second left, no
    timer is left afterwards, [endChallenge] has been called once, the
    challenge is no longer active and a result is stored whose duration
    is 6 and whose status is PASS exactly when the random draw exceeds
    0.3 and FAIL otherwise; with the camera active this is the state in
    which the result is ready. *)
Theorem countdown_zero_stores_result
    (id : nat) (r1 r2 : Q) (t : Timer) (w : World) :
  Inv w ->
  timers (env w) !! id = Some t -> callback t = CountdownTick ->
  timeLeft (hooks w) <= 1 ->
  isCameraActive (hooks w) = true ->
  let w' := step (Fire id r1 r2) w in
  timers (env w') = ∅ /\
  isChallengeActive (hooks w') = false /\
  completions (since w w') = [Z.max (now (env w)) (due t)] /\
  exists res,
    challengeResult (hooks w') = Some res /\
    duration res = 6 /\
    (status res = PASS <-> (3 # 10 < r1)%Q) /\
    (status res = FAIL <-> (r1 <= 3 # 10)%Q) /\
    result_ready w' res.
Proof.
  intros HI Ht Hcb Hk Hcam w'.
  pose proof (Inv_step (Fire id r1 r2) w HI) as HI'. fold w' in HI'.
  assert (Hstep : w' = render (fire id r1 r2 w))
    by (unfold w', step; cbn; now rewrite Ht).
  destruct (render_fields (fire id r1 r2 w)) as (Eh & Ee & _).
  pose proof (fire_tick_fields id r1 r2 t w Ht Hcb) as Hf. cbn zeta in Hf.
  destruct Hf as (_ & Hcam' & Hf).
  pose proof (trace_fire id r1 r2 t w Ht) as Htr. cbn zeta in Htr.
  rewrite Hcb in Htr.
  apply Z.leb_le in Hk. rewrite Hk in Hf, Htr.
  destruct Hf as (Ha' & _ & Hres).
  assert (Hact : isChallengeActive (hooks w') = false)
    by (rewrite Hstep, Eh; exact Ha').
  split; [apply (inv_quiet _ HI'); auto|]. split; [exact Hact|]. split.
  - rewrite Hstep. erewrite since_app by (rewrite Ee; exact Htr). reflexivity.
  - eexists. rewrite Hstep, Eh. split; [exact Hres|]. cbn.
    split; [reflexivity|].
    pose proof (verdict_pass r1) as Hv.
    destruct (negb (Qle_bool r1 pass_threshold)) eqn:E.
    + split; [tauto|]. split.
      * split; [discriminate|]. intros H. exfalso.
        apply (Qlt_not_le (3 # 10) r1); tauto.
      * unfold result_ready. rewrite Eh, Ha', Hcam', Hres. auto.
    + assert (Hle : (r1 <= 3 # 10)%Q).
      { apply Qnot_lt_le. intros H. apply Hv in H. discriminate H. }
      split; [split; [discriminate|]; intros H; apply Hv in H; discriminate H|].
      split; [tauto|].
      unfold result_ready. rewrite Eh, Ha', Hcam', Hres. auto.
Qed.

(** ** The zero crossing *)

(** C6 (as the code has it).  The callback that finds one second or
    less on the clock does both things at the same instant: it calls
    [endChallenge] and then delivers the remaining value 0, each once.
    Every other run of the callback delivers one tick and no
    completion. *)
Theorem zero_crossing_completes_and_ticks (r : Q) (w : World) :
  (timeLeft (hooks w) <= 1 ->
     since w (countdownTick r w) =
       [(now (env w), Complete); (now (env w), Tick 0)] /\
     timeLeft (hooks (countdownTick r w)) = 0) /\
  (1 < timeLeft (hooks w) ->
     since w (countdownTick r w) =
       [(now (env w), Tick (timeLeft (hooks w) - 1))] /\
     timeLeft (hooks (countdownTick r w)) = timeLeft (hooks w) - 1).
Proof.
  pose proof (trace_countdownTick r w) as Htr.
  split; intros Hk.
  - apply Z.leb_le in Hk. rewrite Hk in Htr. split; [now apply since_app|].
    unfold countdownTick. rewrite Hk. reflexivity.
  - apply Z.leb_gt in Hk. rewrite Hk in Htr. split; [now apply since_app|].
    unfold countdownTick. rewrite Hk. reflexivity.
Qed.

(** ** Binary64 rounding *)

Lemma pow2_neg (e : Z) : e <= 0 -> Binary64.pow2 e = 1 # Z.to_pos (2 ^ (- e)).
Proof.
  intros He. unfold Binary64.pow2. destruct (0 <=? e) eqn:E; [|reflexivity].
  apply Z.leb_le in E. assert (e = 0) as -> by lia. reflexivity.
Qed.

Lemma pow2_pos (e : Z) : (0 < Binary64.pow2 e)%Q.
Proof.
  unfold Binary64.pow2. destruct (0 <=? e) eqn:E; [|reflexivity].
  apply Z.leb_le in E. change 0%Q with (inject_Z 0). rewrite <- Zlt_Qlt.
  now apply Z.pow_pos_nonneg.
Qed.

(** An integer is a multiple of every unit in the last place that is
    at most one. *)
Lemma on_grid (e k : Z) :
  e <= 0 -> (inject_Z k == inject_Z (k * 2 ^ (- e)) * Binary64.pow2 e)%Q.
Proof.
  intros He. rewrite (pow2_neg e He).
  assert (Hp : 0 < 2 ^ (- e)) by (apply Z.pow_pos_nonneg; lia).
  unfold Qeq, Qmult, inject_Z. cbn [Qnum Qden].
  rewrite Pos.mul_1_l, Z2Pos.id by exact Hp. ring.
Qed.

Lemma pow2_le (e : Z) : e <= -46 -> (Binary64.pow2 e <= 1 # 70368744177664)%Q.
Proof.
  intros He. rewrite (pow2_neg e) by lia.
  assert (Hp : 2 ^ 46 <= 2 ^ (- e)) by (apply Z.pow_le_mono_r; lia).
  unfold Qle. cbn [Qnum Qden].
  rewrite Z2Pos.id by lia. change (2 ^ 46) with 70368744177664 in Hp. lia.
Qed.

Lemma round_half_even_cases (x : Q) :
  Binary64.round_half_even x = Qfloor x \/
  (Binary64.round_half_even x = Qfloor x + 1 /\ (1 # 2 <= x - inject_Z (Qfloor x))%Q).
Proof.
  unfold Binary64.round_half_even.
  destruct (x - inject_Z (Qfloor x) ?= 1 # 2)%Q eqn:E.
  - apply Qeq_alt in E. destruct (Z.even (Qfloor x)); [now left|right].
    split; [reflexivity|]. rewrite E. apply Qle_refl.
  - now left.
  - right. split; [reflexivity|]. apply Qgt_alt in E. now apply Qlt_le_weak.
Qed.

Lemma round_half_even_le (x : Q) (k : Z) :
  (x <= inject_Z k)%Q -> Binary64.round_half_even x <= k.
Proof.
  intros H. pose proof (Qfloor_le x) as Hf.
  destruct (round_half_even_cases x) as [->|(-> & Hd)].
  - rewrite Zle_Qle. lra.
  - assert (Hlt : (inject_Z (Qfloor x) < inject_Z k)%Q) by lra.
    rewrite <- Zlt_Qlt in Hlt. lia.
Qed.

Lemma round_half_even_ge (x : Q) (k : Z) :
  (inject_Z k <= x)%Q -> k <= Binary64.round_half_even x.
Proof.
  intros H. pose proof (Qlt_floor x) as Hf.
  assert (Hk : k <= Qfloor x).
  { assert (Hlt : (inject_Z k < inject_Z (Qfloor x + 1))%Q) by lra.
    rewrite <- Zlt_Qlt in Hlt. lia. }
  destruct (round_half_even_cases x) as [->|(-> & _)]; lia.
Qed.

Lemma round_half_even_error (x : Q) :
  (Qabs (inject_Z (Binary64.round_half_even x) - x) <= 1 # 2)%Q.
Proof.
  pose proof (Qfloor_le x) as Hf. pose proof (Qlt_floor x) as Hc.
  rewrite inject_Z_plus in Hc. change (inject_Z 1) with 1%Q in Hc.
  apply Qabs_Qle_condition. unfold Binary64.round_half_even.
  destruct (x - inject_Z (Qfloor x) ?= 1 # 2)%Q eqn:E.
  - apply Qeq_alt in E.
    destruct (Z.even (Qfloor x));
      rewrite ?inject_Z_plus; change (inject_Z 1) with 1%Q; split; lra.
  - apply Qlt_alt in E. split; lra.
  - apply Qgt_alt in E. rewrite inject_Z_plus. change (inject_Z 1) with 1%Q.
    split; lra.
Qed.

(** Rounding to a grid never crosses a point of the grid. *)
Lemma round_to_le (e k : Z) (q : Q) :
  (q <= inject_Z k * Binary64.pow2 e)%Q -> (Binary64.round_to e q <= inject_Z k * Binary64.pow2 e)%Q.
Proof.
  intros H. pose proof (pow2_pos e) as Hp. unfold Binary64.round_to.
  apply Qmult_le_compat_r; [|now apply Qlt_le_weak].
  rewrite <- Zle_Qle. apply round_half_even_le.
  apply Qle_shift_div_r; assumption.
Qed.

Lemma round_to_ge (e k : Z) (q : Q) :
  (inject_Z k * Binary64.pow2 e <= q)%Q -> (inject_Z k * Binary64.pow2 e <= Binary64.round_to e q)%Q.
Proof.
  intros H. pose proof (pow2_pos e) as Hp. unfold Binary64.round_to.
  apply Qmult_le_compat_r; [|now apply Qlt_le_weak].
  rewrite <- Zle_Qle. apply round_half_even_ge.
  apply Qle_shift_div_l; assumption.
Qed.

Lemma round_to_error (e : Z) (q : Q) :
  (Qabs (Binary64.round_to e q - q) <= (1 # 2) * Binary64.pow2 e)%Q.
Proof.
  pose proof (pow2_pos e) as Hp. unfold Binary64.round_to.
  assert (E : (inject_Z (Binary64.round_half_even (q / Binary64.pow2 e)) * Binary64.pow2 e - q ==
               (inject_Z (Binary64.round_half_even (q / Binary64.pow2 e)) - q / Binary64.pow2 e) * Binary64.pow2 e)%Q).
  { field. lra. }
  rewrite E, Qabs_Qmult, (Qabs_pos (Binary64.pow2 e)) by lra.
  apply Qmult_le_compat_r; [apply round_half_even_error|lra].
Qed.

Lemma Qlog2_small (q : Q) :
  (0 <= q)%Q -> (q < 128)%Q -> Binary64.Qlog2 q < 7.
Proof.
  intros H0 H. unfold Binary64.Qlog2. destruct (Qle_bool 1 q) eqn:E.
  - apply Qle_bool_iff in E. pose proof (Qfloor_le q) as Hf.
    assert (H1 : 1 <= Qfloor q).
    { change 1 with (Qfloor 1). now apply Qfloor_resp_le. }
    apply Z.log2_lt_pow2; [lia|].
    rewrite Zlt_Qlt. change (inject_Z (2 ^ 7)) with 128%Q. lra.
  - pose proof (Z.log2_up_nonneg (Qceiling (/ q))). lia.
Qed.

Lemma ulp_exponent_small (q : Q) :
  (-128 < q)%Q -> (q < 128)%Q -> -1074 <= Binary64.ulp_exponent q <= -46.
Proof.
  intros Hl Hu. unfold Binary64.ulp_exponent.
  assert (H : Binary64.Qlog2 (Qabs q) < 7).
  { apply Qlog2_small; [apply Qabs_nonneg|].
    apply Qabs_Qlt_condition. split; assumption. }
  lia.
Qed.

Lemma round64_round_to (q : Q) :
  (Binary64.round64 q == Binary64.round_to (Binary64.ulp_exponent q) q)%Q.
Proof. apply Qred_correct. Qed.

(** Below 128 the integers are binary64 numbers, and rounding never
    crosses one. *)
Lemma round64_between (lo hi : Z) (q : Q) :
  -128 < lo -> hi < 128 ->
  (inject_Z lo <= q <= inject_Z hi)%Q ->
  (inject_Z lo <= Binary64.round64 q <= inject_Z hi)%Q.
Proof.
  intros Hlo Hhi [H1 H2].
  assert (Hq : (-128 < q)%Q /\ (q < 128)%Q).
  { rewrite (Zlt_Qlt (-128) lo) in Hlo. rewrite (Zlt_Qlt hi 128) in Hhi.
    change (inject_Z (-128)) with (-128)%Q in Hlo.
    change (inject_Z 128) with 128%Q in Hhi. split; lra. }
  destruct (ulp_exponent_small q) as [_ He]; [tauto|tauto|].
  rewrite round64_round_to.
  rewrite (on_grid (Binary64.ulp_exponent q) lo), (on_grid (Binary64.ulp_exponent q) hi) by lia.
  split.
  - apply round_to_ge. rewrite <- on_grid by lia. exact H1.
  - apply round_to_le. rewrite <- on_grid by lia. exact H2.
Qed.

(** Below 128 one rounding moves a number by at most 2^-47. *)
Lemma round64_error (q : Q) :
  (-128 < q)%Q -> (q < 128)%Q ->
  (Qabs (Binary64.round64 q - q) <= 1 # 140737488355328)%Q.
Proof.
  intros Hl Hu. destruct (ulp_exponent_small q Hl Hu) as [_ He].
  rewrite round64_round_to.
  pose proof (round_to_error (Binary64.ulp_exponent q) q) as H.
  pose proof (pow2_le _ He) as Hp.
  eapply Qle_trans; [exact H|]. lra.
Qed.

(** ** Dot positions *)

(** On the sample doubles [coordinate] computes what the Standard
    Library's IEEE 754 arithmetic computes; for the double nearest to
    one tenth that is 18. *)
Example coordinate_agrees_with_ieee :
  Forall (fun f => Binary64.value (coordinate_ieee f)
                   = option_map coordinate (Binary64.value f))
    Binary64.sample_doubles /\
  option_map coordinate (Binary64.value (S754_finite false 7205759403792794 (-56)))
    = Some 18%Q.
Proof. split; [repeat constructor|]; vm_compute; reflexivity. Qed.

Lemma coordinate_bounds (r : Q) :
  unit_draw r -> (10 <= coordinate r <= 90)%Q.
Proof.
  intros [H0 H1]. unfold coordinate, Binary64.add, Binary64.mul.
  assert (Hm : (inject_Z 0 <= Binary64.round64 (r * 80) <= inject_Z 80)%Q).
  { apply round64_between; [lia|lia|].
    change (inject_Z 0) with 0%Q. change (inject_Z 80) with 80%Q.
    split; lra. }
  change (inject_Z 0) with 0%Q in Hm. change (inject_Z 80) with 80%Q in Hm.
  change 10%Q with (inject_Z 10) at 1 3. change 90%Q with (inject_Z 90).
  apply round64_between; [lia|lia|].
  change (inject_Z 10) with 10%Q. change (inject_Z 90) with 90%Q.
  split; lra.
Qed.

Lemma coordinate_error (r : Q) :
  unit_draw r ->
  (Qabs (coordinate r - (80 * r + 10)) <= rounding_error)%Q.
Proof.
  intros [H0 H1]. unfold coordinate, Binary64.add, Binary64.mul.
  assert (Hm : (inject_Z 0 <= Binary64.round64 (r * 80) <= inject_Z 80)%Q).
  { apply round64_between; [lia|lia|].
    change (inject_Z 0) with 0%Q. change (inject_Z 80) with 80%Q.
    split; lra. }
  change (inject_Z 0) with 0%Q in Hm. change (inject_Z 80) with 80%Q in Hm.
  pose proof (round64_error (r * 80)) as E1.
  pose proof (round64_error (Binary64.round64 (r * 80) + 10)) as E2.
  apply Qabs_Qle_condition in E1; [|lra|lra].
  apply Qabs_Qle_condition in E2; [|lra|lra].
  apply Qabs_Qle_condition. unfold rounding_error. split; lra.
Qed.

Lemma draw_in_band (rx ry : Q) :
  unit_draw rx -> unit_draw ry ->
  in_viewport_band {| pos_x := coordinate rx; pos_y := coordinate ry |}.
Proof.
  intros Hx Hy.
  pose proof (coordinate_bounds rx Hx). pose proof (coordinate_bounds ry Hy).
  unfold in_viewport_band, viewport_fraction, Qdiv.
  change (/ 100)%Q with (1 # 100)%Q. cbn [pos_x pos_y].
  repeat split; lra.
Qed.

Lemma moves_stopTracks (l : list nat) (w : World) :
  moves (since w (foldl stopTrack w l)) = [].
Proof.
  revert w. induction l as [|a l IH]; intros w; [now rewrite since_refl|].
  cbn [foldl].
  rewrite (since_trans w (stopTrack w a)).
  - rewrite moves_app, IH. erewrite since_app by reflexivity. reflexivity.
  - eexists. reflexivity.
  - apply trace_stopTracks.
Qed.

Lemma moves_cleanup (w : World) : moves (since w (cleanup w)) = [].
Proof.
  assert (H : since w (cleanup w) = since w (stopCamera w)).
  { unfold since, cleanup.
    destruct (truthyId (challengeTimerRef (refs (stopCamera w))));
      cbn; destruct (truthyId (dotTimerRef (refs (stopCamera w))));
      reflexivity. }
  rewrite H. unfold stopCamera.
  destruct (streamRef (refs w)) as [s|]; [|now rewrite since_refl].
  exact (moves_stopTracks (tracks s) w).
Qed.

(** The moves one input adds to the trace: none, or the one computed
    from the two draws the input carries. *)
Lemma step_moves (i : Input) (w : World) :
  moves (since w (step i w)) = [] \/
  exists T rx ry,
    (i = ClickStart rx ry \/ exists id, i = Fire id rx ry) /\
    moves (since w (step i w)) =
      [(T, {| pos_x := coordinate rx; pos_y := coordinate ry |}%Q)].
Proof.
  unfold step. destruct (handler i w) as [f|] eqn:Hh;
    [|left; now rewrite since_refl].
  assert (Hr : forall w', since w (render w') = since w w').
  { intros w'. unfold since. now rewrite trace_render. }
  rewrite Hr.
  destruct i as [s|s| |rx ry| |st|err|id r1 r2| ]; cbn in Hh.
  - destruct (mounted (env w) && negb (isRegistered (hooks w)));
      inversion Hh; subst f. left.
    now rewrite since_same_trace by reflexivity.
  - destruct (mounted (env w) && negb (isRegistered (hooks w)));
      inversion Hh; subst f. left.
    now rewrite since_same_trace by reflexivity.
  - destruct (mounted (env w) && negb (isRegistered (hooks w)));
      inversion Hh; subst f. left. unfold handleRegister.
    destruct (truthy (trim (name (user (hooks w)))) &&
              truthy (trim (email (user (hooks w)))) &&
              includes (email (user (hooks w))) at_sign);
      erewrite since_app by reflexivity; reflexivity.
  - destruct (mounted (env w) && isRegistered (hooks w) && negb (start_disabled w));
      inversion Hh; subst f.
    destruct (isCameraActive (hooks w)) eqn:Ec.
    + right. exists (now (env w)), rx, ry. split; [auto|].
      destruct (startChallenge_fields rx ry w Ec)
        as (_ & _ & _ & _ & _ & _ & _ & _ & _ & _ & _ & Htr).
      erewrite since_app by exact Htr. reflexivity.
    + left. unfold startChallenge. rewrite Ec. now rewrite since_refl.
  - destruct (mounted (env w) && isRegistered (hooks w) &&
              bool_decide (is_Some (challengeResult (hooks w))));
      inversion Hh; subst f. left. unfold submitResult.
    destruct (challengeResult (hooks w)); [|now rewrite since_refl].
    erewrite since_app by reflexivity. reflexivity.
  - destruct (pendingCamera (env w)); inversion Hh; subst f. left.
    unfold cameraGranted, startCamera_resolved. cbn.
    destruct (videoRef (refs w));
      now rewrite since_same_trace by reflexivity.
  - destruct (pendingCamera (env w)); inversion Hh; subst f. left.
    unfold cameraFailed, startCamera_rejected.
    destruct err as [en|]; try case_bool_decide;
      erewrite since_app by (cbn; rewrite <- app_assoc; reflexivity);
      reflexivity.
  - destruct (timers (env w) !! id) as [t|] eqn:Ht; inversion Hh; subst f.
    pose proof (trace_fire id r1 r2 t w Ht) as Htr. cbn zeta in Htr.
    erewrite since_app by exact Htr.
    destruct (callback t).
    + left. destruct (timeLeft (hooks w) <=? 1); reflexivity.
    + right. eexists _, r1, r2. split; [eauto|reflexivity].
  - destruct (mounted (env w)); inversion Hh; subst f. left.
    unfold unmount. exact (moves_cleanup w).
Qed.

(** ** Chance *)

Lemma filter_length_le {A : Type} (f : A -> bool) (l : list A) :
  (length (List.filter f l) <= length l)%nat.
Proof.
  induction l as [|a l IH]; [reflexivity|]. cbn.
  destruct (f a); cbn; lia.
Qed.

Lemma filter_length_mono {A : Type} (P : A -> Prop) (f g : A -> bool)
  (l : list A) :
  Forall P l -> (forall a, P a -> f a = true -> g a = true) ->
  (length (List.filter f l) <= length (List.filter g l))%nat.
Proof.
  intros Hl Hfg. induction Hl as [|a l Ha Hl IH]; [reflexivity|]. cbn.
  destruct (f a) eqn:Ef.
  - rewrite (Hfg a Ha Ef). cbn. lia.
  - destruct (g a); cbn; lia.
Qed.

Lemma prob_range {A : Type} (f : A -> bool) (l : list A) :
  (0 <= prob f l <= 1)%Q.
Proof.
  unfold prob. pose proof (filter_length_le f l) as H.
  destruct l as [|a l]; [cbn; split; discriminate|].
  set (n := length (a :: l)) in *.
  assert (Hn : (0 < inject_Z (Z.of_nat n))%Q).
  { change 0%Q with (inject_Z 0). rewrite <- Zlt_Qlt. subst n. cbn. lia. }
  assert (Hc : (0 <= inject_Z (Z.of_nat (length (List.filter f (a :: l)))))%Q).
  { change 0%Q with (inject_Z 0). rewrite <- Zle_Qle. lia. }
  assert (Hc' : (inject_Z (Z.of_nat (length (List.filter f (a :: l))))
                 <= inject_Z (Z.of_nat n))%Q).
  { rewrite <- Zle_Qle. lia. }
  split.
  - apply Qle_shift_div_l; [exact Hn|]. lra.
  - apply Qle_shift_div_r; [exact Hn|]. lra.
Qed.

Lemma prob_mono {A : Type} (P : A -> Prop) (f g : A -> bool) (l : list A) :
  Forall P l -> (forall a, P a -> f a = true -> g a = true) ->
  (prob f l <= prob g l)%Q.
Proof.
  intros Hl Hfg. unfold prob.
  pose proof (filter_length_mono P f g l Hl Hfg) as H.
  destruct l as [|a l]; [cbn; discriminate|].
  set (n := length (a :: l)) in *.
  assert (Hn : (0 < inject_Z (Z.of_nat n))%Q).
  { change 0%Q with (inject_Z 0). rewrite <- Zlt_Qlt. subst n. cbn. lia. }
  apply Qmult_le_compat_r.
  - rewrite <- Zle_Qle. lia.
  - apply Qlt_le_weak, Qinv_lt_0_compat, Hn.
Qed.

(** With draws uniform up to [delta], a coordinate is uniform between
    10 and 90 up to [delta] and the rounding. *)
Lemma coordinate_near_uniform (delta : Q) (draws : list Q) (t : Q) :
  near_uniform delta draws -> (10 <= t <= 90)%Q ->
  (Qabs (prob (fun r => Qle_bool (coordinate r) t) draws - (t - 10) / 80)
   <= delta + rounding_error / 80)%Q.
Proof.
  intros (Hne & Hd & Hu) [Ht1 Ht2].
  assert (Hdelta : (0 <= delta)%Q).
  { eapply Qle_trans; [apply Qabs_nonneg|]. apply (Hu 0%Q). split; lra. }
  set (uA := ((t - rounding_error - 10) * (1 # 80))%Q).
  set (uC := ((t + rounding_error - 10) * (1 # 80))%Q).
  assert (HA : (prob (fun r => Qle_bool r uA) draws
                <= prob (fun r => Qle_bool (coordinate r) t) draws)%Q).
  { apply (prob_mono unit_draw); [exact Hd|].
    intros r Hr E. apply Qle_bool_iff in E. apply Qle_bool_iff.
    pose proof (coordinate_error r Hr) as He.
    apply Qabs_Qle_condition in He. subst uA. lra. }
  assert (HC : (prob (fun r => Qle_bool (coordinate r) t) draws
                <= prob (fun r => Qle_bool r uC) draws)%Q).
  { apply (prob_mono unit_draw); [exact Hd|].
    intros r Hr E. apply Qle_bool_iff in E. apply Qle_bool_iff.
    pose proof (coordinate_error r Hr) as He.
    apply Qabs_Qle_condition in He. subst uC. lra. }
  pose proof (prob_range (fun r => Qle_bool (coordinate r) t) draws) as Hr.
  assert (Herr : (0 < rounding_error)%Q) by reflexivity.
  unfold Qdiv. change (/ 80)%Q with (1 # 80)%Q.
  apply Qabs_Qle_condition. split.
  - destruct (Qlt_le_dec uA 0) as [Hneg|Hpos].
    + subst uA. lra.
    + assert (H1 : (uA <= 1)%Q) by (subst uA; lra).
      pose proof (Hu uA (conj Hpos H1)) as HuA.
      apply Qabs_Qle_condition in HuA. subst uA. lra.
  - destruct (Qlt_le_dec 1 uC) as [Hbig|Hsmall].
    + subst uC. lra.
    + assert (H0 : (0 <= uC)%Q) by (subst uC; lra).
      pose proof (Hu uC (conj H0 Hsmall)) as HuC.
      apply Qabs_Qle_condition in HuC. subst uC. lra.
Qed.

Lemma filter_length_pair {A B : Type} (f : A -> bool) (g : B -> bool)
  (a : A) (ys : list B) :
  length (List.filter (fun p : A * B => f p.1 && g p.2) (map (pair a) ys)) =
  if f a then length (List.filter g ys) else 0%nat.
Proof.
  induction ys as [|y ys IH]; [now destruct (f a)|]. cbn.
  destruct (f a); cbn in *; [|exact IH].
  destruct (g y); cbn; now rewrite IH.
Qed.

Lemma filter_length_prod {A B : Type} (f : A -> bool) (g : B -> bool)
  (xs : list A) (ys : list B) :
  length (List.filter (fun p : A * B => f p.1 && g p.2) (list_prod xs ys)) =
  (length (List.filter f xs) * length (List.filter g ys))%nat.
Proof.
  induction xs as [|x xs IH]; [reflexivity|]. cbn [list_prod].
  rewrite List.filter_app, length_app, IH, filter_length_pair. cbn.
  destruct (f x); cbn; lia.
Qed.

(** Events on the two components of a pair drawn independently are
    independent. *)
Lemma prob_prod {A B : Type} (f : A -> bool) (g : B -> bool)
  (xs : list A) (ys : list B) :
  (prob (fun p : A * B => f p.1 && g p.2) (list_prod xs ys)
   == prob f xs * prob g ys)%Q.
Proof.
  unfold prob. rewrite filter_length_prod, length_prod.
  rewrite !Nat2Z.inj_mul, !inject_Z_mult.
  destruct xs as [|x xs]; [cbn; reflexivity|].
  destruct ys as [|y ys].
  { cbn [length]. change (inject_Z (Z.of_nat 0)) with 0%Q.
    unfold Qdiv. rewrite !Qmult_0_r. cbn. reflexivity. }
  field. split.
  - change 0%Q with (inject_Z 0). rewrite inject_Z_injective. cbn. lia.
  - change 0%Q with (inject_Z 0). rewrite inject_Z_injective. cbn. lia.
Qed.

(** The two-point source of draws is uniform up to one half. *)
Lemma coin_near_uniform : near_uniform (1 # 2) [0; 1 # 2]%Q.
Proof.
  split; [discriminate|]. split.
  { repeat constructor; discriminate. }
  intros u [H0 H1]. unfold prob. cbn [List.filter].
  assert (E0 : Qle_bool 0 u = true) by now apply Qle_bool_iff.
  rewrite E0. destruct (Qle_bool (1 # 2) u) eqn:E.
  - apply Qle_bool_iff in E.
    change (Qabs (2 / 2 - u) <= 1 # 2)%Q. apply Qabs_Qle_condition.
    unfold Qdiv. change (/ 2)%Q with (1 # 2)%Q. split; lra.
  - assert (Hlt : (u < 1 # 2)%Q).
    { apply Qnot_le_lt. intros Hle. apply Qle_bool_iff in Hle. congruence. }
    change (Qabs (1 / 2 - u) <= 1 # 2)%Q. apply Qabs_Qle_condition.
    unfold Qdiv. change (/ 2)%Q with (1 # 2)%Q. split; lra.
Qed.

(** C7.  Whatever the component is fed, every position it emits lies
    between 0.10 and 0.90 of the viewport in both directions, provided
    the random numbers are draws from the unit interval; the bounds
    hold for the binary64 arithmetic of the code.  A position is
    computed from two fresh draws and from nothing else, not even the
    position before it, and no position is held back for being a
    repeat: [x] is [Math.random() * 80 + 10] on the first draw and [y]
    the same on the second.  A coordinate is its draw scaled by 80 and
    shifted by 10 up to a rounding error of 2^-46, so with draws that
    are uniform up to [delta] the coordinate is uniform between 10 and
    90 percent up to [delta + 2^-46 / 80], and with the two draws
    independent so are the two coordinates. *)
Theorem dot_positions (l : list Input) (w : World) :
  Forall draws_ok l ->
  Forall (fun m => in_viewport_band m.2) (moves (since w (run l w))) /\
  (forall e rx ry w',
     let p := dotPosition (hooks (moveDot e rx ry w')) in
     p = {| pos_x := coordinate rx; pos_y := coordinate ry |} /\
     moves (since w' (moveDot e rx ry w')) = [(now (env w'), p)]) /\
  (forall r, unit_draw r ->
     (10 <= coordinate r <= 90)%Q /\
     (Qabs (coordinate r - (80 * r + 10)) <= rounding_error)%Q) /\
  (forall delta draws t,
     near_uniform delta draws -> (10 <= t <= 90)%Q ->
     (Qabs (prob (fun r => Qle_bool (coordinate r) t) draws - (t - 10) / 80)
      <= delta + rounding_error / 80)%Q) /\
  (forall xs ys s t,
     (prob (fun d : Q * Q => Qle_bool (coordinate d.1) s &&
                             Qle_bool (coordinate d.2) t) (list_prod xs ys)
      == prob (fun r => Qle_bool (coordinate r) s) xs *
         prob (fun r => Qle_bool (coordinate r) t) ys)%Q).
Proof.
  intros Hl.
  assert (Hpos : forall e rx ry w',
             dotPosition (hooks (moveDot e rx ry w')) =
             {| pos_x := coordinate rx; pos_y := coordinate ry |}).
  { intros e rx ry w'. unfold moveDot. cbn.
    destruct (e + move_interval <? total_duration); reflexivity. }
  split; [|split; [|split; [|split]]].
  - revert w. induction Hl as [|i l Hi Hl IH]; intros w.
    + cbn. rewrite since_refl. constructor.
    + cbn [run foldl]. change (foldl _ (step i w) l) with (run l (step i w)).
      rewrite (since_trans w (step i w))
        by (apply step_extends || apply run_extends).
      rewrite moves_app. apply Forall_app. split; [|apply IH].
      destruct (step_moves i w) as [->|(T & rx & ry & Hin & ->)];
        [constructor|].
      constructor; [|constructor]. cbn.
      destruct Hin as [->|[id ->]]; destruct Hi; now apply draw_in_band.
  - intros e rx ry w' p. subst p. rewrite Hpos.
    split; [reflexivity|].
    erewrite since_app by apply trace_moveDot. reflexivity.
  - intros r Hr. split; [now apply coordinate_bounds|now apply coordinate_error].
  - intros delta draws t. apply coordinate_near_uniform.
  - intros xs ys s t.
    apply (prob_prod (fun r => Qle_bool (coordinate r) s)
                     (fun r => Qle_bool (coordinate r) t)).
Qed.

(** ** The literal 0.3 *)

(** On the grid of [Math.random()] the comparison with the binary64
    value of [0.3] and the comparison with three tenths agree. *)
Lemma threshold_on_grid (k : Z) :
  (binary64_0_3 < grid_draw k)%Q <-> (pass_threshold < grid_draw k)%Q.
Proof.
  unfold binary64_0_3, grid_draw, pass_threshold, Qlt. cbn. lia.
Qed.

(** ** From the initial state *)

Lemma delete_empty_timers (i : nat) : delete i (∅ : gmap nat Timer) = ∅.
Proof. apply delete_empty. Qed.

Lemma Dark_step (i : Input) (w : World) : Dark w -> Dark (step i w).
Proof.
  intros (Hc & Ha & Hv & Hs & Ht). unfold step.
  destruct (handler i w) as [f|] eqn:Hh; [|repeat split; assumption].
  assert (Hr : forall w', Dark w' -> Dark (render w')).
  { intros w' (Hc' & Ha' & Hv' & Hs' & Ht'). unfold render.
    rewrite Hc', andb_false_r. repeat split; assumption. }
  apply Hr.
  destruct i as [s|s| |rx ry| |st|err|id r1 r2| ]; cbn in Hh.
  - destruct (mounted (env w) && negb (isRegistered (hooks w)));
      inversion Hh; subst f. repeat split; assumption.
  - destruct (mounted (env w) && negb (isRegistered (hooks w)));
      inversion Hh; subst f. repeat split; assumption.
  - destruct (mounted (env w) && negb (isRegistered (hooks w)));
      inversion Hh; subst f. unfold handleRegister.
    destruct (truthy (trim (name (user (hooks w)))) &&
              truthy (trim (email (user (hooks w)))) &&
              includes (email (user (hooks w))) at_sign);
      repeat split; assumption.
  - unfold start_disabled in Hh. rewrite Hc in Hh. cbn in Hh.
    rewrite andb_false_r in Hh. discriminate Hh.
  - destruct (mounted (env w) && isRegistered (hooks w) &&
              bool_decide (is_Some (challengeResult (hooks w))));
      inversion Hh; subst f. unfold submitResult.
    destruct (challengeResult (hooks w)); repeat split; assumption.
  - destruct (pendingCamera (env w)); inversion Hh; subst f.
    unfold cameraGranted, startCamera_resolved. cbn. rewrite Hv.
    repeat split; assumption.
  - destruct (pendingCamera (env w)); inversion Hh; subst f.
    unfold cameraFailed, startCamera_rejected.
    destruct err as [en|]; try case_bool_decide; repeat split; assumption.
  - rewrite Ht, lookup_empty in Hh. discriminate Hh.
  - destruct (mounted (env w)); inversion Hh; subst f.
    unfold unmount, cleanup. rewrite (stopCamera_absent w Hs).
    destruct (truthyId (challengeTimerRef (refs w))); cbn;
      destruct (truthyId (dotTimerRef (refs w))); cbn;
      unfold Dark; cbn; rewrite ?Ht, ?delete_empty_timers;
      repeat split; assumption.
Qed.

(** From the initial state the camera flag never comes up: the video
    element that [startCamera] waits for is rendered only once the
    flag is set.  No stream is ever stored and no challenge starts,
    whatever the user and the browser do. *)
Theorem camera_never_activates (l : list Input) :
  isCameraActive (hooks (run l initial)) = false /\
  isChallengeActive (hooks (run l initial)) = false /\
  streamRef (refs (run l initial)) = None /\
  timers (env (run l initial)) = ∅.
Proof.
  assert (H : Dark (run l initial)).
  { assert (H0 : Dark initial) by (repeat split).
    revert H0. generalize initial. induction l as [|i l IH]; intros w Hw;
      [exact Hw|]. apply IH. now apply Dark_step. }
  destruct H as (? & ? & ? & ? & ?). auto.
Qed.

(** The granted camera of the spec's first scenario stays unused, and
    its tracks stay live. *)
Example register_then_grant :
  let w := run [TypeName (lit "Alice"); TypeEmail (lit "a@b.com");
                ClickRegister; CameraGranted camera; ClickStart half half]
               initial in
  isRegistered (hooks w) = true /\
  isCameraActive (hooks w) = false /\
  isChallengeActive (hooks w) = false /\
  liveTracks (env w) = {[7%nat; 8%nat]} /\
  trace (env w) = [(0, GetUserMedia 1280 720)].
Proof. vm_compute. repeat split. Qed.

(** Such a stream is not in [streamRef], so the unmount cleanup does not
    stop it either: its tracks outlive the component. *)
Example granted_stream_outlives_unmount :
  let w := run [TypeName (lit "Alice"); TypeEmail (lit "a@b.com");
                ClickRegister; CameraGranted camera; Unmount]
               initial in
  mounted (env w) = false /\
  streamRef (refs w) = None /\
  liveTracks (env w) = {[7%nat; 8%nat]} /\
  trace (env w) = [(0, GetUserMedia 1280 720)].
Proof. vm_compute. repeat split. Qed.

(** ** The sample worlds *)

Lemma Inv_idle_world : Inv idle_world.
Proof.
  split.
  - cbn. lia.
  - intros j t H. change (timers (env idle_world)) with (∅ : gmap nat Timer) in H.
    rewrite lookup_empty in H. discriminate H.
  - reflexivity.
  - discriminate.
Qed.

Lemma idle_world_idle : device_idle idle_world.
Proof. repeat split. Qed.

Lemma ideal_schedule_uncancelled : uncancelled ideal_schedule.
Proof. repeat constructor; discriminate. Qed.

Lemma ideal_schedule_draws : Forall draws_ok (ClickStart half half :: ideal_schedule).
Proof.
  assert (H : unit_draw half) by (split; reflexivity || discriminate).
  repeat constructor; try apply H.
Qed.

Lemma Inv_advance (r1 r2 : Q) (w : World) : Inv w -> Inv (advance r1 r2 w).
Proof.
  intros H. unfold advance. destruct (nextTimer (timers (env w))); [|exact H].
  now apply Inv_step.
Qed.

Lemma Inv_advance_n (n : nat) (d : nat -> Q * Q) (w : World) :
  Inv w -> Inv (advance_n n d w).
Proof.
  revert d w. induction n as [|n IH]; intros d w H; [exact H|].
  cbn. apply IH. now apply Inv_advance.
Qed.

Lemma Inv_last_second : Inv last_second.
Proof. apply Inv_advance_n, Inv_step, Inv_idle_world. Qed.

(** The ideal clock runs the timers in the order of [ideal_schedule]. *)
Example ideal_schedule_is_ideal :
  run ideal_schedule started_world = finished_world /\
  play ideal_schedule started_world = finished_world.
Proof. vm_compute. split; reflexivity. Qed.

(** The whole challenge on the ideal clock: eight moves 800 ms apart,
    a tick every second, the completion and the zero tick together at
    6000 ms. *)
Example ideal_timeline :
  map fst (moves (since idle_world finished_world)) =
    [0; 800; 1600; 2400; 3200; 4000; 4800; 5600] /\
  omap (fun e => match e.2 with
                 | Tick n => Some (e.1, Tick n)
                 | Complete => Some (e.1, Complete)
                 | _ => None
                 end) (since idle_world finished_world) =
    [(1000, Tick 5); (2000, Tick 4); (3000, Tick 3); (4000, Tick 2);
     (5000, Tick 1); (6000, Complete); (6000, Tick 0)] /\
  challengeResult (hooks finished_world) =
    Some {| status := PASS; duration := 6; timestamp := 6000 |} /\
  timers (env finished_world) = ∅.
Proof. vm_compute. repeat split. Qed.

(** The function itself does not look at the challenge flag: called on
    a running challenge it would set up a second interval.  Only the
    disabled button stands in the way. *)
Example startChallenge_unguarded :
  size (countdown_timers (startChallenge half half started_world)) = 2%nat /\
  step (ClickStart half half) started_world = started_world.
Proof. vm_compute. split; reflexivity. Qed.

(** ** The properties on the sample worlds *)

Lemma startChallenge_only_when_idle_witness :
  challenge_running (step (ClickStart half half) idle_world) /\
  step (ClickStart half half) (step (ClickStart half half) idle_world)
    = step (ClickStart half half) idle_world /\
  step (ClickStart half half) initial = initial.
Proof.
  destruct (startChallenge_only_when_idle half half half half idle_world)
    as (_ & _ & Hrun & Htwice & _).
  destruct (startChallenge_only_when_idle half half half half initial)
    as (Hno & _).
  split; [apply Hrun, idle_world_idle|]. split; [exact Htwice|].
  apply Hno. intros (_ & H & _). discriminate H.
Defined.

Lemma unmount_cancels_timers_witness :
  timers (env (step Unmount started_world)) = ∅ /\
  streamRef (refs (step Unmount started_world)) = None /\
  7%nat ∉ liveTracks (env (step Unmount started_world)).
Proof.
  destruct (proj1 (unmount_cancels_timers started_world ideal_schedule)
              (Inv_step _ _ Inv_idle_world) eq_refl)
    as (Ht & _ & _ & Hs & Hl & _).
  split; [exact Ht|]. split; [exact Hs|].
  apply (Hl camera); [reflexivity|]. apply list_elem_of_In. cbn. auto.
Defined.

Lemma countdown_zero_stores_result_witness :
  isChallengeActive (hooks (step (Fire 1 half half) last_second)) = false /\
  exists res,
    challengeResult (hooks (step (Fire 1 half half) last_second)) = Some res /\
    duration res = 6.
Proof.
  destruct (countdown_zero_stores_result 1 half half
              {| callback := CountdownTick; due := 6000 |} last_second
              Inv_last_second)
    as (_ & Ha & _ & res & Hres & Hd & _).
  - vm_compute. reflexivity.
  - reflexivity.
  - vm_compute. discriminate.
  - vm_compute. reflexivity.
  - split; [exact Ha|]. exists res. split; assumption.
Defined.


Lemma dot_positions_witness :
  Forall (fun m => in_viewport_band m.2)
    (moves (since idle_world
              (run (ClickStart half half :: ideal_schedule) idle_world))) /\
  (Qabs (prob (fun r => Qle_bool (coordinate r) 50) [0; 1 # 2]
         - (50 - 10) / 80)
   <= (1 # 2) + rounding_error / 80)%Q.
Proof.
  destruct (dot_positions (ClickStart half half :: ideal_schedule)
              idle_world ideal_schedule_draws) as (H & _ & _ & Hd & _).
  split; [exact H|].
  apply Hd; [exact coin_near_uniform|split; discriminate].
Defined.

Lemma zero_crossing_completes_and_ticks_witness :
  since last_second (countdownTick half last_second) =
    [(5600, Complete); (5600, Tick 0)].
Proof.
  apply (proj1 (zero_crossing_completes_and_ticks half last_second)).
  vm_compute. discriminate.
Defined.

(** C6 as the spec states it fails: at the zero crossing the callback
    fires the completion and the zero tick, both. *)
Lemma zero_crossing_not_exclusive : ~ tick_xor_complete last_second half.
Proof.
  unfold tick_xor_complete.
  assert (H : countdown_obs (since last_second (countdownTick half last_second))
              = [Complete; Tick 0]) by (vm_compute; reflexivity).
  rewrite H. cbn. intros [[_ Hn]|[_ Hn]]; apply Hn; auto.
Qed.

(** * Further properties

    Properties of the parts of the component the statements above do
    not reach: what one input adds to the trace, the registration, the
    camera request and its failure, the screen, the timing of the
    verdict, and the life of the camera and of the timers. *)

(** ** What each input adds to the trace *)

Lemma since_stopTracks (l : list nat) (w : World) :
  since w (foldl stopTrack w l) =
  map (fun t => (now (env w), TrackStop t)) l.
Proof.
  revert w. induction l as [|a l IH]; intros w; [apply since_refl|].
  cbn [foldl map].
  rewrite (since_trans w (stopTrack w a)).
  - rewrite IH. erewrite since_app by reflexivity. reflexivity.
  - eexists. reflexivity.
  - apply trace_stopTracks.
Qed.

Lemma since_cleanup (w : World) :
  since w (cleanup w) =
  match streamRef (refs w) with
  | Some s => map (fun t => (now (env w), TrackStop t)) (tracks s)
  | None => []
  end.
Proof.
  assert (H : since w (cleanup w) = since w (stopCamera w)).
  { unfold since, cleanup.
    destruct (truthyId (challengeTimerRef (refs (stopCamera w))));
      cbn; destruct (truthyId (dotTimerRef (refs (stopCamera w))));
      reflexivity. }
  rewrite H. unfold stopCamera.
  destruct (streamRef (refs w)) as [s|]; [|apply since_refl].
  exact (since_stopTracks (tracks s) w).
Qed.

(** The trace a step leaves is the old one followed by [emitted]. *)
Lemma step_emits (i : Input) (w : World) : since w (step i w) = emitted i w.
Proof.
  unfold step, emitted. destruct (handler i w) as [f|] eqn:Hh;
    [|apply since_refl].
  assert (Hr : forall w', since w (render w') = since w w').
  { intros w'. unfold since. now rewrite trace_render. }
  rewrite Hr.
  destruct i as [s|s| |rx ry| |st|err|id r1 r2| ]; cbn in Hh.
  - destruct (mounted (env w) && negb (isRegistered (hooks w)));
      inversion Hh; subst f. now apply since_same_trace.
  - destruct (mounted (env w) && negb (isRegistered (hooks w)));
      inversion Hh; subst f. now apply since_same_trace.
  - destruct (mounted (env w) && negb (isRegistered (hooks w)));
      inversion Hh; subst f. unfold handleRegister.
    destruct (truthy (trim (name (user (hooks w)))) &&
              truthy (trim (email (user (hooks w)))) &&
              includes (email (user (hooks w))) at_sign);
      now apply since_app.
  - destruct (mounted (env w)); [|discriminate Hh].
    destruct (isRegistered (hooks w)); [|discriminate Hh].
    unfold start_disabled in Hh.
    destruct (isCameraActive (hooks w)) eqn:Ec; [|discriminate Hh].
    destruct (isChallengeActive (hooks w)); inversion Hh; subst f.
    destruct (startChallenge_fields rx ry w Ec)
      as (_ & _ & _ & _ & _ & _ & _ & _ & _ & _ & _ & Htr).
    now apply since_app.
  - destruct (mounted (env w) && isRegistered (hooks w) &&
              bool_decide (is_Some (challengeResult (hooks w))));
      inversion Hh; subst f. unfold submitResult.
    destruct (challengeResult (hooks w)); [|apply since_refl].
    now apply since_app.
  - destruct (pendingCamera (env w)); inversion Hh; subst f.
    unfold cameraGranted, startCamera_resolved. cbn.
    destruct (videoRef (refs w)); now apply since_same_trace.
  - destruct (pendingCamera (env w)); inversion Hh; subst f.
    unfold cameraFailed, startCamera_rejected, camera_error_message.
    destruct err as [en|]; try case_bool_decide;
      apply since_app; cbn; now rewrite <- app_assoc.
  - destruct (timers (env w) !! id) as [t|] eqn:Ht; inversion Hh; subst f.
    pose proof (trace_fire id r1 r2 t w Ht) as Htr. cbn zeta in Htr.
    apply since_app. rewrite Htr. destruct (callback t); reflexivity.
  - destruct (mounted (env w)); inversion Hh; subst f.
    unfold unmount. exact (since_cleanup w).
Qed.

Lemma run_cons (i : Input) (l : list Input) (w : World) :
  run (i :: l) w = run l (step i w).
Proof. reflexivity. Qed.

Lemma since_run_cons (i : Input) (l : list Input) (w : World) :
  since w (run (i :: l) w) = emitted i w ++ since (step i w) (run l (step i w)).
Proof.
  rewrite run_cons, (since_trans w (step i w))
    by (apply step_extends || apply run_extends).
  now rewrite step_emits.
Qed.

Lemma trace_step (i : Input) (w : World) :
  trace (env (step i w)) = trace (env w) ++ emitted i w.
Proof.
  destruct (step_extends i w) as [l Hl]. rewrite Hl. f_equal.
  rewrite <- step_emits. symmetry. now apply since_app.
Qed.

(** ** What a step leaves alone *)

(** A timer callback touches neither the registration nor the camera. *)
Lemma fire_frame (id : nat) (r1 r2 : Q) (w : World) :
  let w' := fire id r1 r2 w in
  user (hooks w') = user (hooks w) /\
  isRegistered (hooks w') = isRegistered (hooks w) /\
  isCameraActive (hooks w') = isCameraActive (hooks w) /\
  mounted (env w') = mounted (env w) /\
  liveTracks (env w') = liveTracks (env w) /\
  pendingCamera (env w') = pendingCamera (env w) /\
  videoRef (refs w') = videoRef (refs w) /\
  streamRef (refs w') = streamRef (refs w) /\
  (dotPosition (hooks w') = dotPosition (hooks w) \/
   dotPosition (hooks w') =
     {| pos_x := coordinate r1; pos_y := coordinate r2 |}%Q).
Proof.
  unfold fire. destruct (timers (env w) !! id) as [t|]; [|cbn; tauto].
  destruct (callback t) as [|e].
  - unfold countdownTick, endChallenge. cbn.
    destruct (timeLeft (hooks w) <=? 1); cbn; [|tauto].
    destruct (truthyId (challengeTimerRef (refs w))); cbn;
      destruct (truthyId (dotTimerRef (refs w))); cbn; tauto.
  - unfold moveDot. cbn.
    destruct (e + move_interval <? total_duration); cbn; tauto.
Qed.

Lemma startChallenge_frame (rx ry : Q) (w : World) :
  isCameraActive (hooks w) = true ->
  let w' := startChallenge rx ry w in
  user (hooks w') = user (hooks w) /\
  isRegistered (hooks w') = isRegistered (hooks w) /\
  isCameraActive (hooks w') = true /\
  mounted (env w') = mounted (env w) /\
  liveTracks (env w') = liveTracks (env w) /\
  pendingCamera (env w') = pendingCamera (env w) /\
  videoRef (refs w') = videoRef (refs w) /\
  streamRef (refs w') = streamRef (refs w) /\
  dotPosition (hooks w') =
    {| pos_x := coordinate rx; pos_y := coordinate ry |}%Q.
Proof.
  intros Hc. unfold startChallenge. rewrite Hc. cbn.
  unfold moveDotRandomly, moveDot. cbn. repeat split. exact Hc.
Qed.

(** The cleanup leaves the user data and the dot alone. *)
Lemma cleanup_hooks (w : World) :
  user (hooks (cleanup w)) = user (hooks w) /\
  isRegistered (hooks (cleanup w)) = isRegistered (hooks w) /\
  dotPosition (hooks (cleanup w)) = dotPosition (hooks w).
Proof.
  assert (H : hooks (cleanup w) = hooks (stopCamera w)).
  { unfold cleanup.
    destruct (truthyId (challengeTimerRef (refs (stopCamera w))));
      cbn; destruct (truthyId (dotTimerRef (refs (stopCamera w))));
      reflexivity. }
  rewrite H. unfold stopCamera.
  destruct (streamRef (refs w)) as [s|]; [|auto].
  destruct (foldl_stopTrack_frame (tracks s) w) as (H1 & _).
  cbn. rewrite H1. auto.
Qed.

(** The registration flag only goes up, through a valid registration,
    and the user data is frozen once it is up. *)
Lemma step_registration (i : Input) (w : World) :
  (isRegistered (hooks w) = true ->
     isRegistered (hooks (step i w)) = true /\
     user (hooks (step i w)) = user (hooks w)) /\
  (isRegistered (hooks w) = false ->
     isRegistered (hooks (step i w)) = true ->
     i = ClickRegister /\ valid_registration (user (hooks w)) /\
     user (hooks (step i w)) = user (hooks w)).
Proof.
  unfold step. destruct (handler i w) as [f|] eqn:Hh;
    [|split; [auto | congruence]].
  destruct (render_fields (f w)) as (-> & _).
  destruct i as [s|s| |rx ry| |st|err|id r1 r2| ]; cbn in Hh.
  - destruct (mounted (env w)), (isRegistered (hooks w)) eqn:Er;
      inversion Hh; subst f. cbn. rewrite Er. split; congruence.
  - destruct (mounted (env w)), (isRegistered (hooks w)) eqn:Er;
      inversion Hh; subst f. cbn. rewrite Er. split; congruence.
  - destruct (mounted (env w)), (isRegistered (hooks w)) eqn:Er;
      inversion Hh; subst f. split; [congruence|]. intros _.
    unfold handleRegister.
    destruct (truthy (trim (name (user (hooks w)))) &&
              truthy (trim (email (user (hooks w)))) &&
              includes (email (user (hooks w))) at_sign) eqn:E; cbn.
    + intros _. split; [reflexivity|]. split; [|reflexivity].
      now apply register_test_valid.
    + congruence.
  - destruct (mounted (env w)); [|discriminate Hh].
    destruct (isRegistered (hooks w)) eqn:Er; [|discriminate Hh].
    unfold start_disabled in Hh.
    destruct (isCameraActive (hooks w)) eqn:Ec; [|discriminate Hh].
    destruct (isChallengeActive (hooks w)); inversion Hh; subst f.
    destruct (startChallenge_frame rx ry w Ec) as (-> & -> & _).
    split; [auto | congruence].
  - destruct (mounted (env w) && isRegistered (hooks w) &&
              bool_decide (is_Some (challengeResult (hooks w))));
      inversion Hh; subst f. unfold submitResult.
    destruct (challengeResult (hooks w)); cbn; split; auto; congruence.
  - destruct (pendingCamera (env w)); inversion Hh; subst f.
    unfold cameraGranted, startCamera_resolved. cbn.
    destruct (videoRef (refs w)); cbn; split; auto; congruence.
  - destruct (pendingCamera (env w)); inversion Hh; subst f.
    unfold cameraFailed, startCamera_rejected.
    destruct err as [en|]; try case_bool_decide; cbn; split; auto; congruence.
  - destruct (timers (env w) !! id); inversion Hh; subst f.
    destruct (fire_frame id r1 r2 w) as (-> & -> & _).
    split; auto; congruence.
  - destruct (mounted (env w)); inversion Hh; subst f.
    destruct (cleanup_hooks w) as (Hu & Hr & _).
    unfold unmount. cbn. rewrite Hu, Hr. split; auto; congruence.
Qed.

(** Short of an unmount, the component stays mounted, tracks that are
    capturing keep capturing and the camera flag stays up. *)
Lemma step_keeps_camera (i : Input) (w : World) :
  i <> Unmount ->
  mounted (env (step i w)) = mounted (env w) /\
  liveTracks (env w) ⊆ liveTracks (env (step i w)) /\
  (isCameraActive (hooks w) = true ->
   isCameraActive (hooks (step i w)) = true).
Proof.
  intros Hnu. unfold step. destruct (handler i w) as [f|] eqn:Hh;
    [|repeat split; auto].
  destruct (render_fields (f w)) as (-> & -> & _).
  destruct i as [s|s| |rx ry| |st|err|id r1 r2| ]; cbn in Hh;
    try congruence.
  - destruct (mounted (env w) && negb (isRegistered (hooks w)));
      inversion Hh; subst f. repeat split; auto.
  - destruct (mounted (env w) && negb (isRegistered (hooks w)));
      inversion Hh; subst f. repeat split; auto.
  - destruct (mounted (env w) && negb (isRegistered (hooks w)));
      inversion Hh; subst f. unfold handleRegister.
    destruct (truthy (trim (name (user (hooks w)))) &&
              truthy (trim (email (user (hooks w)))) &&
              includes (email (user (hooks w))) at_sign);
      repeat split; auto.
  - destruct (mounted (env w)) eqn:Em; [|discriminate Hh].
    destruct (isRegistered (hooks w)); [|discriminate Hh].
    unfold start_disabled in Hh.
    destruct (isCameraActive (hooks w)) eqn:Ec; [|discriminate Hh].
    destruct (isChallengeActive (hooks w)); inversion Hh; subst f.
    destruct (startChallenge_frame rx ry w Ec)
      as (_ & _ & -> & -> & -> & _).
    repeat split; auto.
  - destruct (mounted (env w) && isRegistered (hooks w) &&
              bool_decide (is_Some (challengeResult (hooks w))));
      inversion Hh; subst f. unfold submitResult.
    destruct (challengeResult (hooks w)); repeat split; auto.
  - destruct (pendingCamera (env w)); inversion Hh; subst f.
    unfold cameraGranted, startCamera_resolved. cbn.
    destruct (videoRef (refs w)); cbn; repeat split; auto;
      apply union_subseteq_l.
  - destruct (pendingCamera (env w)); inversion Hh; subst f.
    unfold cameraFailed, startCamera_rejected.
    destruct err as [en|]; try case_bool_decide; repeat split; auto.
  - destruct (timers (env w) !! id); inversion Hh; subst f.
    destruct (fire_frame id r1 r2 w) as (_ & _ & -> & -> & -> & _).
    repeat split; auto.
Qed.

(** The dot stays where it is or goes where the two draws of the input
    send it. *)
Lemma step_dotPosition (i : Input) (w : World) :
  dotPosition (hooks (step i w)) = dotPosition (hooks w) \/
  exists rx ry,
    (i = ClickStart rx ry \/ exists id, i = Fire id rx ry) /\
    dotPosition (hooks (step i w)) =
      {| pos_x := coordinate rx; pos_y := coordinate ry |}%Q.
Proof.
  unfold step. destruct (handler i w) as [f|] eqn:Hh; [|auto].
  destruct (render_fields (f w)) as (-> & _).
  destruct i as [s|s| |rx ry| |st|err|id r1 r2| ]; cbn in Hh.
  - destruct (mounted (env w) && negb (isRegistered (hooks w)));
      inversion Hh; subst f. auto.
  - destruct (mounted (env w) && negb (isRegistered (hooks w)));
      inversion Hh; subst f. auto.
  - destruct (mounted (env w) && negb (isRegistered (hooks w)));
      inversion Hh; subst f. unfold handleRegister.
    destruct (truthy (trim (name (user (hooks w)))) &&
              truthy (trim (email (user (hooks w)))) &&
              includes (email (user (hooks w))) at_sign); auto.
  - destruct (mounted (env w)); [|discriminate Hh].
    destruct (isRegistered (hooks w)); [|discriminate Hh].
    unfold start_disabled in Hh.
    destruct (isCameraActive (hooks w)) eqn:Ec; [|discriminate Hh].
    destruct (isChallengeActive (hooks w)); inversion Hh; subst f.
    destruct (startChallenge_frame rx ry w Ec)
      as (_ & _ & _ & _ & _ & _ & _ & _ & ->).
    right. exists rx, ry. auto.
  - destruct (mounted (env w) && isRegistered (hooks w) &&
              bool_decide (is_Some (challengeResult (hooks w))));
      inversion Hh; subst f. unfold submitResult.
    destruct (challengeResult (hooks w)); auto.
  - destruct (pendingCamera (env w)); inversion Hh; subst f.
    unfold cameraGranted, startCamera_resolved. cbn.
    destruct (videoRef (refs w)); auto.
  - destruct (pendingCamera (env w)); inversion Hh; subst f.
    unfold cameraFailed, startCamera_rejected.
    destruct err as [en|]; try case_bool_decide; auto.
  - destruct (timers (env w) !! id); inversion Hh; subst f.
    destruct (fire_frame id r1 r2 w)
      as (_ & _ & _ & _ & _ & _ & _ & _ & [->| ->]); [auto|].
    right. exists r1, r2. eauto.
  - destruct (mounted (env w)); inversion Hh; subst f.
    left. destruct (cleanup_hooks w) as (_ & _ & Hd).
    unfold unmount. cbn. exact Hd.
Qed.

(** ** A component that never gets its camera *)

Lemma Dark_no_start (rx ry : Q) (w : World) :
  Dark w -> handler (ClickStart rx ry) w = None.
Proof.
  intros (Hc & _). cbn. unfold start_disabled. rewrite Hc. cbn.
  now rewrite andb_false_r.
Qed.

Lemma Dark_emitted (i : Input) (w : World) :
  Dark w ->
  countdown_obs (emitted i w) = [] /\ moves (emitted i w) = [].
Proof.
  intros HD. pose proof HD as (Hc & Ha & Hv & Hs & Ht). unfold emitted.
  destruct (handler i w) as [f|] eqn:Hh; [|auto].
  destruct i as [s|s| |rx ry| |st|err|id r1 r2| ]; try (split; reflexivity).
  - destruct (truthy (trim (name (user (hooks w)))) &&
              truthy (trim (email (user (hooks w)))) &&
              includes (email (user (hooks w))) at_sign); split; reflexivity.
  - rewrite (Dark_no_start rx ry w HD) in Hh. discriminate Hh.
  - destruct (challengeResult (hooks w)); split; reflexivity.
  - rewrite Ht, lookup_empty. split; reflexivity.
  - rewrite Hs. split; reflexivity.
Qed.

Lemma Dark_keeps_no_result (i : Input) (w : World) :
  Dark w -> challengeResult (hooks w) = None ->
  challengeResult (hooks (step i w)) = None.
Proof.
  intros HD Hres. pose proof HD as (Hc & Ha & Hv & Hs & Ht). unfold step.
  destruct (handler i w) as [f|] eqn:Hh; [|exact Hres].
  destruct (render_fields (f w)) as (-> & _).
  destruct i as [s|s| |rx ry| |st|err|id r1 r2| ]; cbn in Hh.
  - destruct (mounted (env w) && negb (isRegistered (hooks w)));
      inversion Hh; subst f. exact Hres.
  - destruct (mounted (env w) && negb (isRegistered (hooks w)));
      inversion Hh; subst f. exact Hres.
  - destruct (mounted (env w) && negb (isRegistered (hooks w)));
      inversion Hh; subst f. unfold handleRegister.
    destruct (truthy (trim (name (user (hooks w)))) &&
              truthy (trim (email (user (hooks w)))) &&
              includes (email (user (hooks w))) at_sign); exact Hres.
  - pose proof (Dark_no_start rx ry w HD) as Hn. cbn in Hn. congruence.
  - rewrite Hres in Hh. cbn in Hh. rewrite andb_false_r in Hh.
    discriminate Hh.
  - destruct (pendingCamera (env w)); inversion Hh; subst f.
    unfold cameraGranted, startCamera_resolved. cbn. rewrite Hv. exact Hres.
  - destruct (pendingCamera (env w)); inversion Hh; subst f.
    unfold cameraFailed, startCamera_rejected.
    destruct err as [en|]; try case_bool_decide; exact Hres.
  - rewrite Ht, lookup_empty in Hh. discriminate Hh.
  - destruct (mounted (env w)); inversion Hh; subst f.
    unfold unmount, cleanup. rewrite (stopCamera_absent w Hs).
    destruct (truthyId (challengeTimerRef (refs w))); cbn;
      destruct (truthyId (dotTimerRef (refs w))); exact Hres.
Qed.

Lemma dormant_step (i : Input) (w : World) : dormant w -> dormant (step i w).
Proof.
  intros (HD & Hres & Hobs & Hmv).
  destruct (Dark_emitted i w HD) as [Eo Em].
  split; [now apply Dark_step|]. split; [now apply Dark_keeps_no_result|].
  rewrite trace_step, countdown_obs_app, moves_app, Hobs, Hmv, Eo, Em.
  split; reflexivity.
Qed.

Lemma dormant_run (l : list Input) (w : World) : dormant w -> dormant (run l w).
Proof.
  revert w. induction l as [|i l IH]; intros w Hw; [exact Hw|].
  rewrite run_cons. apply IH. now apply dormant_step.
Qed.

(** X1.  From the initial state nothing ever happens beyond the
    registration: whatever the user and the browser do, the camera
    flag stays down, no stream is stored, no challenge starts, no
    result appears, no tick, move or completion is ever observed, the
    video, the overlay and the result card are never shown and a click
    on Start Challenge changes nothing.  ([startCamera] waits for the
    video element, which is rendered only once the flag is up.) *)
Theorem initial_never_starts (l : list Input) :
  let w := run l initial in
  isCameraActive (hooks w) = false /\
  isChallengeActive (hooks w) = false /\
  challengeResult (hooks w) = None /\
  streamRef (refs w) = None /\
  timers (env w) = ∅ /\
  countdown_obs (trace (env w)) = [] /\
  moves (trace (env w)) = [] /\
  video_shown (view w) = false /\
  overlay (view w) = None /\
  result_card (view w) = None /\
  forall rx ry, step (ClickStart rx ry) w = w.
Proof.
  intros w.
  assert (H : dormant w).
  { apply dormant_run. repeat split. }
  destruct H as (HD & Hres & Hobs & Hmv).
  pose proof HD as (Hc & Ha & Hv & Hs & Ht).
  unfold view. cbn. rewrite Hc, Ha, Hres.
  repeat split; try assumption.
  intros rx ry. apply step_disabled. now apply Dark_no_start.
Qed.

(** ** Registration, once made *)

Lemma registered_emitted (i : Input) (w : World) :
  isRegistered (hooks w) = true -> camera_requests (emitted i w) = [].
Proof.
  intros Hr. unfold emitted.
  destruct (handler i w) as [f|] eqn:Hh; [|reflexivity].
  destruct i as [s|s| |rx ry| |st|err|id r1 r2| ]; try reflexivity.
  - cbn in Hh. rewrite Hr, andb_false_r in Hh. discriminate Hh.
  - destruct (challengeResult (hooks w)); reflexivity.
  - destruct (timers (env w) !! id) as [t|]; [|reflexivity].
    destruct (callback t); [|reflexivity].
    destruct (timeLeft (hooks w) <=? 1); reflexivity.
  - destruct (streamRef (refs w)) as [s|]; [|reflexivity].
    induction (tracks s) as [|a tl IH]; [reflexivity|exact IH].
Qed.

Lemma camera_requests_app (l1 l2 : list (Z * Obs)) :
  camera_requests (l1 ++ l2) = camera_requests l1 ++ camera_requests l2.
Proof. apply omap_app. Qed.

(** X2.  Registration is final: once the flag is up it stays up under
    every input, the name and email never change again (the form is
    gone, the banner shows them), and the camera is never requested
    again. *)
Theorem registration_is_final (l : list Input) (w : World) :
  isRegistered (hooks w) = true ->
  let w' := run l w in
  isRegistered (hooks w') = true /\
  user (hooks w') = user (hooks w) /\
  panel (view w') = Banner (name (user (hooks w))) (email (user (hooks w))) /\
  camera_requests (since w w') = [].
Proof.
  intros Hr w'. subst w'.
  assert (H : isRegistered (hooks (run l w)) = true /\
              user (hooks (run l w)) = user (hooks w) /\
              camera_requests (since w (run l w)) = []).
  { revert w Hr. induction l as [|i l IH]; intros w Hr.
    - cbn. rewrite since_refl. auto.
    - destruct (proj1 (step_registration i w) Hr) as [Hr' Hu'].
      destruct (IH _ Hr') as (H1 & H2 & H3).
      rewrite since_run_cons, camera_requests_app, H3,
        (registered_emitted i w Hr), run_cons.
      split; [exact H1|]. split; [congruence|reflexivity]. }
  destruct H as (H1 & H2 & H3).
  unfold view. cbn. rewrite H1, H2. auto.
Qed.

(** X3.  Whoever is registered has a valid registration: if the flag
    is up after any sequence of inputs, the trimmed name is not empty
    and the email contains an at sign, provided this held at the
    start (as it does in the initial state, where the flag is down). *)
Theorem registered_user_is_valid (l : list Input) (w : World) :
  (isRegistered (hooks w) = true -> valid_registration (user (hooks w))) ->
  isRegistered (hooks (run l w)) = true ->
  valid_registration (user (hooks (run l w))).
Proof.
  revert w. induction l as [|i l IH]; intros w Hw Hr; [now apply Hw|].
  rewrite run_cons in *. apply IH; [|exact Hr].
  intros Hr'. destruct (isRegistered (hooks w)) eqn:E.
  - destruct (proj1 (step_registration i w) E) as [_ ->]. now apply Hw.
  - destruct (proj2 (step_registration i w) E Hr') as (_ & Hv & ->).
    exact Hv.
Qed.

(** ** The camera request *)

Lemma cleanup_pending (w : World) :
  pendingCamera (env (cleanup w)) = pendingCamera (env w).
Proof.
  assert (H : pendingCamera (env (cleanup w))
              = pendingCamera (env (stopCamera w))).
  { unfold cleanup.
    destruct (truthyId (challengeTimerRef (refs (stopCamera w))));
      cbn; destruct (truthyId (dotTimerRef (refs (stopCamera w))));
      reflexivity. }
  rewrite H. clear H. unfold stopCamera.
  destruct (streamRef (refs w)) as [s|]; [|reflexivity]. cbn.
  generalize (tracks s). intros l. revert w.
  induction l as [|a l IH]; intros w; [reflexivity|].
  cbn [foldl]. now rewrite IH.
Qed.

(** A step either leaves the registration and the requests as they are,
    closing at most an open request, or it is the registration: the
    flag goes up and one request goes out. *)
Lemma step_requests (i : Input) (w : World) :
  (isRegistered (hooks (step i w)) = isRegistered (hooks w) /\
   camera_requests (emitted i w) = [] /\
   (pendingCamera (env (step i w)) <= pendingCamera (env w))%nat) \/
  (isRegistered (hooks w) = false /\
   isRegistered (hooks (step i w)) = true /\
   camera_requests (emitted i w) = [(1280, 720)] /\
   pendingCamera (env (step i w)) = S (pendingCamera (env w))).
Proof.
  unfold step, emitted. destruct (handler i w) as [f|] eqn:Hh; [|left; auto].
  destruct (render_fields (f w)) as (-> & -> & _).
  destruct i as [s|s| |rx ry| |st|err|id r1 r2| ]; cbn in Hh.
  - destruct (mounted (env w) && negb (isRegistered (hooks w)));
      inversion Hh; subst f. left. auto.
  - destruct (mounted (env w) && negb (isRegistered (hooks w)));
      inversion Hh; subst f. left. auto.
  - destruct (mounted (env w)), (isRegistered (hooks w)) eqn:Er;
      inversion Hh; subst f. unfold handleRegister.
    destruct (truthy (trim (name (user (hooks w)))) &&
              truthy (trim (email (user (hooks w)))) &&
              includes (email (user (hooks w))) at_sign); cbn.
    + right. auto.
    + left. auto.
  - destruct (mounted (env w)); [|discriminate Hh].
    destruct (isRegistered (hooks w)) eqn:Er; [|discriminate Hh].
    unfold start_disabled in Hh.
    destruct (isCameraActive (hooks w)) eqn:Ec; [|discriminate Hh].
    destruct (isChallengeActive (hooks w)); inversion Hh; subst f.
    destruct (startChallenge_frame rx ry w Ec)
      as (_ & -> & _ & _ & _ & -> & _).
    left. auto.
  - destruct (mounted (env w) && isRegistered (hooks w) &&
              bool_decide (is_Some (challengeResult (hooks w))));
      inversion Hh; subst f. unfold submitResult.
    destruct (challengeResult (hooks w)); left; auto.
  - destruct (pendingCamera (env w)) eqn:Ep; inversion Hh; subst f.
    unfold cameraGranted, startCamera_resolved. cbn. rewrite Ep.
    destruct (videoRef (refs w)); left; cbn; repeat split; lia.
  - destruct (pendingCamera (env w)) eqn:Ep; inversion Hh; subst f.
    unfold cameraFailed, startCamera_rejected.
    destruct err as [en|]; try case_bool_decide; left; cbn; rewrite Ep;
      repeat split; cbn; lia.
  - destruct (timers (env w) !! id) as [t|] eqn:Ht; inversion Hh; subst f.
    destruct (fire_frame id r1 r2 w) as (_ & -> & _ & _ & _ & -> & _).
    left. repeat split; [|lia].
    destruct (callback t); [|reflexivity].
    destruct (timeLeft (hooks w) <=? 1); reflexivity.
  - destruct (mounted (env w)); inversion Hh; subst f.
    destruct (cleanup_hooks w) as (_ & Hr & _).
    left. unfold unmount. cbn. rewrite Hr. split; [reflexivity|]. split.
    + destruct (streamRef (refs w)) as [s|]; [|reflexivity].
      induction (tracks s) as [|a tl IH]; [reflexivity|exact IH].
    + rewrite cleanup_pending. lia.
Qed.

Lemma requests_match_step (i : Input) (w : World) :
  requests_match w -> requests_match (step i w).
Proof.
  unfold requests_match. intros [Hn Hp].
  rewrite trace_step, camera_requests_app, length_app, Hn.
  rewrite Hn in Hp.
  destruct (step_requests i w) as [(Hr & He & Hle)|(Hr & Hr' & He & Hs)];
    rewrite He; cbn [length].
  - rewrite Hr, app_nil_r. split; [reflexivity|lia].
  - rewrite Hr in *. rewrite Hr'. cbn in *. split; [reflexivity|lia].
Qed.

(** X4.  The camera is asked for once at most: in every state reached
    from the initial one the trace holds exactly one [getUserMedia]
    request, for 1280 by 720, if the user is registered and none
    otherwise, and at most one request is open.  After a failure there
    is no second try. *)
Theorem camera_requested_once (l : list Input) :
  let w := run l initial in
  camera_requests (trace (env w)) =
    (if isRegistered (hooks w) then [(1280, 720)] else []) /\
  (pendingCamera (env w) <= 1)%nat /\
  (isRegistered (hooks w) = false -> pendingCamera (env w) = 0%nat).
Proof.
  intros w.
  assert (H : requests_match w).
  { subst w. assert (H0 : requests_match initial) by (split; reflexivity).
    revert H0. generalize initial. induction l as [|i l IH]; intros w Hw;
      [exact Hw|]. rewrite run_cons. apply IH. now apply requests_match_step. }
  destruct H as [Hn Hp]. split; [exact Hn|]. rewrite Hn in Hp.
  destruct (isRegistered (hooks w)); cbn in Hp; split; try lia; try discriminate.
Qed.

(** ** A refused camera *)

(** X5.  When the camera request fails, [startCamera] logs the error
    and shows one alert, and changes nothing else: the registration
    stands, the camera stays as it was, no timer and no track is
    touched.  The alert is the one about denied access exactly when
    the error is a [DOMException] named [NotAllowedError]; every other
    error gets the alert that the camera is required.  With the camera
    flag down, Start Challenge stays without effect afterwards. *)
Theorem camera_failure_is_reported (error : JsError) (w : World) :
  let w' := cameraFailed error w in
  hooks w' = hooks w /\
  refs w' = refs w /\
  timers (env w') = timers (env w) /\
  liveTracks (env w') = liveTracks (env w) /\
  since w w' = [(now (env w), ConsoleError error);
                (now (env w), Alert (camera_error_message error))] /\
  (camera_error_message error = msg_denied <->
   error = DOMException (lit "NotAllowedError")) /\
  (camera_error_message error <> msg_denied ->
   camera_error_message error = msg_required) /\
  (isCameraActive (hooks w) = false ->
   forall rx ry,
     step (ClickStart rx ry) (step (CameraFailed error) w)
     = step (CameraFailed error) w).
Proof.
  assert (Hne : msg_required <> msg_denied) by discriminate.
  split; [|split; [|split; [|split; [|split; [|split; [|split]]]]]].
  - unfold cameraFailed, startCamera_rejected.
    destruct error as [n|]; try case_bool_decide; reflexivity.
  - unfold cameraFailed, startCamera_rejected.
    destruct error as [n|]; try case_bool_decide; reflexivity.
  - unfold cameraFailed, startCamera_rejected.
    destruct error as [n|]; try case_bool_decide; reflexivity.
  - unfold cameraFailed, startCamera_rejected.
    destruct error as [n|]; try case_bool_decide; reflexivity.
  - unfold cameraFailed, startCamera_rejected, camera_error_message.
    destruct error as [n|]; try case_bool_decide;
      apply since_app; cbn; now rewrite <- app_assoc.
  - unfold camera_error_message.
    destruct error as [n|]; try case_bool_decide; split; intros Hx;
      try congruence.

  - unfold camera_error_message.
    destruct error as [n|]; try case_bool_decide; congruence.
  - intros Hc rx ry. apply step_disabled. cbn. unfold start_disabled.
    assert (E : isCameraActive (hooks (step (CameraFailed error) w)) = false).
    { unfold step. destruct (handler (CameraFailed error) w) as [f|] eqn:Hh;
        [|exact Hc].
      destruct (render_fields (f w)) as (-> & _).
      cbn in Hh. destruct (pendingCamera (env w)); inversion Hh; subst f.
      unfold cameraFailed, startCamera_rejected.
      destruct error as [en|]; try case_bool_decide; exact Hc. }
    rewrite E. cbn. now rewrite andb_false_r.
Qed.

(** ** The dot on the screen *)

(** X8.  The dot never leaves the band between 10% and 90% of the
    viewport: if the stored position lies in the band (as the position
    the component starts with, the centre, does), it still does after
    any inputs whose random numbers are draws from the unit interval,
    and whenever the overlay is on the screen the dot is drawn with
    [left] and [top] between 10% and 90%.  The values are those of
    the binary64 arithmetic of [moveDot] ([coordinate]). *)
Theorem dot_stays_in_band (l : list Input) (w : World) :
  Forall draws_ok l ->
  in_viewport_band (dotPosition (hooks w)) ->
  in_viewport_band (dotPosition (hooks (run l w))) /\
  forall o, overlay (view (run l w)) = Some o ->
    (10 <= dot_left o <= 90 /\ 10 <= dot_top o <= 90)%Q.
Proof.
  intros Hl Hw.
  assert (H : in_viewport_band (dotPosition (hooks (run l w)))).
  { revert w Hw. induction Hl as [|i l Hi Hl IH]; intros w Hw; [exact Hw|].
    rewrite run_cons. apply IH.
    destruct (step_dotPosition i w) as [->|(rx & ry & Hin & ->)];
      [exact Hw|].
    destruct Hin as [->|[id ->]]; destruct Hi; now apply draw_in_band. }
  split; [exact H|].
  intros o Ho. unfold view in Ho. cbn in Ho.
  destruct (isChallengeActive (hooks (run l w))); inversion Ho. cbn.
  revert H. unfold in_viewport_band, viewport_fraction, Qdiv.
  change (/ 100)%Q with (1 # 100)%Q.
  intros (B1 & B2 & B3 & B4). repeat split; lra.
Qed.

(** ** The camera while the component lives *)

Lemma track_stops_app (l1 l2 : list (Z * Obs)) :
  track_stops (l1 ++ l2) = track_stops l1 ++ track_stops l2.
Proof. apply omap_app. Qed.

Lemma emitted_no_stop (i : Input) (w : World) :
  i <> Unmount -> track_stops (emitted i w) = [].
Proof.
  intros Hnu. unfold emitted.
  destruct (handler i w) as [f|]; [|reflexivity].
  destruct i as [s|s| |rx ry| |st|err|id r1 r2| ]; try reflexivity;
    try congruence.
  - destruct (truthy (trim (name (user (hooks w)))) &&
              truthy (trim (email (user (hooks w)))) &&
              includes (email (user (hooks w))) at_sign); reflexivity.
  - destruct (challengeResult (hooks w)); reflexivity.
  - destruct (timers (env w) !! id) as [t|]; [|reflexivity].
    destruct (callback t); [|reflexivity].
    destruct (timeLeft (hooks w) <=? 1); reflexivity.
Qed.

(** X11.  Nothing but the unmount turns the camera off: as long as the
    component is not unmounted it stays mounted, no track is ever
    stopped, every track that is capturing keeps capturing, and a
    camera flag that is up stays up (the video stays on the screen). *)
Theorem camera_stays_on_until_unmount (l : list Input) (w : World) :
  uncancelled l ->
  let w' := run l w in
  mounted (env w') = mounted (env w) /\
  track_stops (since w w') = [] /\
  liveTracks (env w) ⊆ liveTracks (env w') /\
  (isCameraActive (hooks w) = true ->
   isCameraActive (hooks w') = true /\ video_shown (view w') = true).
Proof.
  intros Hl w'. subst w'.
  revert w. induction Hl as [|i l Hi Hl IH]; intros w.
  - cbn. rewrite since_refl. repeat split; auto.
  - destruct (step_keeps_camera i w Hi) as (Hm & Ht & Hc).
    destruct (IH (step i w)) as (Hm' & Hs' & Ht' & Hc').
    rewrite since_run_cons, track_stops_app, Hs', (emitted_no_stop i w Hi),
      run_cons.
    split; [congruence|]. split; [reflexivity|].
    split; [etransitivity; eassumption|]. auto.
Qed.

(** ** After the unmount *)

Lemma torn_down_frozen (i : Input) (w : World) :
  torn_down w ->
  hooks (step i w) = hooks w /\ refs (step i w) = refs w /\
  torn_down (step i w).
Proof.
  intros Hw. pose proof Hw as (Hm & Ht & Hv).
  destruct (torn_down_step i w Hw) as (Hw' & _).
  split; [|split; [|exact Hw']].
  - unfold step. destruct (handler i w) as [f|] eqn:Hh; [|reflexivity].
    destruct (render_fields (f w)) as (-> & _).
    destruct i as [s|s| |rx ry| |st|err|id r1 r2| ]; cbn in Hh;
      rewrite ?Hm, ?Ht, ?lookup_empty in Hh; try discriminate Hh.
    + destruct (pendingCamera (env w)); inversion Hh; subst f.
      unfold cameraGranted, startCamera_resolved. cbn. now rewrite Hv.
    + destruct (pendingCamera (env w)); inversion Hh; subst f.
      unfold cameraFailed, startCamera_rejected.
      destruct err as [en|]; try case_bool_decide; reflexivity.
  - unfold step. destruct (handler i w) as [f|] eqn:Hh; [|reflexivity].
    assert (Hf : refs (f w) = refs w /\ mounted (env (f w)) = false).
    { destruct i as [s|s| |rx ry| |st|err|id r1 r2| ]; cbn in Hh;
        rewrite ?Hm, ?Ht, ?lookup_empty in Hh; try discriminate Hh.
      - destruct (pendingCamera (env w)); inversion Hh; subst f.
        unfold cameraGranted, startCamera_resolved. cbn. now rewrite Hv.
      - destruct (pendingCamera (env w)); inversion Hh; subst f.
        unfold cameraFailed, startCamera_rejected.
        destruct err as [en|]; try case_bool_decide; auto. }
    destruct Hf as [Hf Hfm]. unfold render. rewrite Hfm. cbn.
    rewrite <- Hf in Hv. rewrite <- Hf.
    destruct (refs (f w)). cbn in *. now rewrite Hv.
Qed.

(** X13.  No state is set on an unmounted component: after the unmount
    no input changes the hook state or the refs any more, no timer
    comes back and the component stays unmounted; a camera answer that
    arrives late is dropped or, for an error, only reported. *)
Theorem unmounted_state_is_frozen (l : list Input) (w : World) :
  torn_down w ->
  hooks (run l w) = hooks w /\
  refs (run l w) = refs w /\
  torn_down (run l w).
Proof.
  revert w. induction l as [|i l IH]; intros w Hw; [auto|].
  destruct (torn_down_frozen i w Hw) as (Hh & Hr & Hw').
  destruct (IH _ Hw') as (Hh' & Hr' & Ht').
  rewrite run_cons. repeat split; try congruence; apply Ht'.
Qed.

Lemma torn_down_unmounted (w : World) :
  Inv w -> mounted (env w) = true -> torn_down (step Unmount w).
Proof.
  intros HI Hm. rewrite (unmount_step w Hm).
  repeat split. exact (Inv_cleanup w HI).
Qed.

(** ** The clock on the screen *)

Lemma cleanup_clock (w : World) :
  isChallengeActive (hooks (cleanup w)) = isChallengeActive (hooks w) /\
  timeLeft (hooks (cleanup w)) = timeLeft (hooks w) /\
  challengeResult (hooks (cleanup w)) = challengeResult (hooks w).
Proof.
  assert (H : hooks (cleanup w) = hooks (stopCamera w)).
  { unfold cleanup.
    destruct (truthyId (challengeTimerRef (refs (stopCamera w))));
      cbn; destruct (truthyId (dotTimerRef (refs (stopCamera w))));
      reflexivity. }
  rewrite H. unfold stopCamera.
  destruct (streamRef (refs w)) as [s|]; [|auto].
  destruct (foldl_stopTrack_frame (tracks s) w) as (H1 & _).
  cbn. rewrite H1. auto.
Qed.

(** How one input moves the clock: not at all, to 6 with a challenge
    started, one down while the challenge runs, or the challenge is
    not (or no longer) active. *)
Lemma step_clock (i : Input) (w : World) :
  Inv w ->
  let w' := step i w in
  (isChallengeActive (hooks w') = isChallengeActive (hooks w) /\
   timeLeft (hooks w') = timeLeft (hooks w)) \/
  (isChallengeActive (hooks w') = true /\ timeLeft (hooks w') = 6) \/
  isChallengeActive (hooks w') = false \/
  (isChallengeActive (hooks w) = true /\
   1 < timeLeft (hooks w) /\ timeLeft (hooks w') = timeLeft (hooks w) - 1).
Proof.
  intros HI w'. subst w'. unfold step.
  destruct (handler i w) as [f|] eqn:Hh; [|left; auto].
  destruct (render_fields (f w)) as (-> & _).
  destruct i as [s|s| |rx ry| |st|err|id r1 r2| ]; cbn in Hh.
  - destruct (mounted (env w) && negb (isRegistered (hooks w)));
      inversion Hh; subst f. left; auto.
  - destruct (mounted (env w) && negb (isRegistered (hooks w)));
      inversion Hh; subst f. left; auto.
  - destruct (mounted (env w) && negb (isRegistered (hooks w)));
      inversion Hh; subst f. unfold handleRegister.
    destruct (truthy (trim (name (user (hooks w)))) &&
              truthy (trim (email (user (hooks w)))) &&
              includes (email (user (hooks w))) at_sign); left; auto.
  - destruct (mounted (env w)) eqn:Em; [|discriminate Hh].
    destruct (isRegistered (hooks w)); [|discriminate Hh].
    unfold start_disabled in Hh.
    destruct (isCameraActive (hooks w)) eqn:Ec; [|discriminate Hh].
    destruct (isChallengeActive (hooks w)); inversion Hh; subst f.
    destruct (startChallenge_fields rx ry w Ec)
      as (_ & _ & _ & _ & Ha & _ & Ht & _).
    right; left. auto.
  - destruct (mounted (env w)) eqn:Em; [|discriminate Hh].
    destruct (isRegistered (hooks w)); [|discriminate Hh].
    destruct (challengeResult (hooks w)) as [res|] eqn:Er;
      [|cbn in Hh; discriminate Hh].
    inversion Hh; subst f.
    right; right; left. unfold submitResult. rewrite Er. cbn.
    destruct (isChallengeActive (hooks w)) eqn:Ea; [|reflexivity].
    destruct (inv_running w HI Ea Em) as (Hn & _). congruence.
  - destruct (pendingCamera (env w)); inversion Hh; subst f.
    unfold cameraGranted, startCamera_resolved. cbn.
    destruct (videoRef (refs w)); left; auto.
  - destruct (pendingCamera (env w)); inversion Hh; subst f.
    unfold cameraFailed, startCamera_rejected.
    destruct err as [en|]; try case_bool_decide; left; auto.
  - destruct (timers (env w) !! id) as [t|] eqn:Et; inversion Hh; subst f.
    destruct (inv_tracked w HI id t Et) as (_ & _ & [(_ & Hcb)|(_ & e & Hcb)]).
    + destruct (fire_tick_fields id r1 r2 t w Et Hcb) as (_ & _ & Hf).
      destruct (timeLeft (hooks w) <=? 1) eqn:El.
      * right; right; left. apply Hf.
      * right; right; right. apply Z.leb_gt in El.
        split; [|split; [lia|apply Hf]].
        destruct (isChallengeActive (hooks w)) eqn:Ea; [reflexivity|].
        rewrite (inv_quiet w HI) in Et by now left.
        rewrite lookup_empty in Et. discriminate Et.
    + destruct (fire_dot_fields id r1 r2 t e w Et Hcb)
        as (_ & _ & Ha & Ht & _).
      left; auto.
  - destruct (mounted (env w)); inversion Hh; subst f.
    unfold unmount. cbn.
    destruct (cleanup_clock w) as (Ha & Ht & _). left; auto.
Qed.

(** X7.  Whenever the challenge overlay is on the screen its timer
    shows a number from 1 to 6, whatever the user, the timers and the
    camera do, over any number of challenges: the countdown never
    shows 0 or less, because the callback that would take it there
    ends the challenge in the same update. *)
Theorem countdown_display_in_range (l : list Input) (w : World) :
  Inv w ->
  (isChallengeActive (hooks w) = true -> 1 <= timeLeft (hooks w) <= 6) ->
  forall o, overlay (view (run l w)) = Some o -> 1 <= timer_text o <= 6.
Proof.
  intros HI Hr o Ho.
  assert (H : isChallengeActive (hooks (run l w)) = true ->
              1 <= timeLeft (hooks (run l w)) <= 6).
  { clear o Ho. revert w HI Hr.
    induction l as [|i l IH]; intros w HI Hr; [exact Hr|].
    rewrite run_cons. apply IH; [now apply Inv_step|].
    intros Ha.
    destruct (step_clock i w HI)
      as [(E1 & E2)|[(_ & E2)|[E|(E0 & E1 & E2)]]].
    - rewrite E2. apply Hr. congruence.
    - rewrite E2. lia.
    - congruence.
    - rewrite E2. specialize (Hr E0). lia. }
  unfold view in Ho. cbn in Ho.
  destruct (isChallengeActive (hooks (run l w))); inversion Ho. cbn.
  now apply H.
Qed.

(** ** The phases of the screen *)

(** X6.  A mounted component shows exactly one of three screens.
    While a challenge runs: the overlay, no result card, no Submit
    button, the Start button disabled and the status [In Progress].
    With a verdict stored: no overlay, the result card, the Submit
    button, and the status indicator showing the same PASS or FAIL as
    the card's badge, with the check icon and the headline
    [Authentication Successful] exactly for PASS.  Otherwise neither
    overlay nor card, no Submit button and the status [Ready].  In
    particular the overlay and the result card are never on the
    screen together. *)
Theorem view_shows_one_phase (l : list Input) (w : World) :
  Inv w -> mounted (env (run l w)) = true ->
  let v := view (run l w) in
  (is_Some (overlay v) /\ result_card v = None /\
   forall c, controls v = Some c ->
     start_is_disabled c = true /\ submit_shown c = false /\
     challenge_status c = lit "In Progress")
  \/
  (overlay v = None /\
   exists card, result_card v = Some card /\
     (badge card = lit "PASS" \/ badge card = lit "FAIL") /\
     (check_icon card = true <-> badge card = lit "PASS") /\
     (headline card = lit "Authentication Successful" <->
      badge card = lit "PASS") /\
     forall c, controls v = Some c ->
       submit_shown c = true /\ challenge_status c = badge card /\
       start_is_disabled c = negb (video_shown v))
  \/
  (overlay v = None /\ result_card v = None /\
   forall c, controls v = Some c ->
     submit_shown c = false /\ challenge_status c = lit "Ready" /\
     start_is_disabled c = negb (video_shown v)).
Proof.
  intros HI Hm v. subst v.
  pose proof (Inv_run l w HI) as HI'.
  set (w' := run l w) in *.
  unfold view, start_disabled. cbn.
  destruct (isChallengeActive (hooks w')) eqn:Ea.
  - left. destruct (inv_running w' HI' Ea Hm) as (-> & _).
    split; [eexists; reflexivity|]. split; [reflexivity|].
    intros c Hc. destruct (isRegistered (hooks w')); inversion Hc. cbn.
    now rewrite orb_true_r.
  - destruct (challengeResult (hooks w')) as [res|] eqn:Er.
    + right; left. split; [reflexivity|]. eexists. split; [reflexivity|].
      cbn. destruct (status res); cbn.
      * split; [now left|]. split; [tauto|]. split; [tauto|].
        intros c Hc. destruct (isRegistered (hooks w')); inversion Hc. cbn.
        now rewrite orb_false_r.
      * split; [now right|].
        split; [split; intros Hx; discriminate Hx|].
        split; [split; intros Hx; discriminate Hx|].
        intros c Hc. destruct (isRegistered (hooks w')); inversion Hc. cbn.
        now rewrite orb_false_r.
    + right; right. split; [reflexivity|]. split; [reflexivity|].
      intros c Hc. destruct (isRegistered (hooks w')); inversion Hc. cbn.
      now rewrite orb_false_r.
Qed.

(** ** The timers alive *)

Lemma tracked_size (w : World) : tracked w -> (size (timers (env w)) <= 2)%nat.
Proof.
  intros Ht.
  set (S1 := match challengeTimerRef (refs w) with
             | Some i => {[i]} | None => ∅ end : gset nat).
  set (S2 := match dotTimerRef (refs w) with
             | Some i => {[i]} | None => ∅ end : gset nat).
  assert (Hsub : dom (timers (env w)) ⊆ S1 ∪ S2).
  { intros j Hj. apply elem_of_dom in Hj as [t Hj].
    destruct (Ht j t Hj) as (_ & _ & [(Hc & _)|(Hd & _)]).
    - apply elem_of_union_l. unfold S1. rewrite Hc. now apply elem_of_singleton.
    - apply elem_of_union_r. unfold S2. rewrite Hd. now apply elem_of_singleton. }
  rewrite <- size_dom. apply subseteq_size in Hsub.
  rewrite size_union_alt in Hsub.
  assert (H1 : (size S1 <= 1)%nat).
  { unfold S1. destruct (challengeTimerRef (refs w));
      [rewrite size_singleton|rewrite size_empty]; lia. }
  assert (H2 : (size (S2 ∖ S1) <= 1)%nat).
  { etransitivity; [apply subseteq_size, subseteq_difference_l; reflexivity|].
    unfold S2. destruct (dotTimerRef (refs w));
      [rewrite size_singleton|rewrite size_empty]; lia. }
  lia.
Qed.

(** X12.  No timer leaks: in every state the component reaches there
    are at most two live timers, two live timers never run the same
    kind of callback (so there is at most one countdown interval and
    at most one pending dot move), and there is none at all while no
    challenge is active or after the unmount. *)
Theorem at_most_two_timers (l : list Input) (w : World) :
  Inv w ->
  let w' := run l w in
  (size (timers (env w')) <= 2)%nat /\
  (forall i j ti tj,
     timers (env w') !! i = Some ti -> timers (env w') !! j = Some tj ->
     (callback ti = CountdownTick <-> callback tj = CountdownTick) ->
     i = j) /\
  (isChallengeActive (hooks w') = false -> timers (env w') = ∅) /\
  (mounted (env w') = false -> timers (env w') = ∅).
Proof.
  intros HI w'. pose proof (Inv_run l w HI) as HI'. fold w' in HI'.
  split; [apply tracked_size, (inv_tracked w' HI')|].
  split; [|split; intros H; apply (inv_quiet w' HI'); auto].
  intros i j ti tj Hi Hj Hk.
  destruct (inv_tracked w' HI' i ti Hi) as (_ & _ & [(Ei & Ci)|(Ei & ei & Ci)]);
    destruct (inv_tracked w' HI' j tj Hj)
      as (_ & _ & [(Ej & Cj)|(Ej & ej & Cj)]).
  - congruence.
  - apply Hk in Ci. congruence.
  - apply Hk in Cj. congruence.
  - congruence.
Qed.

(** ** The time a verdict takes *)

Lemma completions_app (l1 l2 : list (Z * Obs)) :
  completions (l1 ++ l2) = completions l1 ++ completions l2.
Proof. apply omap_app. Qed.

Lemma quiet_obs (t0 : Z) (l : list (Z * Obs)) :
  countdown_obs l = [] -> completions l = [] /\ Forall (on_time t0) l.
Proof.
  induction l as [|[T o] l IH]; intros H; [split; [reflexivity|constructor]|].
  unfold countdown_obs in H. cbn in H.
  destruct o; cbn in H; try discriminate H;
    (destruct (IH H) as (H1 & H2); split;
     [exact H1|constructor; [exact I|exact H2]]).
Qed.

Lemma since_step (i : Input) (w0 w : World) :
  trace_extends w0 w ->
  since w0 (step i w) = since w0 w ++ emitted i w.
Proof.
  intros H. rewrite (since_trans w0 w (step i w) H (step_extends i w)).
  now rewrite step_emits.
Qed.

Lemma verdict_start (rx ry : Q) (w : World) :
  Inv w -> device_idle w ->
  verdict_progress w (step (ClickStart rx ry) w).
Proof.
  intros HI Hidle.
  rewrite (clickStart_enabled rx ry w Hidle).
  destruct Hidle as (Hm & Hr & Hc & Ha).
  destruct (render_fields (startChallenge rx ry w)) as (Eh & Ee & _).
  destruct (startChallenge_fields rx ry w Hc)
    as (Ht & _ & _ & _ & Ha' & _ & Htl & _ & _ & Hc' & Hr' & Htr).
  assert (Hs : since w (render (startChallenge rx ry w)) =
               [(now (env w),
                 Move {| pos_x := coordinate rx; pos_y := coordinate ry |}%Q)]).
  { apply since_app. rewrite Ee. exact Htr. }
  split; rewrite ?Eh, ?Ee, ?Hs.
  - congruence.
  - exact Hc'.
  - repeat constructor.
  - intros _. split; [reflexivity|]. intros i t Hi Hcb.
    rewrite Ht, (inv_quiet w HI) in Hi by now left.
    apply lookup_insert_Some in Hi as [(_ & <-)|(_ & Hi)];
      [discriminate Hcb|].
    apply lookup_insert_Some in Hi as [(_ & <-)|(_ & Hi)];
      [|rewrite lookup_empty in Hi; discriminate Hi].
    cbn. rewrite Htl. lia.
  - intros Hx. congruence.
Qed.

Lemma verdict_step (i : Input) (w0 w : World) :
  challenge_progress w0 w -> verdict_progress w0 w ->
  isChallengeActive (hooks w) = true -> i <> Unmount ->
  verdict_progress w0 (step i w).
Proof.
  intros Hcp Hvp Ha Hnu.
  pose proof (cp_inv _ _ Hcp) as HI.
  pose proof (cp_mounted _ _ Hcp) as Hm.
  pose proof (cp_extends _ _ Hcp) as Hext.
  destruct (vp_clock _ _ Hvp Ha) as (Hpend & Hdue).
  assert (Hk : 1 <= timeLeft (hooks w) <= 6).
  { destruct (cp_countdown _ _ Hcp) as [(_ & Hk & _)|(Hx & _)];
      [exact Hk|congruence]. }
  (* an input that leaves the countdown alone *)
  assert (Hquiet : timers (env (step i w)) = timers (env w) ->
                   isChallengeActive (hooks (step i w)) = true ->
                   timeLeft (hooks (step i w)) = timeLeft (hooks w) ->
                   countdown_obs (emitted i w) = [] ->
                   verdict_progress w0 (step i w)).
  { intros Et Ea Etl Eo.
    destruct (quiet_obs (now (env w0)) _ Eo) as (Hc0 & Hp0).
    split; rewrite ?(since_step i w0 w Hext).
    - apply (step_registration i w), (vp_registered _ _ Hvp).
    - apply (step_keeps_camera i w Hnu), (vp_camera _ _ Hvp).
    - apply Forall_app. split; [exact (vp_paced _ _ Hvp)|exact Hp0].
    - intros _. rewrite completions_app, Hpend, Hc0. split; [reflexivity|].
      rewrite Et, Etl. exact Hdue.
    - intros Hx. congruence. }
  destruct i as [s|s| |rx ry| |st|err|id r1 r2| ]; try congruence.
  1-7: match goal with |- verdict_progress _ (step ?i _) =>
         destruct (quiet_step i w HI Hm Ha) as (Q1 & _ & Q3 & Q4 & Q5 & _);
           [intros []|discriminate|];
         apply Hquiet; [exact Q1|congruence|exact Q4|];
         rewrite <- step_emits; exact Q5
       end.
  destruct (timers (env w) !! id) as [t|] eqn:Et;
    [|rewrite fire_none by exact Et; exact Hvp].
  assert (Hstep : step (Fire id r1 r2) w = render (fire id r1 r2 w)).
  { unfold step. cbn [handler]. now rewrite Et. }
  assert (Hem : emitted (Fire id r1 r2) w =
    let T := Z.max (now (env w)) (due t) in
    match callback t with
    | CountdownTick =>
        if timeLeft (hooks w) <=? 1
        then [(T, Complete); (T, Tick 0)]
        else [(T, Tick (timeLeft (hooks w) - 1))]
    | MoveDot _ =>
        [(T, Move {| pos_x := coordinate r1; pos_y := coordinate r2 |}%Q)]
    end).
  { unfold emitted. cbn [handler]. now rewrite Et. }
  destruct (render_fields (fire id r1 r2 w)) as (Eh & Ee & _).
  destruct (inv_tracked w HI id t Et) as (_ & _ & [(Ei & Hcb)|(Ei & e & Hcb)]).
  - (* the countdown callback *)
    pose proof (Hdue id t Et Hcb) as Hd.
    destruct (fire_tick_fields id r1 r2 t w Et Hcb) as (_ & _ & Hf).
    rewrite Hcb in Hem. cbn zeta in Hem.
    destruct (timeLeft (hooks w) <=? 1) eqn:El.
    + apply Z.leb_le in El. destruct Hf as (Fa & Ftl & Fres).
      split; rewrite ?(since_step _ w0 w Hext), ?Hem.
      * apply (step_registration (Fire id r1 r2) w), (vp_registered _ _ Hvp).
      * apply (step_keeps_camera (Fire id r1 r2) w Hnu), (vp_camera _ _ Hvp).
      * apply Forall_app. split; [exact (vp_paced _ _ Hvp)|].
        repeat constructor; unfold on_time; cbn; lia.
      * rewrite Hstep, Eh, Fa. discriminate.
      * intros _. rewrite Hstep, Eh, Fres. eexists. split; [reflexivity|].
        split; [reflexivity|]. rewrite completions_app, Hpend. reflexivity.
    + apply Z.leb_gt in El. destruct Hf as (Fa & Ftl & Ft).
      split; rewrite ?(since_step _ w0 w Hext), ?Hem.
      * apply (step_registration (Fire id r1 r2) w), (vp_registered _ _ Hvp).
      * apply (step_keeps_camera (Fire id r1 r2) w Hnu), (vp_camera _ _ Hvp).
      * apply Forall_app. split; [exact (vp_paced _ _ Hvp)|].
        repeat constructor; unfold on_time; cbn; lia.
      * intros _. rewrite completions_app, Hpend. split; [reflexivity|].
        intros j tj Hj Hcj. rewrite Hstep, Ee, Ft in Hj. rewrite Hstep, Eh, Ftl.
        apply lookup_insert_Some in Hj as [(_ & <-)|(Hne & Hj)]; [cbn; lia|].
        destruct (inv_tracked w HI j tj Hj)
          as (_ & _ & [(Ej & _)|(_ & ej & Cj)]); congruence.
      * rewrite Hstep, Eh, Fa, Ha. discriminate.
  - (* a dot move *)
    rewrite Hcb in Hem. cbn zeta in Hem.
    destruct (fire_dot_fields id r1 r2 t e w Et Hcb)
      as (_ & _ & Fa & Ftl & _ & _ & Ft).
    split; rewrite ?(since_step _ w0 w Hext), ?Hem.
    + apply (step_registration (Fire id r1 r2) w), (vp_registered _ _ Hvp).
    + apply (step_keeps_camera (Fire id r1 r2) w Hnu), (vp_camera _ _ Hvp).
    + apply Forall_app. split; [exact (vp_paced _ _ Hvp)|].
      repeat constructor.
    + intros _. rewrite completions_app, Hpend. split; [reflexivity|].
      intros j tj Hj Hcj. rewrite Hstep, Ee, Ft in Hj. rewrite Hstep, Eh, Ftl.
      destruct (e + move_interval <? total_duration).
      * apply lookup_insert_Some in Hj as [(_ & <-)|(_ & Hj)];
          [discriminate Hcj|].
        apply lookup_delete_Some in Hj as (_ & Hj). now apply (Hdue j tj).
      * apply lookup_delete_Some in Hj as (_ & Hj). now apply (Hdue j tj).
    + rewrite Hstep, Eh, Fa, Ha. discriminate.
Qed.

Lemma verdict_play (l : list Input) (w0 w : World) :
  uncancelled l ->
  challenge_progress w0 w -> verdict_progress w0 w ->
  verdict_progress w0 (play l w).
Proof.
  intros Hl. revert w. induction Hl as [|i l Hi Hl IH]; intros w Hcp Hvp;
    [exact Hvp|].
  cbn [play]. destruct (isChallengeActive (hooks w)) eqn:Ha; [|exact Hvp].
  apply IH.
  - now apply progress_step.
  - now apply verdict_step.
Qed.

(** What a challenge played from the idle state leaves behind. *)
Lemma challenge_outcome (rx ry : Q) (l : list Input) (w : World) :
  Inv w -> device_idle w -> uncancelled l ->
  let w' := play l (step (ClickStart rx ry) w) in
  challenge_progress w w' /\ verdict_progress w w'.
Proof.
  intros HI Hidle Hl w'.
  pose proof (progress_start rx ry w HI Hidle) as H1.
  pose proof (verdict_start rx ry w HI Hidle) as H2.
  split; [now apply progress_play|now apply verdict_play].
Qed.

(** X9.  The countdown never runs fast.  In a challenge started from
    the idle state and not torn down, however late or in whatever
    order the timers are run, the tick to [n] comes no earlier than
    [6 - n] seconds after the start and the completion no earlier than
    six seconds after it.  Once the challenge is over there is exactly
    one completion, the stored verdict carries its time as timestamp
    and 6 as duration, and the result card shows that duration. *)
Theorem verdict_after_six_seconds (rx ry : Q) (l : list Input) (w : World) :
  Inv w -> device_idle w -> uncancelled l ->
  let w' := play l (step (ClickStart rx ry) w) in
  Forall (on_time (now (env w))) (since w w') /\
  (isChallengeActive (hooks w') = false ->
   exists res card,
     challengeResult (hooks w') = Some res /\
     duration res = 6 /\
     completions (since w w') = [timestamp res] /\
     now (env w) + 6000 <= timestamp res /\
     result_card (view w') = Some card /\
     duration_text card = 6).
Proof.
  intros HI Hidle Hl w'.
  destruct (challenge_outcome rx ry l w HI Hidle Hl) as (Hcp & Hvp).
  fold w' in Hcp, Hvp.
  split; [exact (vp_paced _ _ Hvp)|].
  intros Ha. destruct (vp_verdict _ _ Hvp Ha) as (res & Hres & Hd & Hc).
  pose proof (vp_paced _ _ Hvp) as Hp.
  assert (Ht : now (env w) + 6000 <= timestamp res).
  { assert (Hin : Forall (fun T => now (env w) + 6000 <= T)
                    (completions (since w w'))).
    { clear Hc. induction Hp as [|[T o] r Ho Hp IH]; [constructor|].
      unfold completions. cbn. destruct o; cbn; try exact IH.
      constructor; [exact Ho|exact IH]. }
    rewrite Hc in Hin. now inversion Hin. }
  exists res. eexists. split; [exact Hres|]. split; [exact Hd|].
  split; [exact Hc|]. split; [exact Ht|].
  unfold view. cbn. rewrite Hres. split; [reflexivity|exact Hd].
Qed.

(** X10.  A challenge that is over leaves the component ready for the
    next one: it is idle again with camera and registration untouched,
    the Start button is enabled, and a challenge started then (with or
    without submitting the verdict first) discards the old verdict,
    shows the clock at 6 and, played to its end, delivers the whole
    countdown again and a verdict of its own, no earlier than six
    seconds after the second start. *)
Theorem challenge_can_be_repeated
  (rx ry rx' ry' : Q) (submit : bool) (l l' : list Input) (w : World) :
  Inv w -> device_idle w -> uncancelled l -> uncancelled l' ->
  let w1 := play l (step (ClickStart rx ry) w) in
  let w2 := if submit then step ClickSubmit w1 else w1 in
  let w3 := step (ClickStart rx' ry') w2 in
  let w4 := play l' w3 in
  isChallengeActive (hooks w1) = false ->
  device_idle w1 /\
  (forall c, controls (view w1) = Some c -> start_is_disabled c = false) /\
  (submit = true -> challengeResult (hooks w2) = None) /\
  isChallengeActive (hooks w3) = true /\
  challengeResult (hooks w3) = None /\
  (exists o, overlay (view w3) = Some o /\ timer_text o = 6) /\
  (isChallengeActive (hooks w4) = false ->
   countdown_obs (since w2 w4) =
     [Tick 5; Tick 4; Tick 3; Tick 2; Tick 1; Complete; Tick 0] /\
   exists res, challengeResult (hooks w4) = Some res /\
     completions (since w2 w4) = [timestamp res] /\
     now (env w1) + 6000 <= timestamp res).
Proof.
  intros HI Hidle Hl Hl' w1 w2 w3 w4 Ha1.
  destruct (challenge_outcome rx ry l w HI Hidle Hl) as (Hcp & Hvp).
  fold w1 in Hcp, Hvp.
  assert (Hidle1 : device_idle w1).
  { split; [exact (cp_mounted _ _ Hcp)|].
    split; [exact (vp_registered _ _ Hvp)|].
    split; [exact (vp_camera _ _ Hvp)|exact Ha1]. }
  pose proof (cp_inv _ _ Hcp) as HI1.
  destruct (vp_verdict _ _ Hvp Ha1) as (res1 & Hres1 & _).
  assert (H2 : Inv w2 /\ device_idle w2 /\ now (env w2) = now (env w1) /\
               (submit = true -> challengeResult (hooks w2) = None)).
  { subst w2. destruct submit;
      [|split; [exact HI1|split; [exact Hidle1|split;
                                   [reflexivity|discriminate]]]].
    split; [now apply Inv_step|].
    assert (Hs : step ClickSubmit w1 = render (submitResult w1)).
    { unfold step. cbn [handler]. destruct Hidle1 as (-> & -> & _).
      rewrite Hres1. reflexivity. }
    rewrite Hs. unfold device_idle.
    destruct (render_fields (submitResult w1)) as (-> & -> & _).
    unfold submitResult. rewrite Hres1.
    destruct Hidle1 as (A & B & C & D). repeat split; assumption. }
  destruct H2 as (HI2 & Hidle2 & Hnow & Hsub).
  destruct (challenge_outcome rx' ry' l' w2 HI2 Hidle2 Hl') as (Hcp4 & Hvp4).
  fold w3 w4 in Hcp4, Hvp4.
  pose proof (progress_start rx' ry' w2 HI2 Hidle2) as Hcp3. fold w3 in Hcp3.
  assert (H3 : isChallengeActive (hooks w3) = true /\
               challengeResult (hooks w3) = None /\
               timeLeft (hooks w3) = 6).
  { subst w3. rewrite (clickStart_enabled rx' ry' w2 Hidle2).
    destruct (render_fields (startChallenge rx' ry' w2)) as (-> & _).
    destruct Hidle2 as (_ & _ & Hc & _).
    destruct (startChallenge_fields rx' ry' w2 Hc)
      as (_ & _ & _ & _ & A & B & C & _).
    auto. }
  destruct H3 as (Ha3 & Hres3 & Htl3).
  split; [exact Hidle1|]. split; [|split; [exact Hsub|]].
  { intros c Hc. unfold view in Hc. cbn in Hc.
    destruct Hidle1 as (_ & Hr & Hcam & _). rewrite Hr in Hc.
    inversion Hc. cbn. unfold start_disabled. now rewrite Hcam, Ha1. }
  split; [exact Ha3|]. split; [exact Hres3|]. split.
  { unfold view. cbn. rewrite Ha3. eexists. split; [reflexivity|exact Htl3]. }
  intros Ha4. split.
  - destruct (cp_countdown _ _ Hcp4) as [(Hx & _)|(_ & Hobs)];
      [congruence|exact Hobs].
  - destruct (vp_verdict _ _ Hvp4 Ha4) as (res & Hres & _ & Hc).
    exists res. split; [exact Hres|]. split; [exact Hc|].
    pose proof (vp_paced _ _ Hvp4) as Hp. rewrite <- Hnow.
    assert (Hin : Forall (fun T => now (env w2) + 6000 <= T)
                    (completions (since w2 w4))).
    { clear Hc. induction Hp as [|[T o] r Ho Hp IH]; [constructor|].
      unfold completions. cbn. destruct o; cbn; try exact IH.
      constructor; [exact Ho|exact IH]. }
    rewrite Hc in Hin. now inversion Hin.
Qed.

(** ** The countdown, to its end and after *)

Lemma run_app (l1 l2 : list Input) (w : World) :
  run (l1 ++ l2) w = run l2 (run l1 w).
Proof. apply foldl_app. Qed.

(** With no challenge active nothing but a click on Start Challenge
    activates one, and no input makes the countdown or the dot
    speak. *)
Lemma idle_step (i : Input) (w : World) :
  Inv w -> isChallengeActive (hooks w) = false ->
  (forall rx ry, i <> ClickStart rx ry) ->
  isChallengeActive (hooks (step i w)) = false /\
  countdown_obs (emitted i w) = [] /\
  moves (emitted i w) = [].
Proof.
  intros HI Ha Hns.
  assert (Ht : timers (env w) = ∅) by (apply (inv_quiet w HI); now left).
  split.
  - destruct (step_clock i w HI) as [(E & _)|[(E & E6)|[E|(E & _)]]];
      try congruence.
    exfalso. unfold step in E, E6.
    destruct (handler i w) as [f|] eqn:Hh; [|congruence].
    destruct (render_fields (f w)) as (Eh & _). rewrite Eh in E.
    destruct i as [s|s| |rx ry| |st|err|id r1 r2| ]; cbn in Hh.
    + destruct (mounted (env w) && negb (isRegistered (hooks w)));
        inversion Hh; subst f. cbn in E. congruence.
    + destruct (mounted (env w) && negb (isRegistered (hooks w)));
        inversion Hh; subst f. cbn in E. congruence.
    + destruct (mounted (env w) && negb (isRegistered (hooks w)));
        inversion Hh; subst f. unfold handleRegister in E.
      destruct (truthy (trim (name (user (hooks w)))) &&
                truthy (trim (email (user (hooks w)))) &&
                includes (email (user (hooks w))) at_sign);
        cbn in E; congruence.
    + exact (Hns rx ry eq_refl).
    + destruct (mounted (env w) && isRegistered (hooks w) &&
                bool_decide (is_Some (challengeResult (hooks w))));
        inversion Hh; subst f. unfold submitResult in E.
      destruct (challengeResult (hooks w)); cbn in E; congruence.
    + destruct (pendingCamera (env w)); inversion Hh; subst f.
      unfold cameraGranted, startCamera_resolved in E. cbn in E.
      destruct (videoRef (refs w)); cbn in E; congruence.
    + destruct (pendingCamera (env w)); inversion Hh; subst f.
      unfold cameraFailed, startCamera_rejected in E.
      destruct err as [en|]; try case_bool_decide; cbn in E; congruence.
    + rewrite Ht, lookup_empty in Hh. discriminate Hh.
    + destruct (mounted (env w)); inversion Hh; subst f.
      unfold unmount in E. cbn in E. destruct (cleanup_clock w) as (Ec & _).
      congruence.
  - unfold emitted. destruct (handler i w) as [f|] eqn:Hh; [|auto].
    destruct i as [s|s| |rx ry| |st|err|id r1 r2| ]; try (split; reflexivity).
    + destruct (truthy (trim (name (user (hooks w)))) &&
                truthy (trim (email (user (hooks w)))) &&
                includes (email (user (hooks w))) at_sign); split; reflexivity.
    + exfalso. exact (Hns rx ry eq_refl).
    + destruct (challengeResult (hooks w)); split; reflexivity.
    + rewrite Ht, lookup_empty. split; reflexivity.
    + destruct (streamRef (refs w)) as [s|]; [|split; reflexivity].
      split.
      * unfold countdown_obs. induction (tracks s); [reflexivity|exact IHl].
      * unfold moves. induction (tracks s); [reflexivity|exact IHl].
Qed.

Lemma progress_idle_step (i : Input) (w0 w : World) :
  challenge_progress w0 w -> isChallengeActive (hooks w) = false ->
  (forall rx ry, i <> ClickStart rx ry) -> i <> Unmount ->
  challenge_progress w0 (step i w) /\
  isChallengeActive (hooks (step i w)) = false.
Proof.
  intros Hcp Ha Hns Hnu.
  pose proof (cp_inv _ _ Hcp) as HI.
  pose proof (cp_extends _ _ Hcp) as Hext.
  destruct (idle_step i w HI Ha Hns) as (Ha' & Hc & Hm).
  pose proof (Inv_step i w HI) as HI'.
  split; [|exact Ha'].
  assert (Hmv : moves (since w0 (step i w)) = moves (since w0 w)).
  { rewrite (since_step i w0 w Hext), moves_app, Hm. apply app_nil_r. }
  split.
  - eapply trace_extends_trans; [exact Hext|apply step_extends].
  - exact HI'.
  - destruct (step_keeps_camera i w Hnu) as (-> & _).
    exact (cp_mounted _ _ Hcp).
  - right. split; [exact Ha'|].
    rewrite (since_step i w0 w Hext), countdown_obs_app, Hc, app_nil_r.
    destruct (cp_countdown _ _ Hcp) as [(Hx & _)|(_ & Hobs)];
      [congruence|exact Hobs].
  - rewrite Hmv. exact (cp_first _ _ Hcp).
  - rewrite Hmv. exact (cp_count _ _ Hcp).
  - rewrite Hmv. exact (cp_spaced _ _ Hcp).
  - intros j t e Hj. rewrite (inv_quiet _ HI') in Hj by now left.
    rewrite lookup_empty in Hj. discriminate Hj.
Qed.

(** A challenge that is not torn down and not started anew, under any
    inputs whatever, also after its end. *)
Lemma progress_run (l : list Input) (w0 w : World) :
  uncancelled l -> no_restart l ->
  challenge_progress w0 w -> challenge_progress w0 (run l w).
Proof.
  intros Hl. revert w. induction Hl as [|i l Hi Hl IH]; intros w Hn Hcp;
    [exact Hcp|].
  inversion Hn as [|? ? Hi' Hn']; subst.
  rewrite run_cons. apply IH; [exact Hn'|].
  destruct (isChallengeActive (hooks w)) eqn:Ha.
  - now apply progress_step.
  - now apply progress_idle_step.
Qed.

Lemma idle_run (l : list Input) (w : World) :
  Inv w -> isChallengeActive (hooks w) = false -> no_restart l ->
  isChallengeActive (hooks (run l w)) = false.
Proof.
  intros HI Ha Hn. revert w HI Ha.
  induction Hn as [|i l Hi Hn IH]; intros w HI Ha; [exact Ha|].
  rewrite run_cons. apply IH; [now apply Inv_step|].
  now apply idle_step.
Qed.

Lemma play_run (l : list Input) (w : World) :
  exists l1 l2, l = l1 ++ l2 /\ play l w = run l1 w /\
    (l2 = [] \/ isChallengeActive (hooks (play l w)) = false).
Proof.
  revert w. induction l as [|i l IH]; intros w.
  - exists [], []. repeat split. now left.
  - cbn [play]. destruct (isChallengeActive (hooks w)) eqn:Ha.
    + destruct (IH (step i w)) as (l1 & l2 & -> & Hp & Hd).
      exists (i :: l1), l2. repeat split; assumption.
    + exists [], (i :: l). repeat split. now right.
Qed.

(** C2.  A challenge started from the idle state with the clock at 6,
    not torn down and not started anew, delivers the remaining values
    5, 4, 3, 2, 1, 0, each once and in this order, and calls
    [endChallenge] once, whatever else happens and however long one
    goes on watching: the events counted are those of the whole run,
    those after the end of the challenge included, where the cleared
    interval cannot run again.  While the challenge is still running
    the values above the clock have been delivered and nothing has
    completed.  Six runs of the interval callback complete it. *)
Theorem countdown_sequence (rx ry r1 r2 : Q) (l : list Input) (w : World) :
  Inv w -> device_idle w -> uncancelled l -> no_restart l ->
  let w1 := step (ClickStart rx ry) w in
  let w2 := run l w1 in
  timeLeft (hooks w1) = 6 /\
  (isChallengeActive (hooks w2) = false ->
     countdown_obs (since w w2) =
       [Tick 5; Tick 4; Tick 3; Tick 2; Tick 1; Complete; Tick 0] /\
     ticks (since w w2) = [5; 4; 3; 2; 1; 0] /\
     length (completions (since w w2)) = 1%nat /\
     timers (env w2) = ∅) /\
  (isChallengeActive (hooks w2) = true ->
     1 <= timeLeft (hooks w2) <= 6 /\
     ticks (since w w2) =
       descending (Z.to_nat (6 - timeLeft (hooks w2))) 5 /\
     completions (since w w2) = []) /\
  isChallengeActive
    (hooks (run (replicate 6 (Fire (nextTimerId (env w)) r1 r2)) w1)) = false.
Proof.
  intros HI Hidle Hl Hn w1 w2.
  pose proof (progress_start rx ry w HI Hidle) as H1. fold w1 in H1.
  pose proof (progress_run l w w1 Hl Hn H1) as H2. fold w2 in H2.
  assert (Hw1 : w1 = render (startChallenge rx ry w))
    by (apply clickStart_enabled; exact Hidle).
  destruct (render_fields (startChallenge rx ry w)) as (Eh & Ee & _ & Ec & _).
  destruct Hidle as (Hm & Hr & Hc & Ha).
  destruct (startChallenge_fields rx ry w Hc)
    as (_ & _ & Hctr & _ & Ha' & _ & Htl & Hm' & _).
  split; [rewrite Hw1, Eh; exact Htl|]. split; [|split].
  - intros Hdone.
    destruct (cp_countdown _ _ H2) as [(Hx & _)|(_ & Hobs)]; [congruence|].
    split; [exact Hobs|].
    rewrite ticks_of_obs, completions_of_obs, Hobs.
    split; [reflexivity|]. split; [reflexivity|].
    apply (inv_quiet _ (cp_inv _ _ H2)). now left.
  - intros Hgo.
    destruct (cp_countdown _ _ H2) as [(_ & Hk & Hobs)|(Hx & _)]; [|congruence].
    split; [exact Hk|].
    assert (Hc0 : length (completions (since w w2)) = 0%nat).
    { rewrite completions_of_obs, Hobs.
      generalize (descending (Z.to_nat (6 - timeLeft (hooks w2))) 5).
      intros d. induction d as [|a d IHd]; [reflexivity|]. exact IHd. }
    split; [|now destruct (completions (since w w2))].
    rewrite ticks_of_obs, Hobs.
    generalize (descending (Z.to_nat (6 - timeLeft (hooks w2))) 5).
    intros d. induction d as [|a d IHd]; [reflexivity|].
    cbn. now rewrite IHd.
  - set (F := replicate 6 (Fire (nextTimerId (env w)) r1 r2)).
    assert (Hp : isChallengeActive (hooks (play F w1)) = false).
    { apply (countdown_plays_out 5).
      + exact (cp_inv _ _ H1).
      + exact (cp_mounted _ _ H1).
      + rewrite Hw1, Eh. exact Ha'.
      + rewrite Hw1, Ec. exact Hctr.
      + rewrite Hw1, Eh. exact Htl. }
    destruct (play_run F w1) as (l1 & l2 & EF & Epl & _).
    rewrite EF, run_app, <- Epl.
    apply idle_run; [|exact Hp|].
    + rewrite Epl. apply Inv_run. exact (cp_inv _ _ H1).
    + assert (HF : no_restart F) by (subst F; repeat constructor; discriminate).
      rewrite EF in HF. apply Forall_app in HF. apply HF.
Qed.

(** ** A camera that is never released *)

Lemma Dark_run (l : list Input) (w : World) : Dark w -> Dark (run l w).
Proof.
  revert w. induction l as [|i l IH]; intros w Hw; [exact Hw|].
  rewrite run_cons. apply IH. now apply Dark_step.
Qed.

Lemma cleanup_tracks_absent (w : World) :
  streamRef (refs w) = None ->
  liveTracks (env (cleanup w)) = liveTracks (env w).
Proof.
  intros Hs. unfold cleanup. rewrite (stopCamera_absent w Hs).
  destruct (truthyId (challengeTimerRef (refs w))); cbn;
    destruct (truthyId (dotTimerRef (refs w))); reflexivity.
Qed.

(** With no stream stored no input stops a track, the unmount
    included. *)
Lemma Dark_keeps_tracks (i : Input) (w : World) :
  Dark w ->
  liveTracks (env w) ⊆ liveTracks (env (step i w)) /\
  track_stops (emitted i w) = [].
Proof.
  intros (_ & _ & _ & Hs & _).
  assert (Hd : {i = Unmount} + {i <> Unmount}).
  { destruct i; (now left) || (right; discriminate). }
  destruct Hd as [->|Hnu].
  - split.
    + unfold step. cbn [handler].
      destruct (mounted (env w)); [|reflexivity].
      destruct (render_fields (unmount w)) as (_ & -> & _).
      unfold unmount. cbn. now rewrite (cleanup_tracks_absent w Hs).
    + unfold emitted. destruct (handler Unmount w); [|reflexivity].
      now rewrite Hs.
  - split; [apply (step_keeps_camera i w Hnu)|now apply emitted_no_stop].
Qed.

Lemma Dark_run_tracks (l : list Input) (w : World) :
  Dark w ->
  liveTracks (env w) ⊆ liveTracks (env (run l w)) /\
  track_stops (since w (run l w)) = [].
Proof.
  revert w. induction l as [|i l IH]; intros w Hw.
  - cbn. now rewrite since_refl.
  - destruct (Dark_keeps_tracks i w Hw) as (Ht & Hs).
    destruct (IH _ (Dark_step i w Hw)) as (Ht' & Hs').
    rewrite since_run_cons, track_stops_app, Hs, Hs', run_cons.
    split; [etransitivity; eassumption|reflexivity].
Qed.

(** C3.  The device is not released.  In every state the component
    reaches from its initial state no stream is stored in [streamRef]
    ([startCamera] drops the stream it is given, the [<video>] element
    not being rendered yet), so [stopCamera] finds nothing to stop: no
    [track.stop()] is ever called, every track that is capturing stays
    so under every further input, the unmount included, and the tracks
    of a stream the browser grants are still capturing after the
    unmount and for ever after. *)
Theorem unmount_leaves_camera_on (l : list Input) :
  let w := run l initial in
  streamRef (refs w) = None /\
  track_stops (trace (env w)) = [] /\
  (forall l', liveTracks (env w) ⊆ liveTracks (env (run l' w))) /\
  (forall stream l',
     (0 < pendingCamera (env w))%nat ->
     list_to_set (tracks stream)
       ⊆ liveTracks (env (run l' (step Unmount
                                    (step (CameraGranted stream) w))))).
Proof.
  intros w.
  assert (Hd0 : Dark initial) by (repeat split).
  assert (Hd : Dark w) by now apply Dark_run.
  split; [apply Hd|]. split; [|split].
  - destruct (Dark_run_tracks l initial Hd0) as (_ & H). exact H.
  - intros l'. apply (Dark_run_tracks l' w Hd).
  - intros stream l' Hp.
    pose proof (Dark_step (CameraGranted stream) w Hd) as Hd1.
    pose proof (Dark_step Unmount _ Hd1) as Hd2.
    etransitivity; [|apply (Dark_run_tracks l' _ Hd2)].
    etransitivity; [|apply (Dark_keeps_tracks Unmount _ Hd1)].
    unfold step. cbn [handler].
    destruct (pendingCamera (env w)) as [|n]; [lia|].
    destruct (render_fields (cameraGranted stream w)) as (_ & -> & _).
    unfold cameraGranted, startCamera_resolved. cbn.
    destruct Hd as (_ & _ & -> & _). cbn. apply union_subseteq_r.
Qed.

(** The teardown the specification asks for fails on the registered
    user whose camera request was granted: after the unmount tracks 7
    and 8 are still capturing. *)
Lemma teardown_does_not_release : ~ teardown_releases (run leak_run initial).
Proof.
  intros [_ H].
  assert (E : liveTracks (env (step Unmount (run leak_run initial)))
              = {[7%nat; 8%nat]}) by (vm_compute; reflexivity).
  rewrite E in H.
  assert (Hin : 7%nat ∈ ({[7%nat; 8%nat]} : gset nat))
    by (apply elem_of_union_l, elem_of_singleton; reflexivity).
  rewrite H in Hin. exact (not_elem_of_empty _ Hin).
Qed.

(** ** The further properties on the sample worlds *)

Lemma full_challenge_uncancelled :
  uncancelled (ClickStart half half :: ideal_schedule).
Proof. constructor; [discriminate|apply ideal_schedule_uncancelled]. Qed.

(** The timers of a second challenge on the ideal clock: the interval
    has id 9, the pending moves the ids 10 to 16. *)
Lemma second_schedule_uncancelled :
  uncancelled (map (fun id => Fire id half half)
                 [10; 9; 11; 9; 12; 9; 13; 9; 14; 15; 9; 16; 9]%nat).
Proof. repeat constructor; discriminate. Qed.

Lemma registration_is_final_witness :
  user (hooks (run [TypeName (lit "Bob"); ClickRegister] idle_world))
    = user (hooks idle_world) /\
  camera_requests
    (since idle_world (run [TypeName (lit "Bob"); ClickRegister] idle_world))
    = [].
Proof.
  destruct (registration_is_final [TypeName (lit "Bob"); ClickRegister]
              idle_world eq_refl) as (_ & Hu & _ & Hc).
  split; [exact Hu|exact Hc].
Defined.

Lemma registered_user_is_valid_witness :
  valid_registration
    (user (hooks (run [ClickRegister] (typed "Alice" "a@b.com")))).
Proof.
  apply (registered_user_is_valid [ClickRegister] (typed "Alice" "a@b.com")).
  - intros H. discriminate H.
  - vm_compute. reflexivity.
Defined.

Lemma view_shows_one_phase_witness :
  overlay (view (run (ClickStart half half :: ideal_schedule) idle_world))
    = None \/
  result_card (view (run (ClickStart half half :: ideal_schedule) idle_world))
    = None.
Proof.
  destruct (view_shows_one_phase (ClickStart half half :: ideal_schedule)
              idle_world Inv_idle_world)
    as [(_ & H & _)|[(H & _)|(H & _)]].
  - vm_compute. reflexivity.
  - right. exact H.
  - left. exact H.
  - left. exact H.
Defined.

Lemma countdown_display_in_range_witness :
  1 <= timeLeft (hooks (run [Fire 1 half half] started_world)) <= 6.
Proof.
  refine (countdown_display_in_range [Fire 1 half half] started_world
           (Inv_step _ _ Inv_idle_world) _
           {| dot_left := pos_x (dotPosition
                 (hooks (run [Fire 1 half half] started_world)));
              dot_top := pos_y (dotPosition
                 (hooks (run [Fire 1 half half] started_world)));
              timer_text := timeLeft
                 (hooks (run [Fire 1 half half] started_world)) |} _).
  - intros _. vm_compute. split; discriminate.
  - vm_compute. reflexivity.
Defined.

Lemma dot_stays_in_band_witness :
  in_viewport_band
    (dotPosition
       (hooks (run (ClickStart half half :: ideal_schedule) idle_world))).
Proof.
  destruct (dot_stays_in_band (ClickStart half half :: ideal_schedule)
              idle_world ideal_schedule_draws) as (H & _).
  - vm_compute. repeat split; discriminate.
  - exact H.
Defined.

Lemma verdict_after_six_seconds_witness :
  exists res,
    challengeResult
      (hooks (play ideal_schedule (step (ClickStart half half) idle_world)))
      = Some res /\
    now (env idle_world) + 6000 <= timestamp res.
Proof.
  destruct (verdict_after_six_seconds half half ideal_schedule idle_world
              Inv_idle_world idle_world_idle ideal_schedule_uncancelled)
    as (_ & H).
  destruct H as (res & card & Hres & _ & _ & Ht & _); [vm_compute; reflexivity|].
  exists res. split; [exact Hres|exact Ht].
Defined.

Lemma challenge_can_be_repeated_witness :
  device_idle (play ideal_schedule (step (ClickStart half half) idle_world)) /\
  countdown_obs
    (since
       (step ClickSubmit
          (play ideal_schedule (step (ClickStart half half) idle_world)))
       (play (map (fun id => Fire id half half)
                [10; 9; 11; 9; 12; 9; 13; 9; 14; 15; 9; 16; 9]%nat)
          (step (ClickStart half half)
             (step ClickSubmit
                (play ideal_schedule
                   (step (ClickStart half half) idle_world))))))
    = [Tick 5; Tick 4; Tick 3; Tick 2; Tick 1; Complete; Tick 0].
Proof.
  destruct (challenge_can_be_repeated half half half half true ideal_schedule
              (map (fun id => Fire id half half)
                 [10; 9; 11; 9; 12; 9; 13; 9; 14; 15; 9; 16; 9]%nat)
              idle_world Inv_idle_world idle_world_idle
              ideal_schedule_uncancelled second_schedule_uncancelled)
    as (Hidle & _ & _ & _ & _ & _ & H); [vm_compute; reflexivity|].
  destruct H as (Hobs & _); [vm_compute; reflexivity|].
  split; [exact Hidle|exact Hobs].
Defined.

Lemma camera_stays_on_until_unmount_witness :
  track_stops
    (since idle_world
       (run (ClickStart half half :: ideal_schedule) idle_world)) = [] /\
  isCameraActive
    (hooks (run (ClickStart half half :: ideal_schedule) idle_world)) = true.
Proof.
  destruct (camera_stays_on_until_unmount
              (ClickStart half half :: ideal_schedule) idle_world
              full_challenge_uncancelled) as (_ & Hs & _ & Hc).
  destruct (Hc eq_refl) as (Hc' & _).
  split; [exact Hs|exact Hc'].
Defined.

Lemma at_most_two_timers_witness :
  (size (timers (env (run [ClickStart half half; Fire 2 half half]
                        idle_world))) <= 2)%nat.
Proof.
  destruct (at_most_two_timers [ClickStart half half; Fire 2 half half]
              idle_world Inv_idle_world) as (H & _).
  exact H.
Defined.

Lemma unmounted_state_is_frozen_witness :
  hooks (run (ClickStart half half :: ideal_schedule)
           (step Unmount started_world))
    = hooks (step Unmount started_world).
Proof.
  destruct (unmounted_state_is_frozen (ClickStart half half :: ideal_schedule)
              (step Unmount started_world)
              (torn_down_unmounted started_world
                 (Inv_step _ _ Inv_idle_world) eq_refl)) as (H & _).
  exact H.
Defined.

Lemma long_watch_uncancelled : uncancelled long_watch.
Proof. repeat constructor; discriminate. Qed.

Lemma long_watch_no_restart : no_restart long_watch.
Proof. repeat constructor; discriminate. Qed.

Lemma countdown_sequence_witness :
  ticks (since idle_world
           (run long_watch (step (ClickStart half half) idle_world)))
    = [5; 4; 3; 2; 1; 0] /\
  length (completions
            (since idle_world
               (run long_watch (step (ClickStart half half) idle_world))))
    = 1%nat.
Proof.
  destruct (countdown_sequence half half half half long_watch idle_world
              Inv_idle_world idle_world_idle long_watch_uncancelled
              long_watch_no_restart)
    as (_ & Hdone & _).
  destruct Hdone as (_ & Ht & Hc & _); [vm_compute; reflexivity|].
  split; assumption.
Defined.
